(** * Gallery backend and query hook: batch ingestion, validation,
      query normalisation and search suggestions.

    The development embeds
    - [src/services/embedding.service.js] (class [EmbeddingService]),
    - the [processImage] method of [src/services/openai.service.js],
    - the upload middleware's [fileFilter],
    - the upload controller ([uploadImages], [queryImages]),
    - the frontend [QueryService] ([searchWithSuggestions],
      [generateSearchSuggestions]).

    Asynchronous methods are functions in a state/output/exception monad:
    the state is the outside world together with the service's
    [isInitialized] flag, the output is the sequence of external calls and
    console lines in the order they are issued, and a rejected promise is an
    outcome [Thrown]. *)

From Stdlib Require Import List String Ascii Bool ZArith NArith QArith Lia.
From Stdlib Require Import Qround Permutation Sorted DecimalString.
Import ListNotations.

Set Implicit Arguments.

(* ================================================================== *)
(** ** JavaScript values used by the code *)
(* ================================================================== *)

(** A JS number. Finite doubles are embedded in [Q]; the code only compares
    numbers and never computes with them, so no rounding is involved.
    The literal [0.7] is written [7 # 10]. *)
Inductive number : Type :=
| NaN
| PosInf
| NegInf
| Fin (q : Q).

(** [ToBoolean] on a number: [NaN] and zero are falsy. *)
Definition truthy (n : number) : bool :=
  match n with
  | NaN => false
  | PosInf | NegInf => true
  | Fin q => negb (Qeq_bool q 0)
  end.

(** [a || b] on numbers. *)
Definition js_or (a b : number) : number := if truthy a then a else b.

Definition Math_max (a b : number) : number :=
  match a, b with
  | NaN, _ | _, NaN => NaN
  | PosInf, _ | _, PosInf => PosInf
  | NegInf, x | x, NegInf => x
  | Fin p, Fin q => if Qle_bool p q then Fin q else Fin p
  end.

Definition Math_min (a b : number) : number :=
  match a, b with
  | NaN, _ | _, NaN => NaN
  | NegInf, _ | _, NegInf => NegInf
  | PosInf, x | x, PosInf => x
  | Fin p, Fin q => if Qle_bool p q then Fin p else Fin q
  end.

(** [a < b] and [a <= b] on numbers; every comparison with [NaN] is false. *)
Definition num_lt (a b : number) : bool :=
  match a, b with
  | NaN, _ | _, NaN => false
  | _, NegInf => false
  | NegInf, _ => true
  | PosInf, _ => false
  | Fin _, PosInf => true
  | Fin p, Fin q => negb (Qle_bool q p)
  end.

Definition num_le (a b : number) : bool :=
  match a, b with
  | NaN, _ | _, NaN => false
  | NegInf, _ => true
  | _, PosInf => true
  | _, NegInf => false
  | PosInf, _ => false
  | Fin p, Fin q => Qle_bool p q
  end.

(** A value found in a parsed JSON body. [VUndefined] is an absent key;
    arrays and objects are not inspected by the code and are opaque. *)
Inductive jsval : Type :=
| VUndefined
| VNull
| VBool (b : bool)
| VNum (n : number)
| VStr (s : string)
| VObj.

(** A thrown [Error]: its message and the HTTP status an SDK may attach. *)
Record JsError : Type := { message : string; status : option Z }.

(** [new Error(msg)] *)
Definition Error (msg : string) : JsError := {| message := msg; status := None |}.

Inductive outcome (A : Type) : Type :=
| Returned (a : A)
| Thrown (e : JsError).
Arguments Returned {A} a.
Arguments Thrown {A} e.

Definition string_of_nat (n : nat) : string := NilEmpty.string_of_uint (Nat.to_uint n).

(** The one-character string holding a double quote. *)
Definition dquote : string := String (ascii_of_nat 34) EmptyString.

(* ================================================================== *)
(** ** Data carried by the backend *)
(* ================================================================== *)

Definition Vector := list Q.

(** The object built by [openaiService.processImage]. *)
Record ProcessedData : Type := {
  pd_description : string;
  pd_embedding : Vector;
  pd_filename : string;
  pd_timestamp : string
}.

(** The object returned by [processUploadedImage]. *)
Record ItemResult : Type := {
  success : bool;
  pointId : string;
  filename : string;
  description : string;
  timestamp : string
}.

(** An entry of the batch's [errors] array. *)
Record FailedItem : Type := {
  failed_filename : string;
  failed_error : string
}.

(** The object returned by [processMultipleImages]. *)
Record BatchResult : Type := {
  successful : list ItemResult;
  failed : list FailedItem;
  totalProcessed : nat;
  totalFailed : nat
}.

(** A multer file object. *)
Record File : Type := {
  path : string;
  originalname : string;
  mimetype : string;
  size : Z
}.

(** One match returned by the vector store. *)
Record SearchHit : Type := {
  hit_id : string;
  hit_filename : string;
  hit_description : string;
  hit_timestamp : string;
  score : Q
}.

Record SearchParams : Type := {
  sp_limit : number;
  sp_scoreThreshold : number
}.

(** The object returned by [EmbeddingService.searchImages]. *)
Record SearchData : Type := {
  sd_query : string;
  sd_results : list SearchHit;
  sd_totalFound : nat;
  sd_searchParams : SearchParams
}.

(* ================================================================== *)
(** ** Observable events *)
(* ================================================================== *)

(** A string of the frontend, as its sequence of UTF-16 code units. *)
Definition jsstring : Type := list N.

(** The code units of an ASCII literal. *)
Definition lit (s : string) : jsstring := map N_of_ascii (list_ascii_of_string s).

Inductive logarg : Type :=
| LStr (s : string)
| LJs (s : jsstring)
| LNum (n : number)
| LErr (e : JsError).

(** Calls that leave the process. *)
Inductive call : Type :=
| validateApiKey_call
| initializeCollection_call
| generateImageDescription_call (imagePath : string)
| generateTextEmbedding_call (text : string)
| toISOString_call
| storeImageEmbedding_call (data : ProcessedData)
| searchSimilarImages_call (embedding : Vector) (limit scoreThreshold : number)
| pathExists_call (filePath : string)
| unlink_call (filePath : string)
| axios_post_call (url : string).

Inductive event : Type :=
| Console_log (args : list logarg)
| Console_error (args : list logarg)
| Call (c : call).

(* ================================================================== *)
(** ** The monad of asynchronous methods *)
(* ================================================================== *)

Record Run (S A : Type) : Type := {
  result : outcome A;
  final : S;
  emitted : list event
}.

(** A computation from a state of type [S]. *)
Definition M (S A : Type) : Type := S -> Run S A.

Section Monad.
Context {S : Type}.

Definition ret {A} (a : A) : M S A :=
  fun s => {| result := Returned a; final := s; emitted := [] |}.

Definition throw {A} (e : JsError) : M S A :=
  fun s => {| result := Thrown e; final := s; emitted := [] |}.

Definition bind {A B} (m : M S A) (k : A -> M S B) : M S B :=
  fun s =>
    let r := m s in
    match result r with
    | Returned a =>
        let r' := k a (final r) in
        {| result := result r'; final := final r';
           emitted := emitted r ++ emitted r' |}
    | Thrown e =>
        {| result := Thrown e; final := final r; emitted := emitted r |}
    end.

(** [try { body } catch (error) { handler error }] *)
Definition try_catch {A} (body : M S A) (handler : JsError -> M S A)
  : M S A :=
  fun s =>
    let r := body s in
    match result r with
    | Returned a =>
        {| result := Returned a; final := final r; emitted := emitted r |}
    | Thrown e =>
        let r' := handler e (final r) in
        {| result := result r'; final := final r';
           emitted := emitted r ++ emitted r' |}
    end.

Definition emit (ev : event) : M S unit :=
  fun s => {| result := Returned tt; final := s; emitted := [ev] |}.

Definition console_log (args : list logarg) : M S unit :=
  emit (Console_log args).

Definition console_error (args : list logarg) : M S unit :=
  emit (Console_error args).

(** A synchronous function that may throw. *)
Definition lift_outcome {A} (o : outcome A) : M S A :=
  fun s => {| result := o; final := s; emitted := [] |}.

(** [for (const x of xs) { body x }] *)
Fixpoint for_of {A} (xs : list A) (body : A -> M S unit) : M S unit :=
  match xs with
  | [] => ret tt
  | x :: rest => bind (body x) (fun _ => for_of rest body)
  end.
End Monad.

(** [emits P m]: every event [m] issues satisfies [P], from any state. *)
Definition emits {S A} (P : event -> Prop) (m : M S A) : Prop :=
  forall s, Forall P (emitted (m s)).

Declare Scope js_scope.
Delimit Scope js_scope with js.
Notation "x <- m ;; k" := (bind m (fun x => k))
  (at level 100, m at next level, right associativity) : js_scope.
Notation "m ;; k" := (bind m (fun _ => k))
  (at level 100, right associativity) : js_scope.

Local Open Scope js_scope.
Local Open Scope string_scope.

(* ================================================================== *)
(** ** The backend *)
(* ================================================================== *)

(** State of the backend process: the outside world and the
    [isInitialized] field of the [EmbeddingService] singleton. *)
Record St (World : Type) : Type := {
  world : World;
  isInitialized : bool
}.

(** Library functions of the host language that the code calls and whose
    result the code only passes on or clamps. *)
Record Builtins : Type := {
  parseInt : jsval -> number;
  parseFloat : jsval -> number;
  String_trim : string -> string;
  path_basename : string -> string
}.

(** The services behind the backend: the OpenAI wrapper's two requests and
    its configuration check, the clock, the Qdrant client ([db/qdrant.js])
    and [fs-extra]. Each may read and change the world; each but the clock
    may throw. *)
Record Collaborators (World : Type) : Type := {
  openai_validateApiKey : World -> outcome unit * World;
  openai_generateImageDescription : string -> World -> outcome string * World;
  openai_generateTextEmbedding : string -> World -> outcome Vector * World;
  Date_toISOString : World -> string * World;
  qdrant_initializeCollection : World -> outcome unit * World;
  qdrant_storeImageEmbedding : ProcessedData -> World -> outcome string * World;
  qdrant_searchSimilarImages :
    Vector -> number -> number -> World -> outcome (list SearchHit) * World;
  fs_pathExists : string -> World -> outcome bool * World;
  fs_unlink : string -> World -> outcome unit * World
}.

(** What a controller does with a request: it sends a JSON response with a
    status code, or hands an error to [next]. *)
Inductive Reply (D : Type) : Type :=
| Json (statusCode : Z) (ok : bool) (msg : string) (code : option string)
       (data : option D)
| Next (e : JsError).
Arguments Json {D} statusCode ok msg code data.
Arguments Next {D} e.

(** [data] of an upload response: the single item's result, or the batch
    result. *)
Inductive UploadData : Type :=
| SingleData (r : ItemResult)
| BatchData (b : BatchResult).

(** The parts of an upload request the controller reads. *)
Record UploadRequest : Type := {
  req_files : option (list File);
  req_file : option File
}.

(** The JSON body of a query request. *)
Record QueryBody : Type := {
  body_query : jsval;
  body_limit : jsval;
  body_scoreThreshold : jsval
}.

Section Backend.
Context {World : Type}.
Variable B : Builtins.
Variable C : Collaborators World.

Let Async := M (St World).

(** A call to a collaborator. *)
Definition external {A} (c : call) (f : World -> outcome A * World)
  : Async A :=
  fun s =>
    let '(o, w) := f (world s) in
    {| result := o;
       final := {| world := w; isInitialized := isInitialized s |};
       emitted := [Call c] |}.

Definition get_isInitialized : Async bool :=
  fun s => {| result := Returned (isInitialized s); final := s; emitted := [] |}.

Definition set_isInitialized (b : bool) : Async unit :=
  fun s => {| result := Returned tt;
              final := {| world := world s; isInitialized := b |};
              emitted := [] |}.

(** *** openai.service.js *)

Definition generateImageDescription (imagePath : string) : Async string :=
  external (generateImageDescription_call imagePath)
           (openai_generateImageDescription C imagePath).

Definition generateTextEmbedding (text : string) : Async Vector :=
  external (generateTextEmbedding_call text)
           (openai_generateTextEmbedding C text).

Definition toISOString : Async string :=
  external toISOString_call
           (fun w => let '(t, w') := Date_toISOString C w in (Returned t, w')).

Definition processImage (imagePath : string) : Async ProcessedData :=
  try_catch
    (description <- generateImageDescription imagePath ;;
     embedding <- generateTextEmbedding description ;;
     timestamp <- toISOString ;;
     ret {| pd_description := description;
            pd_embedding := embedding;
            pd_filename := path_basename B imagePath;
            pd_timestamp := timestamp |})
    (fun error =>
       console_error [LStr ("Error processing image " ++ imagePath ++ ":");
                      LErr error] ;;
       throw error).

Definition processSearchQuery (query : string) : Async Vector :=
  try_catch
    (console_log [LStr ("Processing search query: " ++ dquote ++ query ++ dquote)] ;;
     generateTextEmbedding query)
    (fun error =>
       console_error [LStr "Error processing search query:"; LErr error] ;;
       throw error).

(** *** embedding.service.js *)

Definition initialize : Async unit :=
  try_catch
    (console_log [LStr "Initializing Embedding Service..."] ;;
     external validateApiKey_call (openai_validateApiKey C) ;;
     external initializeCollection_call (qdrant_initializeCollection C) ;;
     set_isInitialized true ;;
     console_log [LStr "Embedding Service initialized successfully"])
    (fun error =>
       console_error [LStr "Error initializing Embedding Service:"; LErr error] ;;
       throw error).

Definition cleanupTemporaryFile (filePath : string) : Async unit :=
  try_catch
    (exists_ <- external (pathExists_call filePath) (fs_pathExists C filePath) ;;
     if (exists_ : bool) then
       external (unlink_call filePath) (fs_unlink C filePath) ;;
       console_log [LStr ("Cleaned up temporary file: " ++ filePath)]
     else ret tt)
    (fun error =>
       console_error [LStr ("Error cleaning up file " ++ filePath ++ ":");
                      LErr error]).

(** The statements of [processUploadedImage]'s [try] block that precede
    the clean-up call: initialise, describe and embed, store. *)
Definition processAndStore (imagePath originalFilename : string)
  : Async (string * ProcessedData) :=
  console_log [LStr ("Processing uploaded image: " ++ originalFilename)] ;;
  initialized <- get_isInitialized ;;
  (if (initialized : bool) then ret tt else initialize) ;;
  processedData0 <- processImage imagePath ;;
  let processedData :=
    {| pd_description := pd_description processedData0;
       pd_embedding := pd_embedding processedData0;
       pd_filename := originalFilename;
       pd_timestamp := pd_timestamp processedData0 |} in
  pointId <- external (storeImageEmbedding_call processedData)
                      (qdrant_storeImageEmbedding C processedData) ;;
  ret (pointId, processedData).

Definition processUploadedImage (imagePath originalFilename : string)
  : Async ItemResult :=
  try_catch
    (stored <- processAndStore imagePath originalFilename ;;
     let '(pointId, processedData) := stored in
     cleanupTemporaryFile imagePath ;;
     console_log [LStr ("Successfully processed and stored: " ++ originalFilename)] ;;
     ret {| success := true;
            pointId := pointId;
            filename := originalFilename;
            description := pd_description processedData;
            timestamp := pd_timestamp processedData |})
    (fun error =>
       console_error [LStr ("Error processing image " ++ originalFilename ++ ":");
                      LErr error] ;;
       cleanupTemporaryFile imagePath ;;
       throw error).

(** One iteration of the [for ... of] loop of [processMultipleImages];
    [results] and [errors] are the two arrays the loop pushes to. *)
Definition batch_iteration (file : File)
           (acc : list ItemResult * list FailedItem)
  : Async (list ItemResult * list FailedItem) :=
  let '(results, errors) := acc in
  try_catch
    (result <- processUploadedImage (path file) (originalname file) ;;
     ret ((results ++ [result])%list, errors))
    (fun error =>
       console_error [LStr ("Failed to process " ++ originalname file ++ ":");
                      LStr (message error)] ;;
       ret (results,
            (errors ++ [{| failed_filename := originalname file;
                           failed_error := message error |}])%list)).

Fixpoint batch_loop (imageFiles : list File)
         (acc : list ItemResult * list FailedItem)
  : Async (list ItemResult * list FailedItem) :=
  match imageFiles with
  | [] => ret acc
  | file :: rest =>
      acc' <- batch_iteration file acc ;;
      batch_loop rest acc'
  end.

Definition processMultipleImages (imageFiles : list File) : Async BatchResult :=
  try_catch
    (console_log [LStr ("Processing batch of "
                        ++ string_of_nat (List.length imageFiles) ++ " images")] ;;
     acc <- batch_loop imageFiles ([], []) ;;
     let '(results, errors) := acc in
     console_log [LStr ("Batch processing complete: "
                        ++ string_of_nat (List.length results) ++ " successful, "
                        ++ string_of_nat (List.length errors) ++ " failed")] ;;
     ret {| successful := results;
            failed := errors;
            totalProcessed := List.length results;
            totalFailed := List.length errors |})
    (fun error =>
       console_error [LStr "Error in batch processing:"; LErr error] ;;
       throw error).

(** [searchImages(queryText, limit = 10, scoreThreshold = 0.7)] *)
Definition searchImages (queryText : string)
           (limit_arg scoreThreshold_arg : option number) : Async SearchData :=
  let limit := match limit_arg with Some l => l | None => Fin 10 end in
  let scoreThreshold :=
    match scoreThreshold_arg with Some t => t | None => Fin (7 # 10) end in
  try_catch
    (console_log [LStr ("Searching for images with query: "
                        ++ dquote ++ queryText ++ dquote)] ;;
     initialized <- get_isInitialized ;;
     (if (initialized : bool) then ret tt else initialize) ;;
     queryEmbedding <- processSearchQuery queryText ;;
     results <- external (searchSimilarImages_call queryEmbedding limit scoreThreshold)
                         (qdrant_searchSimilarImages C queryEmbedding limit
                                                     scoreThreshold) ;;
     console_log [LStr ("Search completed: found "
                        ++ string_of_nat (List.length results) ++ " matching images")] ;;
     ret {| sd_query := queryText;
            sd_results := results;
            sd_totalFound := List.length results;
            sd_searchParams := {| sp_limit := limit;
                                  sp_scoreThreshold := scoreThreshold |} |})
    (fun error =>
       console_error [LStr "Error searching images:"; LErr error] ;;
       throw error).

Definition maxSize : Z := 10 * 1024 * 1024.

Definition allowedTypes : list string :=
  ["image/jpeg"; "image/jpg"; "image/png"; "image/gif"; "image/webp"].

(** [Array.prototype.includes] on an array of strings. *)
Definition includes (l : list string) (x : string) : bool :=
  existsb (String.eqb x) l.

(** [validateUploadedFile(file)]; [None] is a missing file. *)
Definition validateUploadedFile (file : option File) : outcome bool :=
  match file with
  | None => Thrown (Error "No file uploaded")
  | Some f =>
      if (size f >? maxSize)%Z then
        Thrown (Error "File size too large. Maximum size is 10MB")
      else if negb (includes allowedTypes (mimetype f)) then
        Thrown (Error "Invalid file type. Only JPEG, PNG, GIF, and WebP images are allowed")
      else Returned true
  end.

(** *** middlewares/upload.middleware.js *)

Definition fileFilter_allowedTypes : list string :=
  ["image/jpeg"; "image/jpg"; "image/png"; "image/gif"; "image/webp"; "image/bmp"].

(** [fileFilter(req, file, cb)]: [Returned true] is [cb(null, true)],
    [Thrown e] is [cb(e, false)]. *)
Definition fileFilter (file : File) : outcome bool :=
  if includes fileFilter_allowedTypes (mimetype file) then Returned true
  else Thrown (Error ("Invalid file type: " ++ mimetype file
                      ++ ". Only JPEG, PNG, GIF, WebP, and BMP images are allowed.")).

(** *** controllers/upload.controller.js *)

Definition uploadImages (req : UploadRequest) : Async (Reply UploadData) :=
  try_catch
    (let files :=
       match req_files req with
       | Some fs => fs
       | None => match req_file req with Some f => [f] | None => [] end
       end in
     match files with
     | [] =>
         ret (Json 400 false "No files uploaded. Please upload at least one image."
                   (Some "NO_FILES") None)
     | _ =>
         console_log [LStr ("Received " ++ string_of_nat (List.length files)
                            ++ " file(s) for processing")] ;;
         for_of files (fun file =>
           _ <- lift_outcome (validateUploadedFile (Some file)) ;; ret tt) ;;
         match files with
         | [file0] =>
             result <- processUploadedImage (path file0) (originalname file0) ;;
             ret (Json 200 true "Image uploaded and processed successfully" None
                       (Some (SingleData result)))
         | _ =>
             result <- processMultipleImages files ;;
             let statusCode := if (0 <? totalFailed result)%nat then 207%Z else 200%Z in
             ret (Json statusCode true
                       ("Batch upload completed: "
                        ++ string_of_nat (totalProcessed result) ++ " successful, "
                        ++ string_of_nat (totalFailed result) ++ " failed")
                       None (Some (BatchData result)))
         end
     end)
    (fun error =>
       console_error [LStr "Error in uploadImages controller:"; LErr error] ;;
       ret (Next error)).

(** Destructuring with a default: the default applies to [undefined]. *)
Definition with_default (v d : jsval) : jsval :=
  match v with VUndefined => d | _ => v end.

(** [Math.min(Math.max(parseInt(limit) || 10, 1), 50)] *)
Definition searchLimit (limit : jsval) : number :=
  Math_min (Math_max (js_or (parseInt B limit) (Fin 10)) (Fin 1)) (Fin 50).

(** [Math.min(Math.max(parseFloat(scoreThreshold) || 0.7, 0), 1)] *)
Definition threshold (scoreThreshold : jsval) : number :=
  Math_min (Math_max (js_or (parseFloat B scoreThreshold) (Fin (7 # 10))) (Fin 0))
           (Fin 1).

Definition queryImages (body : QueryBody) : Async (Reply SearchData) :=
  try_catch
    (let query := body_query body in
     let limit := with_default (body_limit body) (VNum (Fin 10)) in
     let scoreThreshold :=
       with_default (body_scoreThreshold body) (VNum (Fin (7 # 10))) in
     match query with
     | VStr q =>
         if (String.eqb q EmptyString || (String.length (String_trim B q) =? 0)%nat)%bool then
           ret (Json 400 false
                     "Query text is required and must be a non-empty string"
                     (Some "INVALID_QUERY") None)
         else
           console_log [LStr ("Searching for images with query: "
                              ++ dquote ++ q ++ dquote)] ;;
           result <- searchImages (String_trim B q)
                                  (Some (searchLimit limit))
                                  (Some (threshold scoreThreshold)) ;;
           ret (Json 200 true
                     ("Found " ++ string_of_nat (sd_totalFound result)
                      ++ " matching images")
                     None (Some result))
     | _ =>
         ret (Json 400 false
                   "Query text is required and must be a non-empty string"
                   (Some "INVALID_QUERY") None)
     end)
    (fun error =>
       console_error [LStr "Error in queryImages controller:"; LErr error] ;;
       ret (Next error)).
End Backend.

(* ================================================================== *)
(** ** The frontend query service *)
(* ================================================================== *)

(** Console lines are recorded by their parts, without their pictographs. *)
Module QueryService.

Record ImageMetadata : Type := {
  im_id : string;
  im_filename : string;
  im_description : string;
  im_timestamp : string;
  im_score : option number
}.

Record QueryData : Type := {
  qd_query : jsstring;
  qd_results : list ImageMetadata;
  qd_totalFound : number
}.

Record QueryResponse : Type := {
  qr_success : bool;
  qr_message : string;
  qr_data : option QueryData
}.

Record QueryOptions : Type := {
  opt_limit : option number;
  opt_scoreThreshold : option number
}.

(** The JSON body posted to [/api/query]. *)
Record PostBody : Type := {
  post_query : jsstring;
  post_limit : number;
  post_scoreThreshold : number
}.

(** A rejected axios request: [error.message], and [error.response] when
    the server answered, with its [data?.message]. *)
Record AxiosError : Type := {
  ae_message : string;
  ae_response : option (option string)
}.

(** [QueryResponse & { suggestions?: string[] }] *)
Record SuggestedResponse : Type := {
  response : QueryResponse;
  suggestions : option (list jsstring)
}.

(** What the service uses from its environment: the configured base URL,
    axios, and the string methods of the runtime. *)
Record Env (World : Type) : Type := {
  BASE_URL : string;
  axios_post : string -> PostBody -> World -> (AxiosError + QueryResponse) * World;
  toLowerCase : jsstring -> jsstring;
  trim : jsstring -> jsstring
}.

Definition jsstring_eq_dec : forall a b : jsstring, {a = b} + {a <> b} :=
  list_eq_dec N.eq_dec.

(** [s.split(sep)] for a one-unit separator. *)
Fixpoint split (sep : N) (s : jsstring) : list jsstring :=
  match s with
  | [] => [[]]
  | c :: rest =>
      if N.eqb c sep then [] :: split sep rest
      else match split sep rest with
           | w :: ws => (c :: w) :: ws
           | [] => [[c]]
           end
  end.

(** [arr.push(x)] *)
Definition push {A} (arr : list A) (x : A) : list A := (arr ++ [x])%list.

(** [set.add(x)] on a [Set] kept in insertion order. *)
Definition Set_add (set : list jsstring) (x : jsstring) : list jsstring :=
  if in_dec jsstring_eq_dec x set then set else push set x.

(** [[...new Set(arr)]] *)
Definition new_Set (arr : list jsstring) : list jsstring :=
  fold_left Set_add arr [].

(** [arr.slice(0, n)] *)
Definition slice0 {A} (n : nat) (arr : list A) : list A := firstn n arr.

(** [x === 0] on a number *)
Definition is_zero (n : number) : bool :=
  match n with Fin q => Qeq_bool q 0 | _ => false end.

(** [s || d] on strings: the empty string is falsy. *)
Definition str_or (s d : string) : string :=
  if String.eqb s EmptyString then d else s.

Section Service.
Context {World : Type}.
Variable E : Env World.

Definition generateSearchSuggestions (originalQuery : jsstring) : list jsstring :=
  let suggestions : list jsstring := [] in
  let words := split 32 (toLowerCase E originalQuery) in
  let suggestions := push suggestions (lit "landscape") in
  let suggestions := push suggestions (lit "people") in
  let suggestions := push suggestions (lit "nature") in
  let suggestions := push suggestions (lit "city") in
  let suggestions := push suggestions (lit "sunset") in
  let suggestions := push suggestions (lit "ocean") in
  let suggestions :=
    fold_left (fun suggestions word =>
                 if (3 <? List.length word)%nat then push suggestions word
                 else suggestions)
              words suggestions in
  slice0 5 (new_Set suggestions).

Definition post (url : string) (body : PostBody)
  : M World (AxiosError + QueryResponse) :=
  fun w =>
    let '(r, w') := axios_post E url body w in
    {| result := Returned r; final := w'; emitted := [Call (axios_post_call url)] |}.

(** In the [try] block only the request can throw: the [catch] block is
    the branch of a rejected request. *)
Definition searchImages (query : jsstring) (options : QueryOptions)
  : M World QueryResponse :=
  let limit := match opt_limit options with Some l => l | None => Fin 20 end in
  let scoreThreshold :=
    match opt_scoreThreshold options with Some t => t | None => Fin (7 # 10) end in
  console_log [LStr "Searching for:"; LJs query] ;;
  r <- post (BASE_URL E ++ "/api/query")
            {| post_query := trim E query;
               post_limit := limit;
               post_scoreThreshold := scoreThreshold |} ;;
  match r with
  | inr data =>
      console_log [LStr "Search completed: found";
                   LNum (match qr_data data with
                         | Some d => js_or (qd_totalFound d) (Fin 0)
                         | None => Fin 0
                         end);
                   LStr "results"] ;;
      ret data
  | inl error =>
      console_error [LStr "Search failed for query"; LJs query;
                     LStr (ae_message error)] ;;
      match ae_response error with
      | Some data_message =>
          ret {| qr_success := false;
                 qr_message :=
                   str_or (match data_message with Some m => m | None => EmptyString end)
                          "Search failed";
                 qr_data := None |}
      | None =>
          ret {| qr_success := false;
                 qr_message := str_or (ae_message error) "Network error during search";
                 qr_data := None |}
      end
  end.

Definition searchWithSuggestions (query : jsstring) (options : QueryOptions)
  : M World SuggestedResponse :=
  result <- searchImages query options ;;
  if (qr_success result
      && match qr_data result with
         | Some d => is_zero (qd_totalFound d)
         | None => false
         end)%bool
  then
    let suggestions := generateSearchSuggestions query in
    ret {| response := result; suggestions := Some suggestions |}
  else ret {| response := result; suggestions := None |}.
End Service.
End QueryService.

(* ================================================================== *)
(** ** The vector store's query, and the contract delegated to it *)
(* ================================================================== *)

(** The contract [searchImages] delegates to the store: the hits are ranked
    by non-increasing score, none scores below the threshold, and there are
    at most [limit] of them. *)
Definition desc (a b : SearchHit) : Prop := (score b <= score a)%Q.

Definition ranked (results : list SearchHit) : Prop :=
  StronglySorted desc results.

Definition above_threshold (scoreThreshold : number) (results : list SearchHit) : Prop :=
  Forall (fun h => num_lt (Fin (score h)) scoreThreshold = false) results.

Definition at_most (limit : number) (results : list SearchHit) : Prop :=
  num_le (Fin (inject_Z (Z.of_nat (List.length results)))) limit = true.

Definition honors_contract (limit scoreThreshold : number)
           (results : list SearchHit) : Prop :=
  ranked results /\ above_threshold scoreThreshold results /\ at_most limit results.

(** A point of the collection: its id and the stored payload. *)
Record StoredPoint : Type := {
  pt_id : string;
  pt_payload : ProcessedData
}.

Section VectorStore.
Variable similarity : Vector -> Vector -> Q.

Definition hit_of (queryEmbedding : Vector) (p : StoredPoint) : SearchHit :=
  {| hit_id := pt_id p;
     hit_filename := pd_filename (pt_payload p);
     hit_description := pd_description (pt_payload p);
     hit_timestamp := pd_timestamp (pt_payload p);
     score := similarity queryEmbedding (pd_embedding (pt_payload p)) |}.

Fixpoint rank_insert (h : SearchHit) (l : list SearchHit) : list SearchHit :=
  match l with
  | [] => [h]
  | x :: rest =>
      if Qle_bool (score x) (score h) then h :: x :: rest
      else x :: rank_insert h rest
  end.

Definition rank (l : list SearchHit) : list SearchHit :=
  fold_right rank_insert [] l.

Definition up_to (limit : number) (l : list SearchHit) : list SearchHit :=
  match limit with
  | Fin q => firstn (Z.to_nat (Qfloor q)) l
  | PosInf => l
  | NegInf | NaN => []
  end.

(** Modelled from the spec: [searchSimilarImages] of [db/qdrant.js], the
    Qdrant client, is not among the sources. The specification words the
    store's query as: return up to [limit] records whose similarity to the
    query vector is [>= scoreThreshold], ranked descending by similarity. *)
Definition store_query (points : list StoredPoint) (queryEmbedding : Vector)
           (limit scoreThreshold : number) : list SearchHit :=
  up_to limit
        (rank (filter (fun h => num_le scoreThreshold (Fin (score h)))
                      (map (hit_of queryEmbedding) points))).
End VectorStore.

(* ================================================================== *)
(** ** A sample world *)
(* ================================================================== *)

(** A small concrete world on which the definitions run: the temporary
    files on disk, the collection, a clock, and whether the store and the
    OpenAI configuration are up. *)
Record SampleWorld : Type := {
  disk : list string;
  collection : list StoredPoint;
  clock : nat;
  store_up : bool;
  api_key_ok : bool
}.

Definition dot (u v : Vector) : Q :=
  fold_right Qplus 0%Q (map (fun p => (fst p * snd p)%Q) (combine u v)).

Definition store_unreachable : JsError :=
  Error "Qdrant connection failed: connect ECONNREFUSED 127.0.0.1:6333".

Definition invalid_api_key : JsError :=
  Error "Azure OpenAI configuration incomplete. Missing or invalid: OPENAI_API_KEY. Please configure these in your .env file.".

Definition unreadable_image : JsError :=
  Error "ENOENT: no such file or directory".

Definition set_disk (w : SampleWorld) (d : list string) : SampleWorld :=
  {| disk := d; collection := collection w; clock := clock w;
     store_up := store_up w; api_key_ok := api_key_ok w |}.

Definition sample_collaborators : Collaborators SampleWorld :=
  {| openai_validateApiKey w :=
       if api_key_ok w then (Returned tt, w) else (Thrown invalid_api_key, w);
     openai_generateImageDescription imagePath w :=
       if existsb (String.eqb imagePath) (disk w)
       then (Returned ("A photo stored at " ++ imagePath), w)
       else (Thrown unreadable_image, w);
     openai_generateTextEmbedding text w :=
       (Returned [inject_Z (Z.of_nat (String.length text)); 1%Q], w);
     Date_toISOString w :=
       ("T" ++ string_of_nat (clock w),
        {| disk := disk w; collection := collection w; clock := S (clock w);
           store_up := store_up w; api_key_ok := api_key_ok w |});
     qdrant_initializeCollection w :=
       if store_up w then (Returned tt, w) else (Thrown store_unreachable, w);
     qdrant_storeImageEmbedding data w :=
       if store_up w then
         let id := "point-" ++ string_of_nat (List.length (collection w)) in
         (Returned id,
          {| disk := disk w;
             collection := (collection w ++ [{| pt_id := id; pt_payload := data |}])%list;
             clock := clock w; store_up := store_up w; api_key_ok := api_key_ok w |})
       else (Thrown store_unreachable, w);
     qdrant_searchSimilarImages queryEmbedding limit scoreThreshold w :=
       if store_up w then
         (Returned (store_query dot (collection w) queryEmbedding limit scoreThreshold), w)
       else (Thrown store_unreachable, w);
     fs_pathExists filePath w :=
       (Returned (existsb (String.eqb filePath) (disk w)), w);
     fs_unlink filePath w :=
       (Returned tt,
        set_disk w (filter (fun p => negb (String.eqb filePath p)) (disk w))) |}.

(** Sample library functions. [sample_parseInt] and [sample_parseFloat]
    are defined on numbers only: an integer-valued number is its own
    [parseInt], a finite number its own [parseFloat]; on every other
    argument they answer [NaN]. *)
Definition sample_parseInt (v : jsval) : number :=
  match v with
  | VNum (Fin q) => if Qeq_bool (inject_Z (Qfloor q)) q then Fin q else NaN
  | _ => NaN
  end.

Definition sample_parseFloat (v : jsval) : number :=
  match v with
  | VNum (Fin q) => Fin q
  | _ => NaN
  end.

Definition sample_builtins : Builtins :=
  {| parseInt := sample_parseInt;
     parseFloat := sample_parseFloat;
     String_trim s := s;
     path_basename s := s |}.

Definition sample_file (name : string) : File :=
  {| path := "uploads/" ++ name;
     originalname := name;
     mimetype := "image/png";
     size := 2048 |}.

Definition sample_state (files : list string) (up key : bool) : St SampleWorld :=
  {| world := {| disk := map (fun n => "uploads/" ++ n) files;
                 collection := [];
                 clock := 0;
                 store_up := up;
                 api_key_ok := key |};
     isInitialized := false |}.

(** A BMP upload of one kilobyte, as multer hands it over. *)
Definition bmp_upload : File :=
  {| path := "uploads/images-1730000000000-123456789.bmp";
     originalname := "holiday.bmp";
     mimetype := "image/bmp";
     size := 1024 |}.

(** A collection of two images scoring 0.92 and 0.5 against the query. *)
Definition scenario_state : St SampleWorld :=
  {| world :=
       {| disk := [];
          collection :=
            [{| pt_id := "point-0";
                pt_payload := {| pd_description := "Sunset over snowy mountains";
                                 pd_embedding := [4 # 100; 8 # 100];
                                 pd_filename := "alps.jpg";
                                 pd_timestamp := "T0" |} |};
             {| pt_id := "point-1";
                pt_payload := {| pd_description := "A cat on a sofa";
                                 pd_embedding := [2 # 100; 8 # 100];
                                 pd_filename := "cat.jpg";
                                 pd_timestamp := "T1" |} |}];
          clock := 2;
          store_up := true;
          api_key_ok := true |};
     isInitialized := true |}.

(* ================================================================== *)
(** ** The batch as a fold, and the suggestions as a formula *)
(* ================================================================== *)

(** The item built from what [processAndStore] returns. *)
Definition item_of (originalFilename : string) (stored : string * ProcessedData)
  : ItemResult :=
  {| success := true;
     pointId := fst stored;
     filename := originalFilename;
     description := pd_description (snd stored);
     timestamp := pd_timestamp (snd stored) |}.

(** The failure entry and the console line of a file whose processing threw. *)
Definition failure_of (file : File) (e : JsError) : FailedItem :=
  {| failed_filename := originalname file; failed_error := message e |}.

Definition failure_line (file : File) (e : JsError) : event :=
  Console_error [LStr ("Failed to process " ++ originalname file ++ ":");
                 LStr (message e)].

(** The console lines that open and close a batch. *)
Definition batch_header (n : nat) : event :=
  Console_log [LStr ("Processing batch of " ++ string_of_nat n ++ " images")].

Definition batch_footer (ok ko : nat) : event :=
  Console_log [LStr ("Batch processing complete: " ++ string_of_nat ok
                     ++ " successful, " ++ string_of_nat ko ++ " failed")].

(** The accumulator of the fold: the pair of success and failure lists,
    together with the state reached and the events issued so far. *)
Record Acc (World : Type) : Type := {
  acc_results : list ItemResult;
  acc_errors : list FailedItem;
  acc_state : St World;
  acc_events : list event
}.

Section IngestFold.
Context {World : Type}.
Variable B : Builtins.
Variable C : Collaborators World.

(** One step of the fold: run the per-file sequence to its end from the
    state the previous files left, then file the outcome under successes
    or failures. *)
Definition ingest_step (a : Acc World) (file : File) : Acc World :=
  let r := processUploadedImage B C (path file) (originalname file) (acc_state a) in
  match result r with
  | Returned item =>
      {| acc_results := acc_results a ++ [item];
         acc_errors := acc_errors a;
         acc_state := final r;
         acc_events := acc_events a ++ emitted r |}
  | Thrown e =>
      {| acc_results := acc_results a;
         acc_errors := acc_errors a ++ [failure_of file e];
         acc_state := final r;
         acc_events := acc_events a ++ emitted r ++ [failure_line file e] |}
  end%list.

(** The specification's reading of the batch: a left fold over the input
    sequence accumulating a pair of success and failure lists. *)
Definition ingest_fold (files : list File) (s : St World) : Acc World :=
  fold_left ingest_step files
            {| acc_results := []; acc_errors := []; acc_state := s; acc_events := [] |}.
End IngestFold.

(** The batch result read off the accumulator. *)
Definition batch_of {World} (a : Acc World) : BatchResult :=
  {| successful := acc_results a;
     failed := acc_errors a;
     totalProcessed := List.length (acc_results a);
     totalFailed := List.length (acc_errors a) |}.

(** Events by which the clean-up of [filePath] shows in a run. *)
Definition is_pathExists (filePath : string) (ev : event) : bool :=
  match ev with
  | Call (pathExists_call p) => String.eqb filePath p
  | _ => false
  end.

Definition is_unlink (filePath : string) (ev : event) : bool :=
  match ev with
  | Call (unlink_call p) => String.eqb filePath p
  | _ => false
  end.

Definition is_fs_call (ev : event) : bool :=
  match ev with
  | Call (pathExists_call _) | Call (unlink_call _) => true
  | _ => false
  end.

Definition not_fs (ev : event) : Prop := is_fs_call ev = false.

Definition is_call (ev : event) : bool :=
  match ev with Call _ => true | _ => false end.

Definition count (p : event -> bool) (evs : list event) : nat :=
  List.length (filter p evs).

(** The same collaborators with another file system. *)
Definition with_fs {World} (C : Collaborators World)
           (pathExists : string -> World -> outcome bool * World)
           (unlink : string -> World -> outcome unit * World)
  : Collaborators World :=
  {| openai_validateApiKey := openai_validateApiKey C;
     openai_generateImageDescription := openai_generateImageDescription C;
     openai_generateTextEmbedding := openai_generateTextEmbedding C;
     Date_toISOString := Date_toISOString C;
     qdrant_initializeCollection := qdrant_initializeCollection C;
     qdrant_storeImageEmbedding := qdrant_storeImageEmbedding C;
     qdrant_searchSimilarImages := qdrant_searchSimilarImages C;
     fs_pathExists := pathExists;
     fs_unlink := unlink |}.

(** A file system whose every operation fails. *)
Definition broken_fs_error : JsError := Error "EPERM: operation not permitted".

Definition broken_pathExists {World} (p : string) (w : World) : outcome bool * World :=
  (Thrown broken_fs_error, w).

Definition broken_unlink {World} (p : string) (w : World) : outcome unit * World :=
  (Thrown broken_fs_error, w).

Module SuggestionSpec.
Import QueryService.

(** The fixed set of broad category terms. *)
Definition broad_terms : list jsstring :=
  [lit "landscape"; lit "people"; lit "nature"; lit "city"; lit "sunset"; lit "ocean"].

(** Deduplication keeping the first occurrence of each entry. *)
Fixpoint keep_first (seen l : list jsstring) : list jsstring :=
  match l with
  | [] => []
  | x :: rest =>
      if in_dec jsstring_eq_dec x seen then keep_first seen rest
      else x :: keep_first (x :: seen) rest
  end.

(** The specification's formula: the broad terms, then every word of the
    lower-cased query longer than 3 characters, deduplicated and cut to
    5 entries. *)
Definition suggestions_formula (lower : jsstring -> jsstring) (query : jsstring)
  : list jsstring :=
  firstn 5
    (keep_first []
       (broad_terms
        ++ filter (fun word => (3 <? List.length word)%nat) (split 32 (lower query)))).

(** The test of [searchWithSuggestions]. *)
Definition attaches (r : QueryResponse) : bool :=
  qr_success r
  && match qr_data r with
     | Some d => is_zero (qd_totalFound d)
     | None => false
     end.

Definition sample_env : Env unit :=
  {| BASE_URL := "http://localhost:3000";
     axios_post _ body w :=
       (inr {| qr_success := true;
               qr_message := "Found 0 matching images";
               qr_data := Some {| qd_query := post_query body;
                                  qd_results := [];
                                  qd_totalFound := Fin 0 |} |}, w);
     toLowerCase s := s;
     trim s := s |}.
End SuggestionSpec.

(* ================================================================== *)
(** ** Further parts of the backend *)
(* ================================================================== *)

(** [haystack.includes(needle)] on strings. *)
Fixpoint str_includes (needle haystack : string) : bool :=
  (String.prefix needle haystack
   || match haystack with
      | EmptyString => false
      | String _ rest => str_includes needle rest
      end)%bool.

(** [ToBoolean] on a string: the empty string is falsy. *)
Definition str_truthy (s : string) : bool := negb (String.eqb s EmptyString).

(** [arr.join(sep)] on an array of strings. *)
Definition join (sep : string) (arr : list string) : string := String.concat sep arr.

(** *** app.js *)

Section Startup.
Context {World : Type}.
Variable C : Collaborators World.

(** [initializeServices]: the start-up initialisation, whose failure is
    logged and not raised. *)
Definition initializeServices : M (St World) unit :=
  try_catch
    (console_log [LStr "Initializing application services..."] ;;
     initialize C ;;
     console_log [LStr "All services initialized successfully"])
    (fun error =>
       console_error [LStr "Failed to initialize services:"; LStr (message error)] ;;
       console_error [LStr "Please check your configuration:"] ;;
       console_error [LStr "1. Qdrant is running on localhost:6333"] ;;
       console_error [LStr "2. OpenAI API key is set in .env file"] ;;
       console_error [LStr "3. All required dependencies are installed"]).
End Startup.

(** *** middlewares/error.middleware.js *)

(** The JSON body [errorHandler] answers with. *)
Record ErrorBody : Type := {
  eb_success : bool;
  eb_message : string;
  eb_code : string;
  eb_timestamp : string;
  eb_path : string;
  eb_method : string
}.

(** The assignments of [errorHandler] to [error.message] and [error.code],
    in their order; [msg] is [err.message]. *)
Definition error_code_and_message (msg : string) : string * string :=
  let message := "Internal server error" in
  let code := "INTERNAL_ERROR" in
  let message := if str_truthy msg then msg else message in
  let '(code, message) :=
    if (str_truthy msg && str_includes "OpenAI" msg)%bool
    then ("OPENAI_ERROR", msg) else (code, message) in
  let '(code, message) :=
    if (str_truthy msg && str_includes "Qdrant" msg)%bool
    then ("DATABASE_ERROR",
          "Database connection error. Please ensure Qdrant is running.")
    else (code, message) in
  let '(code, message) :=
    if (str_truthy msg && (str_includes "file" msg || str_includes "upload" msg))%bool
    then ("FILE_ERROR", msg) else (code, message) in
  let '(code, message) :=
    if (str_truthy msg && str_includes "API key" msg)%bool
    then ("CONFIG_ERROR", msg) else (code, message) in
  (code, message).

(** The status code [errorHandler] derives from [error.code]. *)
Definition error_statusCode (code : string) : Z :=
  if (String.eqb code "FILE_ERROR" || String.eqb code "CONFIG_ERROR")%bool then 400
  else if String.eqb code "OPENAI_ERROR" then 502
  else if String.eqb code "DATABASE_ERROR" then 503
  else 500.

Section ErrorMiddleware.
Context {World : Type}.
Variable C : Collaborators World.

(** [errorHandler(err, req, res, next)]: the status code and the body of
    [res.status(statusCode).json(error)]. *)
Definition errorHandler (err : JsError) (req_path req_method : string)
  : M (St World) (Z * ErrorBody) :=
  console_error [LStr "Error occurred:"; LErr err] ;;
  timestamp <- toISOString C ;;
  let '(code, message) := error_code_and_message (message err) in
  let statusCode := error_statusCode code in
  ret (statusCode,
       {| eb_success := false;
          eb_message := message;
          eb_code := code;
          eb_timestamp := timestamp;
          eb_path := req_path;
          eb_method := req_method |}).
End ErrorMiddleware.

(** *** middlewares/upload.middleware.js *)

(** The error multer hands to its callback: a [MulterError] with its code,
    or any other error (such as the one [fileFilter] produces). *)
Inductive UploadError : Type :=
| MulterError (code : string) (msg : string)
| OtherError (msg : string).

(** What a middleware does: it answers, or calls [next()]. *)
Inductive MiddlewareStep : Type :=
| Answered (statusCode : Z) (error : string) (code : string)
| CalledNext.

(** [handleUploadError(error, req, res, next)]; [None] is no error. *)
Definition handleUploadError (error : option UploadError) : MiddlewareStep :=
  match error with
  | Some (MulterError code msg) =>
      if String.eqb code "LIMIT_FILE_SIZE" then
        Answered 400 "File too large. Maximum size is 10MB per file." "FILE_TOO_LARGE"
      else if String.eqb code "LIMIT_FILE_COUNT" then
        Answered 400 "Too many files. Maximum 10 files per upload." "TOO_MANY_FILES"
      else if String.eqb code "LIMIT_UNEXPECTED_FILE" then
        Answered 400
                 ("Unexpected file field. Use " ++ dquote ++ "image" ++ dquote
                  ++ " for single upload or " ++ dquote ++ "images" ++ dquote
                  ++ " for batch upload.")
                 "UNEXPECTED_FIELD"
      else Answered 400 ("Upload error: " ++ msg) "UPLOAD_ERROR"
  | Some (OtherError msg) => Answered 400 msg "INVALID_FILE"
  | None => CalledNext
  end.

(** [adaptiveUpload(req, res, next)]: [contentType] is the request's
    [content-type] header, [uploadMultiple] the multer middleware, which
    reports its error, if any, to the callback. *)
Definition adaptiveUpload (contentType : option string)
           (uploadMultiple : unit -> option UploadError) : MiddlewareStep :=
  match contentType with
  | Some ct =>
      if (str_truthy ct && str_includes "multipart/form-data" ct)%bool
      then handleUploadError (uploadMultiple tt)
      else Answered 400 "Content-Type must be multipart/form-data for file uploads."
                    "INVALID_CONTENT_TYPE"
  | None =>
      Answered 400 "Content-Type must be multipart/form-data for file uploads."
               "INVALID_CONTENT_TYPE"
  end.

(** *** services/openai.service.js *)

Module OpenAIService.

(** [error.status === n] *)
Definition has_status (e : JsError) (n : Z) : bool :=
  match status e with
  | Some k => Z.eqb k n
  | None => false
  end.

(** The [catch] block of [generateImageDescription], after its console
    line: the error it throws for the caught [error]. *)
Definition description_error (error : JsError) : JsError :=
  if has_status error 401 then
    Error "Invalid Azure OpenAI API key or configuration. Please check your credentials in .env file"
  else if has_status error 429 then
    Error "Azure OpenAI API rate limit exceeded. Please try again later"
  else if has_status error 400 then
    Error "Invalid image format or request. Please check the image file and deployment configuration"
  else if has_status error 404 then
    Error "Azure OpenAI deployment not found. Please check OPENAI_DEPLOYMENT_NAME in .env file"
  else error.

(** The [catch] block of [generateTextEmbedding]. *)
Definition embedding_error (error : JsError) : JsError :=
  if has_status error 401 then
    Error "Invalid Azure OpenAI API key or configuration. Please check your credentials in .env file"
  else if has_status error 429 then
    Error "Azure OpenAI API rate limit exceeded. Please try again later"
  else if has_status error 404 then
    Error "Azure OpenAI embedding deployment not found. Please check OPENAI_EMBEDDING_DEPLOYMENT in .env file"
  else error.

Definition requiredEnvVars : list string :=
  ["OPENAI_API_KEY"; "OPENAI_BASE_URL"; "OPENAI_API_VERSION"; "OPENAI_DEPLOYMENT_NAME"].

(** [!process.env[varName] || process.env[varName] === 'your_openai_api_key'] *)
Definition missing_or_placeholder (process_env : string -> option string)
           (varName : string) : bool :=
  match process_env varName with
  | None => true
  | Some v => (negb (str_truthy v) || String.eqb v "your_openai_api_key")%bool
  end.

Section Service.
Context {S : Type}.

(** The requests behind the two methods: the statements of their [try]
    blocks. *)
Variable vision_request : string -> M S string.
Variable embedding_request : string -> M S Vector.
Variable process_env : string -> option string.

Definition generateImageDescription (imagePath : string) : M S string :=
  try_catch
    (vision_request imagePath)
    (fun error =>
       console_error [LStr "Error generating image description with Azure OpenAI:";
                      LErr error] ;;
       throw (description_error error)).

Definition generateTextEmbedding (text : string) : M S Vector :=
  try_catch
    (embedding_request text)
    (fun error =>
       console_error [LStr "Error generating text embedding with Azure OpenAI:";
                      LErr error] ;;
       throw (embedding_error error)).

Definition validateApiKey : M S unit :=
  let missingVars := filter (missing_or_placeholder process_env) requiredEnvVars in
  if (0 <? List.length missingVars)%nat then
    throw (Error ("Azure OpenAI configuration incomplete. Missing or invalid: "
                  ++ join ", " missingVars
                  ++ ". Please configure these in your .env file."))
  else console_log [LStr "Azure OpenAI configuration validated"].
End Service.
End OpenAIService.

(* ================================================================== *)
(** ** Further parts of the frontend *)
(* ================================================================== *)

(** [try { body } finally { cleanup }]: the clean-up runs on both exits and
    the body's completion stands unless the clean-up throws. *)
Definition try_finally {S A} (body : M S A) (cleanup : M S unit) : M S A :=
  fun s =>
    let r := body s in
    let r' := cleanup (final r) in
    {| result := match result r' with
                 | Returned _ => result r
                 | Thrown e => Thrown e
                 end;
       final := final r';
       emitted := (emitted r ++ emitted r')%list |}.

Module QueryValidation.
Import QueryService.

(** The object [validateQuery] returns. *)
Record Validity : Type := {
  valid : bool;
  validity_message : option string
}.

Section WithEnv.
Context {World : Type}.
Variable E : Env World.

(** [validateQuery(query)] *)
Definition validateQuery (query : jsstring) : Validity :=
  if (match query with [] => true | _ => false end
      || (List.length (trim E query) =? 0)%nat)%bool then
    {| valid := false; validity_message := Some "Search query cannot be empty" |}
  else if (List.length (trim E query) <? 2)%nat then
    {| valid := false;
       validity_message := Some "Search query must be at least 2 characters long" |}
  else if (500 <? List.length query)%nat then
    {| valid := false;
       validity_message := Some "Search query is too long (maximum 500 characters)" |}
  else {| valid := true; validity_message := None |}.

(** [getAllImages(limit = 50)] *)
Definition getAllImages (limit_arg : option number) : M World QueryResponse :=
  let limit := match limit_arg with Some l => l | None => Fin 50 end in
  try_catch
    (console_log [LStr "Fetching all images (limit:"; LNum limit] ;;
     searchImages E (lit "image photo picture")
                  {| opt_limit := Some limit;
                     opt_scoreThreshold := Some (Fin (1 # 10)) |})
    (fun error =>
       console_error [LStr "Failed to fetch all images:"; LStr (message error)] ;;
       ret {| qr_success := false;
              qr_message := str_or (message error) "Failed to fetch images";
              qr_data := None |}).
End WithEnv.
End QueryValidation.

(** *** context/GalleryContext.tsx *)

Module GalleryContext.
Import QueryService.

Record CachedImage : Type := {
  ci_id : string;
  ci_url : string;
  ci_thumbnailUrl : string;
  ci_filename : string;
  ci_description : string;
  ci_cached : bool;
  ci_timestamp : string
}.

Record Progress : Type := {
  current : number;
  total : number;
  percentage : number
}.

(** A template string, kept as its parts. *)
Inductive text_part : Type :=
| TStr (s : string)
| TJs (s : jsstring).

Definition text : Type := list text_part.

Record GalleryState : Type := {
  images : list ImageMetadata;
  cachedImages : list CachedImage;
  searchResults : list ImageMetadata;
  searchQuery : jsstring;
  isLoading : bool;
  isUploading : bool;
  isBootstrapComplete : bool;
  uploadProgress : Progress;
  error : option text
}.

(** An action: its type with its payload. *)
Inductive GalleryAction : Type :=
| SET_IMAGES (payload : list ImageMetadata)
| ADD_IMAGES (payload : list ImageMetadata)
| SET_CACHED_IMAGES (payload : list CachedImage)
| SET_LOADING (payload : bool)
| SET_UPLOADING (payload : bool)
| SET_SEARCH_RESULTS (payload : list ImageMetadata)
| SET_SEARCH_QUERY (payload : jsstring)
| SET_ERROR (payload : option text)
| CLEAR_ERROR
| SET_BOOTSTRAP_COMPLETE (payload : bool)
| SET_CACHE_PROGRESS (payload : Progress)
| SET_UPLOAD_PROGRESS (payload : Progress)
| CLEAR_SEARCH.

Definition initialState : GalleryState :=
  {| images := [];
     cachedImages := [];
     searchResults := [];
     searchQuery := [];
     isLoading := false;
     isUploading := false;
     isBootstrapComplete := false;
     uploadProgress := {| current := Fin 0; total := Fin 0; percentage := Fin 0 |};
     error := None |}.

Definition galleryReducer (state : GalleryState) (action : GalleryAction)
  : GalleryState :=
  match action with
  | SET_IMAGES payload =>
      {| images := payload;
         cachedImages := cachedImages state;
         searchResults := searchResults state;
         searchQuery := searchQuery state;
         isLoading := isLoading state;
         isUploading := isUploading state;
         isBootstrapComplete := isBootstrapComplete state;
         uploadProgress := uploadProgress state;
         error := None |}
  | ADD_IMAGES payload =>
      {| images := (images state ++ payload)%list;
         cachedImages := cachedImages state;
         searchResults := searchResults state;
         searchQuery := searchQuery state;
         isLoading := isLoading state;
         isUploading := isUploading state;
         isBootstrapComplete := isBootstrapComplete state;
         uploadProgress := uploadProgress state;
         error := None |}
  | SET_CACHED_IMAGES payload =>
      {| images := images state;
         cachedImages := payload;
         searchResults := searchResults state;
         searchQuery := searchQuery state;
         isLoading := isLoading state;
         isUploading := isUploading state;
         isBootstrapComplete := isBootstrapComplete state;
         uploadProgress := uploadProgress state;
         error := None |}
  | SET_LOADING payload =>
      {| images := images state;
         cachedImages := cachedImages state;
         searchResults := searchResults state;
         searchQuery := searchQuery state;
         isLoading := payload;
         isUploading := isUploading state;
         isBootstrapComplete := isBootstrapComplete state;
         uploadProgress := uploadProgress state;
         error := error state |}
  | SET_UPLOADING payload =>
      {| images := images state;
         cachedImages := cachedImages state;
         searchResults := searchResults state;
         searchQuery := searchQuery state;
         isLoading := isLoading state;
         isUploading := payload;
         isBootstrapComplete := isBootstrapComplete state;
         uploadProgress := uploadProgress state;
         error := error state |}
  | SET_SEARCH_RESULTS payload =>
      {| images := images state;
         cachedImages := cachedImages state;
         searchResults := payload;
         searchQuery := searchQuery state;
         isLoading := isLoading state;
         isUploading := isUploading state;
         isBootstrapComplete := isBootstrapComplete state;
         uploadProgress := uploadProgress state;
         error := None |}
  | SET_SEARCH_QUERY payload =>
      {| images := images state;
         cachedImages := cachedImages state;
         searchResults := searchResults state;
         searchQuery := payload;
         isLoading := isLoading state;
         isUploading := isUploading state;
         isBootstrapComplete := isBootstrapComplete state;
         uploadProgress := uploadProgress state;
         error := error state |}
  | SET_ERROR payload =>
      {| images := images state;
         cachedImages := cachedImages state;
         searchResults := searchResults state;
         searchQuery := searchQuery state;
         isLoading := false;
         isUploading := false;
         isBootstrapComplete := isBootstrapComplete state;
         uploadProgress := uploadProgress state;
         error := payload |}
  | CLEAR_ERROR =>
      {| images := images state;
         cachedImages := cachedImages state;
         searchResults := searchResults state;
         searchQuery := searchQuery state;
         isLoading := isLoading state;
         isUploading := isUploading state;
         isBootstrapComplete := isBootstrapComplete state;
         uploadProgress := uploadProgress state;
         error := None |}
  | SET_BOOTSTRAP_COMPLETE payload =>
      {| images := images state;
         cachedImages := cachedImages state;
         searchResults := searchResults state;
         searchQuery := searchQuery state;
         isLoading := isLoading state;
         isUploading := isUploading state;
         isBootstrapComplete := payload;
         uploadProgress := uploadProgress state;
         error := error state |}
  | SET_UPLOAD_PROGRESS payload
  | SET_CACHE_PROGRESS payload =>
      {| images := images state;
         cachedImages := cachedImages state;
         searchResults := searchResults state;
         searchQuery := searchQuery state;
         isLoading := isLoading state;
         isUploading := isUploading state;
         isBootstrapComplete := isBootstrapComplete state;
         uploadProgress := payload;
         error := error state |}
  | CLEAR_SEARCH =>
      {| images := images state;
         cachedImages := cachedImages state;
         searchResults := [];
         searchQuery := [];
         isLoading := isLoading state;
         isUploading := isUploading state;
         isBootstrapComplete := isBootstrapComplete state;
         uploadProgress := uploadProgress state;
         error := error state |}
  end.

(** The action creators the search hook uses. *)
Definition setLoading (loading : bool) : GalleryAction := SET_LOADING loading.
Definition setSearchResults (results : list ImageMetadata) : GalleryAction :=
  SET_SEARCH_RESULTS results.
Definition setSearchQuery (query : jsstring) : GalleryAction := SET_SEARCH_QUERY query.
Definition setError (err : text) : GalleryAction := SET_ERROR (Some err).
Definition clearSearch : GalleryAction := CLEAR_SEARCH.
End GalleryContext.

(** *** hooks/useGallery.ts: [useImageSearch] *)

Module UseImageSearch.
Import QueryService GalleryContext.

(** What the hook's callback works on: the world of the query service, the
    store of the gallery context and the hook's own [isSearching]. *)
Record HookState (World : Type) : Type := {
  hook_world : World;
  gallery : GalleryState;
  isSearching : bool
}.

Section Hook.
Context {World : Type}.
Variable E : Env World.

(** A method of the query service, run from the hook. *)
Definition service {A} (m : M World A) : M (HookState World) A :=
  fun s =>
    let r := m (hook_world s) in
    {| result := result r;
       final := {| hook_world := final r;
                   gallery := gallery s;
                   isSearching := isSearching s |};
       emitted := emitted r |}.

(** [dispatch(action)]: the store becomes [galleryReducer(state, action)]. *)
Definition dispatch (action : GalleryAction) : M (HookState World) unit :=
  fun s =>
    {| result := Returned tt;
       final := {| hook_world := hook_world s;
                   gallery := galleryReducer (gallery s) action;
                   isSearching := isSearching s |};
       emitted := [] |}.

Definition setIsSearching (b : bool) : M (HookState World) unit :=
  fun s =>
    {| result := Returned tt;
       final := {| hook_world := hook_world s;
                   gallery := gallery s;
                   isSearching := b |};
       emitted := [] |}.

(** The message of the hook for an empty result list. *)
Definition no_images_found (query : jsstring) : text :=
  [TStr "No images found for "; TStr dquote; TJs query; TStr dquote;
   TStr ". Try different keywords."].

(** The callback [searchImages] of [useImageSearch]. *)
Definition searchImages (query : jsstring) : M (HookState World) unit :=
  match trim E query with
  | [] => ret tt
  | _ =>
      try_finally
        (try_catch
           (setIsSearching true ;;
            dispatch (setLoading true) ;;
            dispatch (setSearchQuery query) ;;
            console_log [LStr "Searching for:"; LJs query] ;;
            result <- service (searchWithSuggestions E query
                                 {| opt_limit := Some (Fin 50);
                                    opt_scoreThreshold := Some (Fin (6 # 10)) |}) ;;
            match qr_success (response result), qr_data (response result) with
            | true, Some data =>
                dispatch (setSearchResults (qd_results data)) ;;
                if is_zero (qd_totalFound data)
                then dispatch (setError (no_images_found query))
                else ret tt
            | _, _ =>
                dispatch (setError [TStr (str_or (qr_message (response result))
                                                 "Search failed")])
            end)
           (fun error =>
              console_error [LStr "Search failed:"; LErr error] ;;
              dispatch (setError [TStr (str_or (message error) "Search failed")])))
        (setIsSearching false ;;
         dispatch (setLoading false))
  end.

(** The callback [clearSearch] of [useImageSearch]. *)
Definition clearSearch_callback : M (HookState World) unit :=
  dispatch clearSearch.
End Hook.
End UseImageSearch.

(** *** services/uploadService.ts *)

Module UploadService.
Import QueryService.

Section Service.
Context {World ServerData : Type}.

(** The object [uploadImage] returns. *)
Record UploadResponse : Type := {
  up_success : bool;
  up_message : string;
  up_data : option ServerData
}.

(** An image to upload: [{ uri, filename }]. *)
Record LocalImage : Type := {
  uri : string;
  image_filename : string
}.

(** The result of [uploadMultipleImages]. *)
Record UploadSummary : Type := {
  up_successful : list UploadResponse;
  up_failed : list UploadResponse
}.

(** The configured base URL and the multipart request of axios. The state
    carries, beside the world, the calls the progress callback received. *)
Variable BASE_URL : string.
Variable axios_post_form :
  string -> LocalImage -> World -> (AxiosError + ServerData) * World.

Definition UploadState : Type := (World * list (nat * nat))%type.

Definition post_form (url : string) (image : LocalImage)
  : M UploadState (AxiosError + ServerData) :=
  fun s =>
    let '(r, w) := axios_post_form url image (fst s) in
    {| result := Returned r; final := (w, snd s);
       emitted := [Call (axios_post_call url)] |}.

(** [uploadImage(imageUri, filename)], called without a progress callback. *)
Definition uploadImage (imageUri filename : string) : M UploadState UploadResponse :=
  console_log [LStr ("Uploading image: " ++ filename)] ;;
  r <- post_form (BASE_URL ++ "/upload")
                 {| uri := imageUri; image_filename := filename |} ;;
  match r with
  | inr data =>
      console_log [LStr ("Successfully uploaded: " ++ filename)] ;;
      ret {| up_success := true;
             up_message := "Image uploaded successfully";
             up_data := Some data |}
  | inl error =>
      console_error [LStr ("Failed to upload " ++ filename ++ ":");
                     LStr (ae_message error)] ;;
      ret {| up_success := false;
             up_message :=
               str_or (str_or (match ae_response error with
                               | Some (Some m) => m
                               | _ => EmptyString
                               end)
                              (ae_message error))
                      "Upload failed";
             up_data := None |}
  end.

(** A progress callback that records the calls it receives. *)
Definition record_progress (completed total : nat) : M UploadState unit :=
  fun s =>
    {| result := Returned tt;
       final := (fst s, (snd s ++ [(completed, total)])%list);
       emitted := [] |}.

(** The loop of [uploadMultipleImages] from index [i]; [n] is
    [images.length]. *)
Fixpoint upload_loop (onProgress : option (nat -> nat -> M UploadState unit))
         (n i : nat) (images : list LocalImage)
         (acc : list UploadResponse * list UploadResponse)
  : M UploadState (list UploadResponse * list UploadResponse) :=
  match images with
  | [] => ret acc
  | image :: rest =>
      result <- uploadImage (uri image) (image_filename image) ;;
      let acc' :=
        if up_success result
        then ((fst acc ++ [result])%list, snd acc)
        else (fst acc, (snd acc ++ [result])%list) in
      match onProgress with
      | Some callback => callback (i + 1)%nat n
      | None => ret tt
      end ;;
      upload_loop onProgress n (i + 1)%nat rest acc'
  end.

Definition uploadMultipleImages (images : list LocalImage)
           (onProgress : option (nat -> nat -> M UploadState unit))
  : M UploadState UploadSummary :=
  console_log [LStr ("Starting upload of " ++ string_of_nat (List.length images)
                     ++ " images")] ;;
  acc <- upload_loop onProgress (List.length images) 0 images ([], []) ;;
  console_log [LStr ("Upload completed: " ++ string_of_nat (List.length (fst acc))
                     ++ " successful, " ++ string_of_nat (List.length (snd acc))
                     ++ " failed")] ;;
  ret {| up_successful := fst acc; up_failed := snd acc |}.
End Service.
End UploadService.

(* ================================================================== *)
(** ** Observations on runs of the backend *)
(* ================================================================== *)

(** The two calls of [initialize]. *)
Definition is_init_call (ev : event) : bool :=
  match ev with
  | Call validateApiKey_call | Call initializeCollection_call => true
  | _ => false
  end.

(** The calls to the provider and to the store that process an image. *)
Definition is_processing_call (ev : event) : bool :=
  match ev with
  | Call (generateImageDescription_call _)
  | Call (generateTextEmbedding_call _)
  | Call (storeImageEmbedding_call _) => true
  | _ => false
  end.

Definition is_store_call (ev : event) : bool :=
  match ev with
  | Call (storeImageEmbedding_call _) => true
  | _ => false
  end.

Definition not_store (ev : event) : Prop := is_store_call ev = false.

Definition is_search_call (ev : event) : bool :=
  match ev with
  | Call (searchSimilarImages_call _ _ _) => true
  | _ => false
  end.

(** [m], started on an initialised service, leaves it initialised and
    does not initialise again. *)
Definition stays_initialized {World A} (m : M (St World) A) : Prop :=
  forall s,
    isInitialized s = true ->
    isInitialized (final (m s)) = true
    /\ Forall (fun ev => is_init_call ev = false) (emitted (m s)).

(** The state after a call that left the world [w]. *)
Definition after_call {World} (s : St World) (w : World) : St World :=
  {| world := w; isInitialized := isInitialized s |}.

(** [processedData.filename = originalFilename] *)
Definition with_filename (data : ProcessedData) (originalFilename : string)
  : ProcessedData :=
  {| pd_description := pd_description data;
     pd_embedding := pd_embedding data;
     pd_filename := originalFilename;
     pd_timestamp := pd_timestamp data |}.

(** The statements of [searchImages]'s [try] block that follow the
    initialisation guard: embed the query, ask the store, build the answer. *)
Definition embedAndSearch {World} (C : Collaborators World) (queryText : string)
           (limit scoreThreshold : number) : M (St World) SearchData :=
  (queryEmbedding <- processSearchQuery C queryText ;;
   results <- external (searchSimilarImages_call queryEmbedding limit scoreThreshold)
                       (qdrant_searchSimilarImages C queryEmbedding limit
                                                   scoreThreshold) ;;
   console_log [LStr ("Search completed: found "
                      ++ string_of_nat (List.length results) ++ " matching images")] ;;
   ret {| sd_query := queryText;
          sd_results := results;
          sd_totalFound := List.length results;
          sd_searchParams := {| sp_limit := limit;
                                sp_scoreThreshold := scoreThreshold |} |})%js.

(** The files of an upload request: [req.files || (req.file ? [req.file] : [])]. *)
Definition files_of (req : UploadRequest) : list File :=
  match req_files req with
  | Some fs => fs
  | None => match req_file req with Some f => [f] | None => [] end
  end.

(** A sample environment in which every required variable is set. *)
Definition sample_process_env (varName : string) : option string :=
  if String.eqb varName "OPENAI_API_KEY" then Some "sk-sample"
  else if String.eqb varName "OPENAI_BASE_URL" then Some "https://sample.openai.azure.com"
  else if String.eqb varName "OPENAI_API_VERSION" then Some "2023-07-01-preview"
  else if String.eqb varName "OPENAI_DEPLOYMENT_NAME" then Some "gpt-4o"
  else None.

(** A JPEG of one kilobyte and an executable, as multer hands them over. *)
Definition jpeg_upload : File :=
  {| path := "uploads/images-1.jpg"; originalname := "beach.jpg";
     mimetype := "image/jpeg"; size := 1024 |}.

Definition exe_upload : File :=
  {| path := "uploads/images-2.exe"; originalname := "setup.exe";
     mimetype := "application/octet-stream"; size := 1024 |}.

(** A PNG of twenty mebibytes. *)
Definition oversized_upload : File :=
  {| path := "uploads/images-3.png"; originalname := "poster.png";
     mimetype := "image/png"; size := 20 * 1024 * 1024 |}.

(* ================================================================== *)
(** ** Reasoning about runs *)
(* ================================================================== *)

Local Open Scope list_scope.

(** Projections of a run of [bind] and of [try_catch]. *)
Lemma result_bind {S A B} (m : M S A) (k : A -> M S B) s :
  result (bind m k s)
  = match result (m s) with
    | Returned a => result (k a (final (m s)))
    | Thrown e => Thrown e
    end.
Proof. unfold bind. destruct (result (m s)); reflexivity. Qed.

Lemma final_bind {S A B} (m : M S A) (k : A -> M S B) s :
  final (bind m k s)
  = match result (m s) with
    | Returned a => final (k a (final (m s)))
    | Thrown e => final (m s)
    end.
Proof. unfold bind. destruct (result (m s)); reflexivity. Qed.

Lemma emitted_bind {S A B} (m : M S A) (k : A -> M S B) s :
  emitted (bind m k s)
  = match result (m s) with
    | Returned a => emitted (m s) ++ emitted (k a (final (m s)))
    | Thrown e => emitted (m s)
    end.
Proof. unfold bind. destruct (result (m s)); reflexivity. Qed.

Lemma result_try_catch {S A} (body : M S A) handler s :
  result (try_catch body handler s)
  = match result (body s) with
    | Returned a => Returned a
    | Thrown e => result (handler e (final (body s)))
    end.
Proof. unfold try_catch. destruct (result (body s)); reflexivity. Qed.

Lemma final_try_catch {S A} (body : M S A) handler s :
  final (try_catch body handler s)
  = match result (body s) with
    | Returned a => final (body s)
    | Thrown e => final (handler e (final (body s)))
    end.
Proof. unfold try_catch. destruct (result (body s)); reflexivity. Qed.

Lemma emitted_try_catch {S A} (body : M S A) handler s :
  emitted (try_catch body handler s)
  = match result (body s) with
    | Returned a => emitted (body s)
    | Thrown e => emitted (body s) ++ emitted (handler e (final (body s)))
    end.
Proof. unfold try_catch. destruct (result (body s)); reflexivity. Qed.

Lemma Run_ext {S A} (r r' : Run S A) :
  result r = result r' -> final r = final r' -> emitted r = emitted r' -> r = r'.
Proof. destruct r, r'; cbn; intros; subst; reflexivity. Qed.

(** Runs of [bind] whose first action is known. *)
Lemma result_bind_assoc {S A1 A2 A3} (m : M S A1) (k : A1 -> M S A2)
      (k' : A2 -> M S A3) s :
  result (bind (bind m k) k' s) = result (bind m (fun a => bind (k a) k') s).
Proof.
  unfold bind. destruct (result (m s)); cbn [result final emitted];
    [destruct (result (k a (final (m s)))) |]; reflexivity.
Qed.

Lemma final_bind_assoc {S A1 A2 A3} (m : M S A1) (k : A1 -> M S A2)
      (k' : A2 -> M S A3) s :
  final (bind (bind m k) k' s) = final (bind m (fun a => bind (k a) k') s).
Proof.
  unfold bind. destruct (result (m s)); cbn [result final emitted];
    [destruct (result (k a (final (m s)))) |]; reflexivity.
Qed.

Lemma emitted_bind_assoc {S A1 A2 A3} (m : M S A1) (k : A1 -> M S A2)
      (k' : A2 -> M S A3) s :
  emitted (bind (bind m k) k' s) = emitted (bind m (fun a => bind (k a) k') s).
Proof.
  unfold bind. destruct (result (m s)); cbn [result final emitted];
    [destruct (result (k a (final (m s)))); cbn [result final emitted];
     rewrite ?app_assoc |]; reflexivity.
Qed.

Lemma result_bind_emit {S A} ev (k : unit -> M S A) s :
  result (bind (emit ev) k s) = result (k tt s).
Proof. reflexivity. Qed.

Lemma final_bind_emit {S A} ev (k : unit -> M S A) s :
  final (bind (emit ev) k s) = final (k tt s).
Proof. reflexivity. Qed.

Lemma emitted_bind_emit {S A} ev (k : unit -> M S A) s :
  emitted (bind (emit ev) k s) = ev :: emitted (k tt s).
Proof. reflexivity. Qed.

Lemma result_bind_ret {S A A'} (a : A') (k : A' -> M S A) s :
  result (bind (ret a) k s) = result (k a s).
Proof. reflexivity. Qed.

Lemma final_bind_ret {S A A'} (a : A') (k : A' -> M S A) s :
  final (bind (ret a) k s) = final (k a s).
Proof. reflexivity. Qed.

Lemma emitted_bind_ret {S A A'} (a : A') (k : A' -> M S A) s :
  emitted (bind (ret a) k s) = emitted (k a s).
Proof. reflexivity. Qed.

Lemma result_bind_lift {S A A'} (a : A') (k : A' -> M S A) s :
  result (bind (lift_outcome (Returned a)) k s) = result (k a s).
Proof. reflexivity. Qed.

Lemma final_bind_lift {S A A'} (a : A') (k : A' -> M S A) s :
  final (bind (lift_outcome (Returned a)) k s) = final (k a s).
Proof. reflexivity. Qed.

Lemma emitted_bind_lift {S A A'} (a : A') (k : A' -> M S A) s :
  emitted (bind (lift_outcome (Returned a)) k s) = emitted (k a s).
Proof. reflexivity. Qed.

Lemma result_ret {S A} (a : A) (s : S) : result (ret a s) = Returned a.
Proof. reflexivity. Qed.

Lemma final_ret {S A} (a : A) (s : S) : final (ret a s) = s.
Proof. reflexivity. Qed.

Lemma emitted_ret {S A} (a : A) (s : S) : emitted (ret a s) = [].
Proof. reflexivity. Qed.

Lemma result_throw {S A} e (s : S) : result (@throw S A e s) = Thrown e.
Proof. reflexivity. Qed.

Lemma final_throw {S A} e (s : S) : final (@throw S A e s) = s.
Proof. reflexivity. Qed.

Lemma emitted_throw {S A} e (s : S) : emitted (@throw S A e s) = [].
Proof. reflexivity. Qed.

Create Rewrite HintDb run.
#[export] Hint Rewrite
  @result_bind_assoc @final_bind_assoc @emitted_bind_assoc
  @result_bind_emit @final_bind_emit @emitted_bind_emit
  @result_bind_ret @final_bind_ret @emitted_bind_ret
  @result_bind_lift @final_bind_lift @emitted_bind_lift
  @result_ret @final_ret @emitted_ret
  @result_throw @final_throw @emitted_throw : run.

(** Rewrite a run as far as its actions are known. *)
Ltac run_known :=
  unfold console_log, console_error;
  repeat (progress (cbv beta iota;
                    autorewrite with run;
                    rewrite ?result_try_catch, ?final_try_catch, ?emitted_try_catch)).

(** Rewrite a run to the point where it waits for an unknown sub-run. *)
Ltac run :=
  run_known; rewrite ?result_bind, ?final_bind, ?emitted_bind.

Lemma emits_ret {S A} P (a : A) : emits P (@ret S A a).
Proof. intros s. constructor. Qed.

Lemma emits_throw {S A} P e : emits P (@throw S A e).
Proof. intros s. constructor. Qed.

Lemma emits_emit {S} (P : event -> Prop) ev : P ev -> emits P (@emit S ev).
Proof. intros H s. simpl. constructor; [assumption | constructor]. Qed.

Lemma emits_bind {S A B} P (m : M S A) (k : A -> M S B) :
  emits P m -> (forall a, emits P (k a)) -> emits P (bind m k).
Proof.
  intros Hm Hk s. unfold bind.
  destruct (result (m s)) as [a | e]; simpl.
  - apply Forall_app. split; [apply Hm | apply Hk].
  - apply Hm.
Qed.

Lemma emits_try_catch {S A} P (body : M S A) handler :
  emits P body -> (forall e, emits P (handler e)) -> emits P (try_catch body handler).
Proof.
  intros Hb Hh s. unfold try_catch.
  destruct (result (body s)) as [a | e]; simpl.
  - apply Hb.
  - apply Forall_app. split; [apply Hb | apply Hh].
Qed.

Lemma count_app p l1 l2 : count p (l1 ++ l2) = (count p l1 + count p l2)%nat.
Proof. unfold count. rewrite filter_app, length_app. reflexivity. Qed.

Lemma count_none p l : Forall (fun ev => p ev = false) l -> count p l = 0%nat.
Proof.
  unfold count. induction 1 as [| ev l Hev _ IH]; simpl.
  - reflexivity.
  - rewrite Hev. exact IH.
Qed.

Lemma in_app_middle {A} (x : A) l1 l2 : In x (l1 ++ x :: l2).
Proof. apply in_or_app. right. left. reflexivity. Qed.

Section BackendFacts.
Context {World : Type}.
Variable B : Builtins.
Variable C : Collaborators World.

Lemma emits_external {A} (P : event -> Prop) c (f : World -> outcome A * World) :
  P (Call c) -> emits P (external c f).
Proof.
  intros H s. unfold external. destruct (f (world s)) as [o w]. simpl.
  constructor; [assumption | constructor].
Qed.

Lemma emits_get_isInitialized P : emits P (@get_isInitialized World).
Proof. intros s. constructor. Qed.

Lemma emits_set_isInitialized P b : emits P (@set_isInitialized World b).
Proof. intros s. constructor. Qed.

Lemma result_bind_get {A} (k : bool -> M (St World) A) s :
  result (bind get_isInitialized k s) = result (k (isInitialized s) s).
Proof. reflexivity. Qed.

Lemma result_bind_external {A A'} c (f : World -> outcome A' * World)
      (k : A' -> M (St World) A) s :
  result (bind (external c f) k s)
  = match fst (f (world s)) with
    | Returned a => result (k a {| world := snd (f (world s));
                                   isInitialized := isInitialized s |})
    | Thrown e => Thrown e
    end.
Proof. unfold bind, external. destruct (f (world s)) as [[a | e] w]; reflexivity. Qed.

(** *** The clean-up never throws *)

Lemma cleanupTemporaryFile_returns filePath s :
  result (cleanupTemporaryFile C filePath s) = Returned tt.
Proof.
  unfold cleanupTemporaryFile, try_catch, bind, external, console_log,
    console_error, emit, ret.
  destruct (fs_pathExists C filePath (world s)) as [[[|] | e] w]; simpl;
    try reflexivity.
  destruct (fs_unlink C filePath w) as [[[] | e] w']; reflexivity.
Qed.

Lemma cleanupTemporaryFile_pathExists_once filePath s :
  count (is_pathExists filePath) (emitted (cleanupTemporaryFile C filePath s)) = 1%nat.
Proof.
  unfold cleanupTemporaryFile, try_catch, bind, external, console_log,
    console_error, emit, ret, count.
  destruct (fs_pathExists C filePath (world s)) as [[[|] | e] w]; simpl;
    rewrite ?String.eqb_refl; try reflexivity.
  destruct (fs_unlink C filePath w) as [[[] | e] w']; simpl;
    rewrite ?String.eqb_refl; reflexivity.
Qed.

Lemma cleanupTemporaryFile_unlink_at_most_once filePath s :
  (count (is_unlink filePath) (emitted (cleanupTemporaryFile C filePath s)) <= 1)%nat.
Proof.
  unfold cleanupTemporaryFile, try_catch, bind, external, console_log,
    console_error, emit, ret, count.
  destruct (fs_pathExists C filePath (world s)) as [[[|] | e] w]; simpl;
    try lia.
  destruct (fs_unlink C filePath w) as [[[] | e] w']; simpl;
    rewrite ?String.eqb_refl; simpl; lia.
Qed.

(** When the file is there, the clean-up asks for its removal once. *)
Lemma cleanupTemporaryFile_unlinks filePath s w :
  fs_pathExists C filePath (world s) = (Returned true, w) ->
  count (is_unlink filePath) (emitted (cleanupTemporaryFile C filePath s)) = 1%nat.
Proof.
  intros H.
  unfold cleanupTemporaryFile, try_catch, bind, external, console_log,
    console_error, emit, ret, count.
  rewrite H. simpl.
  destruct (fs_unlink C filePath w) as [[[] | e] w']; simpl;
    rewrite ?String.eqb_refl; reflexivity.
Qed.

(** A failing clean-up is logged and nothing else. *)
Lemma cleanupTemporaryFile_logs_failure filePath s e w :
  fs_pathExists C filePath (world s) = (Thrown e, w)
  \/ (exists w0, fs_pathExists C filePath (world s) = (Returned true, w0)
                 /\ fs_unlink C filePath w0 = (Thrown e, w)) ->
  In (Console_error [LStr ("Error cleaning up file " ++ filePath ++ ":")%string; LErr e])
     (emitted (cleanupTemporaryFile C filePath s)).
Proof.
  unfold cleanupTemporaryFile, try_catch, bind, external, console_log,
    console_error, emit, ret.
  intros [H | [w0 [H H']]]; rewrite H; simpl.
  - right. left. reflexivity.
  - rewrite H'. simpl. right. right. left. reflexivity.
Qed.

(** *** The work before the clean-up does not touch the file system *)

Lemma initialize_not_fs : emits not_fs (initialize C).
Proof.
  unfold initialize.
  repeat first
    [ apply emits_try_catch | apply emits_bind | intros ?
    | apply emits_external | apply emits_emit | apply emits_throw
    | apply emits_set_isInitialized | reflexivity ].
Qed.

Lemma processImage_not_fs imagePath : emits not_fs (processImage B C imagePath).
Proof.
  unfold processImage, generateImageDescription, generateTextEmbedding, toISOString.
  repeat first
    [ apply emits_try_catch | apply emits_bind | intros ?
    | apply emits_external | apply emits_emit | apply emits_throw
    | apply emits_ret | reflexivity ].
Qed.

Lemma processAndStore_not_fs imagePath originalFilename :
  emits not_fs (processAndStore B C imagePath originalFilename).
Proof.
  unfold processAndStore.
  apply emits_bind; [apply emits_emit; reflexivity | intros _].
  apply emits_bind; [apply emits_get_isInitialized | intros initialized].
  apply emits_bind.
  { destruct initialized; [apply emits_ret | apply initialize_not_fs]. }
  intros _. apply emits_bind; [apply processImage_not_fs | intros pd].
  apply emits_bind; [apply emits_external; reflexivity | intros id].
  apply emits_ret.
Qed.
End BackendFacts.

Section UploadFacts.
Context {World : Type}.
Variable B : Builtins.
Variable C : Collaborators World.

(** [processUploadedImage] is the work, then one clean-up, on both exits. *)
Lemma processUploadedImage_run imagePath originalFilename s :
  let work := processAndStore B C imagePath originalFilename s in
  let clean := cleanupTemporaryFile C imagePath (final work) in
  processUploadedImage B C imagePath originalFilename s
  = match result work with
    | Returned stored =>
        {| result := Returned (item_of originalFilename stored);
           final := final clean;
           emitted := emitted work ++ emitted clean
                      ++ [Console_log [LStr ("Successfully processed and stored: "
                                             ++ originalFilename)%string]] |}
    | Thrown e =>
        {| result := Thrown e;
           final := final clean;
           emitted := emitted work
                      ++ Console_error [LStr ("Error processing image "
                                              ++ originalFilename ++ ":")%string;
                                        LErr e]
                      :: emitted clean |}
    end.
Proof.
  intros work clean. subst work clean.
  assert (Hclean : forall s', result (cleanupTemporaryFile C imagePath s') = Returned tt)
    by (intros s'; apply cleanupTemporaryFile_returns).
  unfold processUploadedImage.
  remember (processAndStore B C imagePath originalFilename) as workm.
  remember (cleanupTemporaryFile C imagePath) as cleanm.
  apply Run_ext; run;
    destruct (result (workm s)) as [[id pd] | e];
    repeat (progress (run; rewrite ?Hclean));
    rewrite ?app_nil_r; reflexivity.
Qed.

Lemma processUploadedImage_result imagePath originalFilename s :
  result (processUploadedImage B C imagePath originalFilename s)
  = match result (processAndStore B C imagePath originalFilename s) with
    | Returned stored => Returned (item_of originalFilename stored)
    | Thrown e => Thrown e
    end.
Proof.
  rewrite processUploadedImage_run.
  destruct (result (processAndStore B C imagePath originalFilename s)); reflexivity.
Qed.

Lemma processUploadedImage_filename imagePath originalFilename s item :
  result (processUploadedImage B C imagePath originalFilename s) = Returned item ->
  filename item = originalFilename.
Proof.
  rewrite processUploadedImage_result.
  destruct (result (processAndStore B C imagePath originalFilename s));
    intros H; inversion H; reflexivity.
Qed.
End UploadFacts.

(** C3. For every file passed through [processUploadedImage], the clean-up of
    the temporary file runs exactly once on each exit path, after the work:
    the run consists of the work's events, one run of [cleanupTemporaryFile]
    on the image path from the state the work left (and one console line),
    so [fs.pathExists] is asked once for the path and [fs.unlink] at most
    once -- once when the file is there. The clean-up itself never throws, a failure inside it is only
    logged, and the outcome is the work's outcome whatever the file system
    does: success stays the item, failure stays the original error. *)
Theorem cleanup_exactly_once_and_swallowed :
  forall (World : Type) (B : Builtins) (C : Collaborators World)
         (imagePath originalFilename : string) (s : St World),
    let run := processUploadedImage B C imagePath originalFilename s in
    let work := processAndStore B C imagePath originalFilename s in
    let clean := cleanupTemporaryFile C imagePath (final work) in
    (exists before after,
        emitted run = (emitted work ++ before) ++ emitted clean ++ after
        /\ Forall (fun ev => is_fs_call ev = false) (emitted work ++ before)
        /\ Forall (fun ev => is_fs_call ev = false) after)
    /\ final run = final clean
    /\ count (is_pathExists imagePath) (emitted run) = 1%nat
    /\ (count (is_unlink imagePath) (emitted run) <= 1)%nat
    /\ (forall w,
          fs_pathExists C imagePath (world (final work)) = (Returned true, w) ->
          count (is_unlink imagePath) (emitted run) = 1%nat)
    /\ count is_fs_call (emitted run) = count is_fs_call (emitted clean)
    /\ result clean = Returned tt
    /\ (forall e w,
          fs_pathExists C imagePath (world (final work)) = (Thrown e, w)
          \/ (exists w0,
                 fs_pathExists C imagePath (world (final work)) = (Returned true, w0)
                 /\ fs_unlink C imagePath w0 = (Thrown e, w)) ->
          In (Console_error [LStr ("Error cleaning up file " ++ imagePath ++ ":")%string;
                             LErr e])
             (emitted run))
    /\ result run = match result work with
                    | Returned stored => Returned (item_of originalFilename stored)
                    | Thrown e => Thrown e
                    end
    /\ (forall pathExists unlink,
          result (processUploadedImage B (with_fs C pathExists unlink)
                                       imagePath originalFilename s)
          = result run).
Proof.
  intros World B C imagePath originalFilename s run work clean.
  assert (Hwork : Forall (fun ev => is_fs_call ev = false) (emitted work))
    by apply processAndStore_not_fs.
  assert (Hshape : exists before after,
             emitted run = (emitted work ++ before) ++ emitted clean ++ after
             /\ Forall (fun ev => is_fs_call ev = false) (emitted work ++ before)
             /\ Forall (fun ev => is_fs_call ev = false) after).
  { subst run. rewrite processUploadedImage_run. fold work. fold clean.
    destruct (result work) as [stored | e].
    - exists [], [Console_log [LStr ("Successfully processed and stored: "
                                     ++ originalFilename)%string]].
      cbn [emitted]. rewrite app_nil_r. repeat split.
      + exact Hwork.
      + constructor; [reflexivity | constructor].
    - exists [Console_error [LStr ("Error processing image " ++ originalFilename ++ ":")%string;
                             LErr e]], [].
      cbn [emitted]. rewrite app_nil_r, <- app_assoc. repeat split.
      + apply Forall_app. split; [exact Hwork |].
        constructor; [reflexivity | constructor].
      + constructor. }
  assert (Hsame : forall p, (forall ev, p ev = true -> is_fs_call ev = true) ->
                            count p (emitted run) = count p (emitted clean)).
  { intros p Hp. destruct Hshape as [before [after [Hrun [Hb Ha]]]].
    rewrite Hrun.
    rewrite (count_app p (emitted work ++ before)), (count_app p (emitted clean)).
    rewrite (count_none p (l := emitted work ++ before)),
            (count_none p (l := after)).
    - lia.
    - eapply Forall_impl; [| exact Ha]. intros ev Hev. simpl in Hev.
      destruct (p ev) eqn:Hpev; [| reflexivity].
      apply Hp in Hpev. congruence.
    - eapply Forall_impl; [| exact Hb]. intros ev Hev. simpl in Hev.
      destruct (p ev) eqn:Hpev; [| reflexivity].
      apply Hp in Hpev. congruence. }
  assert (Hresult : result run = match result work with
                                 | Returned stored => Returned (item_of originalFilename stored)
                                 | Thrown e => Thrown e
                                 end)
    by apply processUploadedImage_result.
  split; [exact Hshape |].
  split.
  { subst run. rewrite processUploadedImage_run. fold work.
    destruct (result work); reflexivity. }
  split.
  { rewrite Hsame.
    - apply cleanupTemporaryFile_pathExists_once.
    - intros [| | [ ]]; simpl; congruence. }
  split.
  { rewrite Hsame.
    - apply cleanupTemporaryFile_unlink_at_most_once.
    - intros [| | [ ]]; simpl; congruence. }
  split.
  { intros w Hexists. rewrite Hsame.
    - apply (cleanupTemporaryFile_unlinks C imagePath (final work) Hexists).
    - intros [| | [ ]]; simpl; congruence. }
  split; [apply Hsame; intros ev H; exact H |].
  split; [apply cleanupTemporaryFile_returns |].
  split.
  { intros e w H. destruct Hshape as [before [after [Hrun _]]].
    rewrite Hrun. apply in_or_app. right. apply in_or_app. left.
    apply (cleanupTemporaryFile_logs_failure C imagePath (final work) H). }
  split; [exact Hresult |].
  intros pathExists unlink. rewrite Hresult.
  apply (processUploadedImage_result B (with_fs C pathExists unlink)).
Qed.

(* ================================================================== *)
(** ** The batch loop is the fold *)
(* ================================================================== *)

Lemma Acc_eta {World} (a : Acc World) :
  a = {| acc_results := acc_results a; acc_errors := acc_errors a;
         acc_state := acc_state a; acc_events := acc_events a |}.
Proof. destruct a; reflexivity. Qed.

Section BatchFacts.
Context {World : Type}.
Variable B : Builtins.
Variable C : Collaborators World.

Lemma batch_iteration_run file results errors s :
  batch_iteration B C file (results, errors) s
  = let r := processUploadedImage B C (path file) (originalname file) s in
    match result r with
    | Returned item =>
        {| result := Returned (results ++ [item], errors);
           final := final r;
           emitted := emitted r |}
    | Thrown e =>
        {| result := Returned (results, errors ++ [failure_of file e]);
           final := final r;
           emitted := emitted r ++ [failure_line file e] |}
    end.
Proof.
  unfold batch_iteration.
  remember (processUploadedImage B C (path file) (originalname file)) as itemm.
  unfold try_catch, bind, console_error, emit, ret.
  cbv zeta.
  destruct (result (itemm s)) as [item | e]; cbn [result final emitted].
  - rewrite app_nil_r. reflexivity.
  - reflexivity.
Qed.

Lemma ingest_step_Returned (a : Acc World) file item :
  result (processUploadedImage B C (path file) (originalname file) (acc_state a))
  = Returned item ->
  ingest_step B C a file
  = {| acc_results := acc_results a ++ [item];
       acc_errors := acc_errors a;
       acc_state := final (processUploadedImage B C (path file) (originalname file)
                                                (acc_state a));
       acc_events := acc_events a
                     ++ emitted (processUploadedImage B C (path file)
                                                      (originalname file)
                                                      (acc_state a)) |}.
Proof. intros H. unfold ingest_step. rewrite H. reflexivity. Qed.

Lemma ingest_step_Thrown (a : Acc World) file e :
  result (processUploadedImage B C (path file) (originalname file) (acc_state a))
  = Thrown e ->
  ingest_step B C a file
  = {| acc_results := acc_results a;
       acc_errors := acc_errors a ++ [failure_of file e];
       acc_state := final (processUploadedImage B C (path file) (originalname file)
                                                (acc_state a));
       acc_events := acc_events a
                     ++ emitted (processUploadedImage B C (path file)
                                                      (originalname file)
                                                      (acc_state a))
                     ++ [failure_line file e] |}.
Proof. intros H. unfold ingest_step. rewrite H. reflexivity. Qed.

(** The fold from any accumulator is the fold from the empty one, with the
    accumulator's lists and events in front. *)
Lemma fold_left_ingest_step files :
  forall results errors s evs,
    let a := fold_left (ingest_step B C) files
                       {| acc_results := results; acc_errors := errors;
                          acc_state := s; acc_events := evs |} in
    let a0 := ingest_fold B C files s in
    acc_results a = results ++ acc_results a0
    /\ acc_errors a = errors ++ acc_errors a0
    /\ acc_state a = acc_state a0
    /\ acc_events a = evs ++ acc_events a0.
Proof.
  unfold ingest_fold.
  induction files as [| file rest IH]; intros results errors s evs; cbn [fold_left].
  - cbn. rewrite !app_nil_r. repeat split.
  - cbv zeta.
    destruct (result (processUploadedImage B C (path file) (originalname file) s))
      as [item | e] eqn:Hr.
    + rewrite (ingest_step_Returned
                 {| acc_results := results; acc_errors := errors;
                    acc_state := s; acc_events := evs |} file Hr).
      rewrite (ingest_step_Returned
                 {| acc_results := []; acc_errors := [];
                    acc_state := s; acc_events := [] |} file Hr).
      cbn [acc_state acc_results acc_errors acc_events].
      destruct (IH (results ++ [item]) errors
                   (final (processUploadedImage B C (path file) (originalname file) s))
                   (evs ++ emitted (processUploadedImage B C (path file)
                                                        (originalname file) s)))
        as (H1 & H2 & H3 & H4).
      destruct (IH ([] ++ [item]) []
                   (final (processUploadedImage B C (path file) (originalname file) s))
                   ([] ++ emitted (processUploadedImage B C (path file)
                                                       (originalname file) s)))
        as (G1 & G2 & G3 & G4).
      rewrite H1, H2, H3, H4, G1, G2, G3, G4.
      cbn [app]. rewrite <- !app_assoc. repeat split.
    + rewrite (ingest_step_Thrown
                 {| acc_results := results; acc_errors := errors;
                    acc_state := s; acc_events := evs |} file Hr).
      rewrite (ingest_step_Thrown
                 {| acc_results := []; acc_errors := [];
                    acc_state := s; acc_events := [] |} file Hr).
      cbn [acc_state acc_results acc_errors acc_events].
      destruct (IH results (errors ++ [failure_of file e])
                   (final (processUploadedImage B C (path file) (originalname file) s))
                   (evs ++ emitted (processUploadedImage B C (path file)
                                                        (originalname file) s)
                        ++ [failure_line file e]))
        as (H1 & H2 & H3 & H4).
      destruct (IH [] ([] ++ [failure_of file e])
                   (final (processUploadedImage B C (path file) (originalname file) s))
                   ([] ++ emitted (processUploadedImage B C (path file)
                                                       (originalname file) s)
                       ++ [failure_line file e]))
        as (G1 & G2 & G3 & G4).
      rewrite H1, H2, H3, H4, G1, G2, G3, G4.
      cbn [app]. rewrite <- !app_assoc. repeat split.
Qed.

(** Unfolding the fold at its first file. *)
Lemma ingest_fold_cons file rest s :
  ingest_fold B C (file :: rest) s
  = let r := processUploadedImage B C (path file) (originalname file) s in
    let a := ingest_fold B C rest (final r) in
    match result r with
    | Returned item =>
        {| acc_results := item :: acc_results a;
           acc_errors := acc_errors a;
           acc_state := acc_state a;
           acc_events := emitted r ++ acc_events a |}
    | Thrown e =>
        {| acc_results := acc_results a;
           acc_errors := failure_of file e :: acc_errors a;
           acc_state := acc_state a;
           acc_events := emitted r ++ failure_line file e :: acc_events a |}
    end.
Proof.
  cbv zeta. unfold ingest_fold at 1. cbn [fold_left].
  destruct (result (processUploadedImage B C (path file) (originalname file) s))
    as [item | e] eqn:Hr.
  - rewrite (ingest_step_Returned
               {| acc_results := []; acc_errors := [];
                  acc_state := s; acc_events := [] |} file Hr).
    cbn [acc_state acc_results acc_errors acc_events].
    rewrite (Acc_eta (fold_left _ _ _)).
    destruct (fold_left_ingest_step rest ([] ++ [item]) []
                (final (processUploadedImage B C (path file) (originalname file) s))
                ([] ++ emitted (processUploadedImage B C (path file)
                                                    (originalname file) s)))
      as (H1 & H2 & H3 & H4).
    rewrite H1, H2, H3, H4. reflexivity.
  - rewrite (ingest_step_Thrown
               {| acc_results := []; acc_errors := [];
                  acc_state := s; acc_events := [] |} file Hr).
    cbn [acc_state acc_results acc_errors acc_events].
    rewrite (Acc_eta (fold_left _ _ _)).
    destruct (fold_left_ingest_step rest [] ([] ++ [failure_of file e])
                (final (processUploadedImage B C (path file) (originalname file) s))
                ([] ++ emitted (processUploadedImage B C (path file)
                                                    (originalname file) s)
                    ++ [failure_line file e]))
      as (H1 & H2 & H3 & H4).
    rewrite H1, H2, H3, H4. cbn [app]. rewrite <- app_assoc. reflexivity.
Qed.

(** The fold over a concatenation continues from where the prefix ended. *)
Lemma ingest_fold_app pre post :
  forall s,
    let a := ingest_fold B C pre s in
    let a' := ingest_fold B C post (acc_state a) in
    ingest_fold B C (pre ++ post) s
    = {| acc_results := acc_results a ++ acc_results a';
         acc_errors := acc_errors a ++ acc_errors a';
         acc_state := acc_state a';
         acc_events := acc_events a ++ acc_events a' |}.
Proof.
  induction pre as [| file rest IH]; intros s; cbv zeta.
  - cbn [app]. unfold ingest_fold at 2 3 4 6. cbn. apply Acc_eta.
  - cbn [app]. rewrite !ingest_fold_cons. cbv zeta.
    destruct (result (processUploadedImage B C (path file) (originalname file) s));
      cbn [acc_state acc_results acc_errors acc_events];
      rewrite IH; cbn [app]; rewrite <- ?app_assoc; reflexivity.
Qed.

(** The loop of [processMultipleImages] computes the fold. *)
Lemma batch_loop_fold files :
  forall results errors s,
    let a := ingest_fold B C files s in
    batch_loop B C files (results, errors) s
    = {| result := Returned (results ++ acc_results a, errors ++ acc_errors a);
         final := acc_state a;
         emitted := acc_events a |}.
Proof.
  induction files as [| file rest IH]; intros results errors s; cbv zeta.
  - cbn. rewrite !app_nil_r. reflexivity.
  - cbn [batch_loop]. rewrite ingest_fold_cons. cbv zeta.
    unfold bind. rewrite batch_iteration_run. cbv zeta.
    destruct (result (processUploadedImage B C (path file) (originalname file) s))
      as [item | e]; cbn [result final emitted];
      rewrite IH; cbn [result final emitted acc_results acc_errors acc_state acc_events];
      rewrite <- ?app_assoc; reflexivity.
Qed.

Lemma processMultipleImages_fold files s :
  let a := ingest_fold B C files s in
  processMultipleImages B C files s
  = {| result := Returned (batch_of a);
       final := acc_state a;
       emitted := batch_header (List.length files)
                  :: acc_events a
                  ++ [batch_footer (List.length (acc_results a))
                                   (List.length (acc_errors a))] |}.
Proof.
  cbv zeta. unfold processMultipleImages.
  remember (batch_loop B C files ([], [])) as loopm.
  assert (Hloop : loopm s = _) by (subst loopm; apply batch_loop_fold).
  cbv zeta in Hloop. cbn [app] in Hloop.
  unfold try_catch, bind, console_log, emit, ret.
  cbn [result final emitted]. rewrite Hloop.
  cbn [result final emitted]. reflexivity.
Qed.
End BatchFacts.

Section PartitionFacts.
Context {World : Type}.
Variable B : Builtins.
Variable C : Collaborators World.

Lemma ingest_fold_lengths files :
  forall s,
    (List.length (acc_results (ingest_fold B C files s))
     + List.length (acc_errors (ingest_fold B C files s)))%nat
    = List.length files.
Proof.
  induction files as [| file rest IH]; intros s.
  - reflexivity.
  - rewrite ingest_fold_cons. cbv zeta.
    destruct (result (processUploadedImage B C (path file) (originalname file) s));
      cbn [acc_results acc_errors List.length];
      rewrite <- (IH (final (processUploadedImage B C (path file)
                                                  (originalname file) s)));
      lia.
Qed.

Lemma ingest_fold_names files :
  forall s,
    Permutation
      (map filename (acc_results (ingest_fold B C files s))
       ++ map failed_filename (acc_errors (ingest_fold B C files s)))
      (map originalname files).
Proof.
  induction files as [| file rest IH]; intros s.
  - constructor.
  - rewrite ingest_fold_cons. cbv zeta.
    destruct (result (processUploadedImage B C (path file) (originalname file) s))
      as [item | e] eqn:Hr;
      cbn [acc_results acc_errors map app].
    + rewrite (processUploadedImage_filename _ _ _ _ _ Hr).
      apply perm_skip. apply IH.
    + eapply Permutation_trans.
      * apply Permutation_sym. apply Permutation_middle.
      * apply perm_skip. apply IH.
Qed.

(** A file whose processing throws is listed among the failures, whatever
    comes before and after it. *)
Lemma ingest_fold_records pre file post s e :
  result (processUploadedImage B C (path file) (originalname file)
                               (acc_state (ingest_fold B C pre s)))
  = Thrown e ->
  In (failure_of file e) (acc_errors (ingest_fold B C (pre ++ file :: post) s)).
Proof.
  intros H. rewrite ingest_fold_app. cbv zeta.
  cbn [acc_errors]. rewrite ingest_fold_cons. cbv zeta. rewrite H.
  cbn [acc_errors]. apply in_app_middle.
Qed.
End PartitionFacts.

(** C1. For every list of input files (the non-empty ones among them),
    [processMultipleImages] returns, and its result satisfies
    [successful.length + failed.length = inputCount] and
    [totalProcessed + totalFailed = inputCount]; the file names of the two
    sequences together are the input's file names, each as often as it was
    supplied, so each input file is in exactly one of the two. *)
Theorem batch_counts_add_up :
  forall (World : Type) (B : Builtins) (C : Collaborators World)
         (imageFiles : list File) (s : St World),
  exists b,
    result (processMultipleImages B C imageFiles s) = Returned b
    /\ (List.length (successful b) + List.length (failed b))%nat
       = List.length imageFiles
    /\ (totalProcessed b + totalFailed b)%nat = List.length imageFiles
    /\ Permutation (map filename (successful b) ++ map failed_filename (failed b))
                   (map originalname imageFiles).
Proof.
  intros World B C imageFiles s.
  exists (batch_of (ingest_fold B C imageFiles s)).
  rewrite processMultipleImages_fold. cbv zeta.
  unfold batch_of.
  cbn [result successful failed totalProcessed totalFailed].
  split; [reflexivity |].
  split; [apply ingest_fold_lengths |].
  split; [apply ingest_fold_lengths | apply ingest_fold_names].
Qed.

(** C2, as the code has it. [processMultipleImages] never raises: whatever
    makes the processing of a file throw -- a bad image as much as an
    unreachable vector store or a rejected credential -- is caught in the
    loop and recorded as that file's [{filename, error}] entry of the
    failure list. *)
Theorem batch_never_raises :
  forall (World : Type) (B : Builtins) (C : Collaborators World),
    (forall (imageFiles : list File) (s : St World),
        exists b, result (processMultipleImages B C imageFiles s) = Returned b)
    /\ (forall (pre post : list File) (file : File) (s : St World) (e : JsError),
           result (processUploadedImage B C (path file) (originalname file)
                                        (acc_state (ingest_fold B C pre s)))
           = Thrown e ->
           exists b,
             result (processMultipleImages B C (pre ++ file :: post) s) = Returned b
             /\ In {| failed_filename := originalname file;
                      failed_error := message e |} (failed b)).
Proof.
  intros World B C. split.
  - intros imageFiles s. rewrite processMultipleImages_fold.
    eexists. reflexivity.
  - intros pre post file s e H.
    rewrite processMultipleImages_fold. cbv zeta.
    eexists. split; [reflexivity |].
    apply (ingest_fold_records B C pre file post s H).
Qed.

(** C4. For every input list, [processMultipleImages] is the left fold of
    [ingest_step] over the input sequence, which accumulates the pair of
    success and failure lists; and the files are processed one after the
    other in input order: the events of the batch are those of the files
    before file i, then those of file i's whole [processUploadedImage] run
    (started in the state the files before it left), then those of the
    files after it (started in the state file i's run left). *)
Theorem batch_is_sequential_fold :
  forall (World : Type) (B : Builtins) (C : Collaborators World),
    (forall (imageFiles : list File) (s : St World),
        let a := ingest_fold B C imageFiles s in
        processMultipleImages B C imageFiles s
        = {| result := Returned {| successful := acc_results a;
                                   failed := acc_errors a;
                                   totalProcessed := List.length (acc_results a);
                                   totalFailed := List.length (acc_errors a) |};
             final := acc_state a;
             emitted := batch_header (List.length imageFiles)
                        :: acc_events a
                        ++ [batch_footer (List.length (acc_results a))
                                         (List.length (acc_errors a))] |})
    /\ (forall (pre post : list File) (file : File) (s : St World),
           let before := ingest_fold B C pre s in
           let r := processUploadedImage B C (path file) (originalname file)
                                         (acc_state before) in
           let after := ingest_fold B C post (final r) in
           acc_events (ingest_fold B C (pre ++ file :: post) s)
           = acc_events before
             ++ emitted r
             ++ match result r with
                | Returned _ => []
                | Thrown e => [failure_line file e]
                end
             ++ acc_events after
           /\ acc_state (ingest_fold B C (pre ++ file :: post) s) = acc_state after).
Proof.
  intros World B C. split.
  - intros imageFiles s. apply processMultipleImages_fold.
  - intros pre post file s. cbv zeta.
    rewrite ingest_fold_app. cbv zeta. cbn [acc_events acc_state].
    rewrite ingest_fold_cons. cbv zeta.
    destruct (result (processUploadedImage B C (path file) (originalname file)
                                           (acc_state (ingest_fold B C pre s))));
      cbn [acc_events acc_state app]; split; reflexivity.
Qed.

Section ControllerFacts.
Context {World : Type}.
Variable B : Builtins.
Variable C : Collaborators World.

(** The controller's run on a request carrying exactly one valid file. *)
Lemma uploadImages_single req file s :
  req_files req = Some [file]
  \/ (req_files req = None /\ req_file req = Some file) ->
  validateUploadedFile (Some file) = Returned true ->
  let r := processUploadedImage B C (path file) (originalname file) s in
  result (uploadImages B C req s)
  = match result r with
    | Returned item =>
        Returned (Json 200 true "Image uploaded and processed successfully" None
                       (Some (SingleData item)))
    | Thrown e => Returned (Next e)
    end
  /\ final (uploadImages B C req s) = final r.
Proof.
  intros Hreq Hvalid. cbv zeta.
  unfold uploadImages.
  assert (Hfiles : match req_files req with
                   | Some fs => fs
                   | None => match req_file req with Some f => [f] | None => [] end
                   end = [file]).
  { destruct Hreq as [H | [H H']]; rewrite H; [| rewrite H']; reflexivity. }
  rewrite Hfiles.
  remember (processUploadedImage B C (path file) (originalname file)) as itemm.
  cbn [for_of]. rewrite Hvalid. split.
  - run. destruct (result (itemm s)); run_known; reflexivity.
  - run. destruct (result (itemm s)); run_known; reflexivity.
Qed.

Lemma processMultipleImages_single file s :
  let r := processUploadedImage B C (path file) (originalname file) s in
  result (processMultipleImages B C [file] s)
  = Returned match result r with
             | Returned item =>
                 {| successful := [item]; failed := [];
                    totalProcessed := 1; totalFailed := 0 |}
             | Thrown e =>
                 {| successful := []; failed := [failure_of file e];
                    totalProcessed := 0; totalFailed := 1 |}
             end
  /\ final (processMultipleImages B C [file] s) = final r.
Proof.
  cbv zeta. rewrite processMultipleImages_fold. cbv zeta.
  rewrite ingest_fold_cons. cbv zeta.
  destruct (result (processUploadedImage B C (path file) (originalname file) s));
    split; reflexivity.
Qed.
End ControllerFacts.

(** C9. For an upload of exactly one (valid) file, the controller calls
    [processUploadedImage] directly and answers with that item as [data];
    the batch path run on the same file from the same state would list the
    very same item -- hence the same description, filename and timestamp --
    as its only success entry. The two differ in the envelope only: the
    single answer carries the item itself, the batch answer a batch
    result, and the two shapes cannot be confused. *)
Theorem single_upload_agrees_with_batch_of_one :
  forall (World : Type) (B : Builtins) (C : Collaborators World)
         (req : UploadRequest) (file : File) (s : St World),
    req_files req = Some [file]
    \/ (req_files req = None /\ req_file req = Some file) ->
    validateUploadedFile (Some file) = Returned true ->
    forall item,
      result (processUploadedImage B C (path file) (originalname file) s)
      = Returned item ->
      result (uploadImages B C req s)
      = Returned (Json 200 true "Image uploaded and processed successfully" None
                       (Some (SingleData item)))
      /\ (exists b,
             result (processMultipleImages B C [file] s) = Returned b
             /\ successful b = [item]
             /\ failed b = []
             /\ map (fun i => (description i, filename i, timestamp i)) (successful b)
                = [(description item, filename item, timestamp item)])
      /\ final (uploadImages B C req s) = final (processMultipleImages B C [file] s)
      /\ (forall b, SingleData item <> BatchData b).
Proof.
  intros World B C req file s Hreq Hvalid item Hitem.
  destruct (uploadImages_single B C req s Hreq Hvalid) as [Hres Hfin].
  destruct (processMultipleImages_single B C file s) as [Bres Bfin].
  cbv zeta in *. rewrite Hitem in Hres, Bres.
  split; [exact Hres |].
  split.
  { eexists. split; [exact Bres |]. repeat split. }
  split; [congruence |].
  intros b. discriminate.
Qed.

(* ================================================================== *)
(** ** Validation *)
(* ================================================================== *)

Lemma includes_In l x : includes l x = true <-> In x l.
Proof.
  unfold includes. rewrite existsb_exists. split.
  - intros [y [Hy Heq]]. apply String.eqb_eq in Heq. subst. exact Hy.
  - intros H. exists x. split; [exact H | apply String.eqb_refl].
Qed.

(** What [validateUploadedFile] accepts. *)
Lemma validateUploadedFile_accepts file :
  validateUploadedFile file = Returned true
  <-> exists f, file = Some f
                /\ (size f <= maxSize)%Z
                /\ In (mimetype f) allowedTypes.
Proof.
  unfold validateUploadedFile. split.
  - destruct file as [f |]; [| discriminate].
    destruct (size f >? maxSize)%Z eqn:Hsize; [discriminate |].
    destruct (includes allowedTypes (mimetype f)) eqn:Htype; [| discriminate].
    intros _. exists f. split; [reflexivity |]. split.
    + rewrite Z.gtb_ltb in Hsize. apply Z.ltb_ge. exact Hsize.
    + apply includes_In. exact Htype.
  - intros [f [-> [Hsize Htype]]].
    apply includes_In in Htype. rewrite Htype.
    destruct (size f >? maxSize)%Z eqn:Hgt; [| reflexivity].
    rewrite Z.gtb_ltb in Hgt. apply Z.ltb_lt in Hgt. lia.
Qed.

(** C5, at the input on which the code departs from it. A BMP file within
    the size limit passes the upload middleware's [fileFilter], yet
    [validateUploadedFile] throws "Invalid file type" for it, and the
    controller hands that error to [next] without processing the file;
    [validateUploadedFile] accepts exactly the present files of at most
    10 MiB whose type is one of jpeg, jpg, png, gif, webp. *)
Theorem validateUploadedFile_rejects_bmp :
  fileFilter bmp_upload = Returned true
  /\ (size bmp_upload <= 10 * 1024 * 1024)%Z
  /\ validateUploadedFile (Some bmp_upload)
     = Thrown (Error "Invalid file type. Only JPEG, PNG, GIF, and WebP images are allowed")
  /\ (forall (World : Type) (B : Builtins) (C : Collaborators World) (s : St World),
         result (uploadImages B C {| req_files := Some [bmp_upload]; req_file := None |} s)
         = Returned (Next (Error "Invalid file type. Only JPEG, PNG, GIF, and WebP images are allowed"))
         /\ final (uploadImages B C {| req_files := Some [bmp_upload];
                                       req_file := None |} s) = s)
  /\ (forall file,
         validateUploadedFile file = Returned true
         <-> exists f, file = Some f
                       /\ (size f <= 10 * 1024 * 1024)%Z
                       /\ In (mimetype f)
                             ["image/jpeg"; "image/jpg"; "image/png"; "image/gif";
                              "image/webp"]%string).
Proof.
  split; [reflexivity |].
  split; [cbn; lia |].
  split; [reflexivity |].
  split; [intros World B C s; split; reflexivity |].
  apply validateUploadedFile_accepts.
Qed.

(* ================================================================== *)
(** ** Query parameters *)
(* ================================================================== *)

Lemma Qle_bool_false p q : Qle_bool p q = false -> (q < p)%Q.
Proof.
  intros H. apply Qnot_le_lt. intros Hle.
  apply Qle_bool_iff in Hle. congruence.
Qed.

(** [Math.min(Math.max(n || d, lo), hi)] is a finite number of [lo..hi]. *)
Lemma clamp_in_range (n : number) (d lo hi : Q) :
  (lo <= hi)%Q ->
  exists q, Math_min (Math_max (js_or n (Fin d)) (Fin lo)) (Fin hi) = Fin q
            /\ (lo <= q <= hi)%Q.
Proof.
  intros Hlohi.
  assert (Hfin : forall p,
             exists q, Math_min (Math_max (Fin p) (Fin lo)) (Fin hi) = Fin q
                       /\ (lo <= q <= hi)%Q).
  { intros p. cbn [Math_max].
    destruct (Qle_bool p lo) eqn:Hplo; cbn [Math_min].
    - apply Qle_bool_iff in Hlohi. rewrite Hlohi. apply Qle_bool_iff in Hlohi.
      exists lo. split; [reflexivity |]. split; [apply Qle_refl | exact Hlohi].
    - apply Qle_bool_false in Hplo.
      destruct (Qle_bool p hi) eqn:Hphi.
      + apply Qle_bool_iff in Hphi.
        exists p. split; [reflexivity |]. split; [apply Qlt_le_weak; exact Hplo | exact Hphi].
      + exists hi. split; [reflexivity |]. split; [exact Hlohi | apply Qle_refl]. }
  assert (Hlo : exists q, Math_min (Fin lo) (Fin hi) = Fin q /\ (lo <= q <= hi)%Q).
  { cbn [Math_min]. apply Qle_bool_iff in Hlohi. rewrite Hlohi.
    apply Qle_bool_iff in Hlohi.
    exists lo. split; [reflexivity |]. split; [apply Qle_refl | exact Hlohi]. }
  assert (Hhi : exists q, Fin hi = Fin q /\ (lo <= q <= hi)%Q).
  { exists hi. split; [reflexivity |]. split; [exact Hlohi | apply Qle_refl]. }
  unfold js_or.
  destruct n as [| | | p]; cbn [truthy].
  - apply Hfin.
  - exact Hhi.
  - exact Hlo.
  - destruct (negb (Qeq_bool p 0)); apply Hfin.
Qed.

Section SearchFacts.
Context {World : Type}.
Variable B : Builtins.
Variable C : Collaborators World.

(** What a successful [searchImages] returns: the list the store
    answered to a query with these very parameters, untouched, its
    length, the query text and the parameters. *)
Lemma searchImages_Returned queryText limit scoreThreshold s d :
  result (searchImages C queryText (Some limit) (Some scoreThreshold) s) = Returned d ->
  (exists queryEmbedding w w',
      qdrant_searchSimilarImages C queryEmbedding limit scoreThreshold w
      = (Returned (sd_results d), w'))
  /\ d = {| sd_query := queryText;
            sd_results := sd_results d;
            sd_totalFound := List.length (sd_results d);
            sd_searchParams := {| sp_limit := limit;
                                  sp_scoreThreshold := scoreThreshold |} |}.
Proof.
  unfold searchImages.
  remember (initialize C) as initm.
  remember (processSearchQuery C queryText) as psqm.
  rewrite result_try_catch.
  match goal with
  | |- match result (?body s) with _ => _ end = _ -> _ =>
      destruct (result (body s)) as [d' | e] eqn:Hbody
  end.
  2: { run_known. discriminate. }
  intros H. inversion H. subst d'. clear H.
  revert Hbody. run_known. rewrite result_bind_get.
  assert (Hsearch :
            forall s0,
              result
                ((queryEmbedding <- psqm ;;
                  results <- external (searchSimilarImages_call queryEmbedding limit
                                                                scoreThreshold)
                                      (qdrant_searchSimilarImages C queryEmbedding limit
                                                                  scoreThreshold) ;;
                  console_log [LStr ("Search completed: found "
                                     ++ string_of_nat (List.length results)
                                     ++ " matching images")%string] ;;
                  ret {| sd_query := queryText;
                         sd_results := results;
                         sd_totalFound := List.length results;
                         sd_searchParams := {| sp_limit := limit;
                                               sp_scoreThreshold := scoreThreshold |} |})
                   s0) = Returned d ->
              (exists queryEmbedding w w',
                  qdrant_searchSimilarImages C queryEmbedding limit scoreThreshold w
                  = (Returned (sd_results d), w'))
              /\ d = {| sd_query := queryText;
                        sd_results := sd_results d;
                        sd_totalFound := List.length (sd_results d);
                        sd_searchParams := {| sp_limit := limit;
                                              sp_scoreThreshold := scoreThreshold |} |}).
  { intros s0. rewrite result_bind.
    destruct (result (psqm s0)) as [v | e]; [| discriminate].
    rewrite result_bind_external.
    destruct (qdrant_searchSimilarImages C v limit scoreThreshold
                                         (world (final (psqm s0))))
      as [[r | e] w'] eqn:Hq; cbn [fst snd]; [| discriminate].
    run_known. intros H. inversion H. cbn [sd_results].
    split; [| reflexivity].
    exists v, (world (final (psqm s0))), w'. exact Hq. }
  destruct (isInitialized s).
  - run_known. apply Hsearch.
  - rewrite result_bind.
    destruct (result (initm s)) as [[] | e]; [| discriminate].
    apply Hsearch.
Qed.

(** The parameters [queryImages] searches with. *)
Lemma queryImages_searchParams body s statusCode ok msg code d :
  result (queryImages B C body s) = Returned (Json statusCode ok msg code (Some d)) ->
  sd_searchParams d
  = {| sp_limit := searchLimit B (with_default (body_limit body) (VNum (Fin 10)));
       sp_scoreThreshold :=
         threshold B (with_default (body_scoreThreshold body)
                                   (VNum (Fin (7 # 10)))) |}.
Proof.
  unfold queryImages.
  destruct (body_query body) as [| | b | n | q |];
    try (run_known; discriminate).
  destruct (String.eqb q EmptyString || (String.length (String_trim B q) =? 0)%nat)%bool;
    [run_known; discriminate |].
  remember (searchImages C (String_trim B q)
              (Some (searchLimit B (with_default (body_limit body) (VNum (Fin 10)))))
              (Some (threshold B (with_default (body_scoreThreshold body)
                                               (VNum (Fin (7 # 10))))))) as searchm.
  run.
  destruct (result (searchm s)) as [d' | e] eqn:Hd; run_known; [| discriminate].
  intros H. inversion H. subst d'. subst searchm.
  apply searchImages_Returned in Hd. destruct Hd as [_ Hd].
  rewrite Hd. reflexivity.
Qed.
End SearchFacts.

(** C6. Whatever [limit] and [scoreThreshold] the body of a query carries
    -- any JSON value or none --, and whatever [parseInt] and [parseFloat]
    make of them, the limit the search is run with is a number of [1..50]
    and the threshold a number of [0..1]; these are the parameters
    [queryImages] passes to [searchImages]. With [parseInt(10) = 10] and
    [parseFloat(0.7) = 0.7], as in JavaScript, an absent limit gives 10 and
    an absent threshold 0.7. *)
Theorem query_parameters_clamped :
  forall (B : Builtins),
    parseInt B (VNum (Fin 10)) = Fin 10 ->
    parseFloat B (VNum (Fin (7 # 10))) = Fin (7 # 10) ->
    forall (World : Type) (C : Collaborators World) (body : QueryBody) (s : St World),
      let limit := searchLimit B (with_default (body_limit body) (VNum (Fin 10))) in
      let thr := threshold B (with_default (body_scoreThreshold body)
                                           (VNum (Fin (7 # 10)))) in
      (exists q, limit = Fin q /\ (1 <= q <= 50)%Q)
      /\ (exists q, thr = Fin q /\ (0 <= q <= 1)%Q)
      /\ (body_limit body = VUndefined -> limit = Fin 10)
      /\ (body_scoreThreshold body = VUndefined -> thr = Fin (7 # 10))
      /\ (forall statusCode ok msg code d,
             result (queryImages B C body s)
             = Returned (Json statusCode ok msg code (Some d)) ->
             sd_searchParams d = {| sp_limit := limit; sp_scoreThreshold := thr |}).
Proof.
  intros B Hint Hfloat World C body s limit thr.
  split; [apply clamp_in_range; discriminate |].
  split; [apply clamp_in_range; discriminate |].
  split.
  { intros H. subst limit. rewrite H. cbn [with_default].
    unfold searchLimit. rewrite Hint. reflexivity. }
  split.
  { intros H. subst thr. rewrite H. cbn [with_default].
    unfold threshold. rewrite Hfloat. reflexivity. }
  intros statusCode ok msg code d H.
  apply (queryImages_searchParams B C body s H).
Qed.

(* ================================================================== *)
(** ** The store's query honours the contract *)
(* ================================================================== *)

Lemma num_le_not_lt (t : number) (x : Q) :
  num_le t (Fin x) = true -> num_lt (Fin x) t = false.
Proof.
  destruct t as [| | | q]; cbn; try discriminate; try reflexivity.
  intros H. rewrite H. reflexivity.
Qed.

Section StoreFacts.
Variable similarity : Vector -> Vector -> Q.

Lemma rank_insert_Forall (P : SearchHit -> Prop) h l :
  P h -> Forall P l -> Forall P (rank_insert h l).
Proof.
  intros Hh. induction 1 as [| x rest Hx Hrest IH]; cbn [rank_insert].
  - constructor; [exact Hh | constructor].
  - destruct (Qle_bool (score x) (score h)).
    + constructor; [exact Hh |]. constructor; assumption.
    + constructor; assumption.
Qed.

Lemma rank_insert_sorted h l :
  StronglySorted desc l -> StronglySorted desc (rank_insert h l).
Proof.
  induction 1 as [| x rest Hsorted IH Hx]; cbn [rank_insert].
  - constructor; constructor.
  - destruct (Qle_bool (score x) (score h)) eqn:Hxh.
    + apply Qle_bool_iff in Hxh.
      constructor; [constructor; assumption |].
      constructor; [exact Hxh |].
      eapply Forall_impl; [| exact Hx].
      intros y Hy. unfold desc in *. eapply Qle_trans; eassumption.
    + apply Qle_bool_false in Hxh.
      constructor; [exact IH |].
      apply rank_insert_Forall; [| exact Hx].
      unfold desc. apply Qlt_le_weak. exact Hxh.
Qed.

Lemma rank_sorted l : StronglySorted desc (rank l).
Proof.
  induction l as [| h rest IH]; cbn.
  - constructor.
  - apply rank_insert_sorted. exact IH.
Qed.

Lemma rank_Forall (P : SearchHit -> Prop) l : Forall P l -> Forall P (rank l).
Proof.
  induction 1 as [| h rest Hh Hrest IH]; cbn.
  - constructor.
  - apply rank_insert_Forall; assumption.
Qed.

Lemma firstn_sorted n : forall l, StronglySorted desc l -> StronglySorted desc (firstn n l).
Proof.
  induction n as [| n IH]; intros l Hl.
  - constructor.
  - destruct Hl as [| x rest Hsorted Hx]; cbn [firstn].
    + constructor.
    + constructor; [apply IH; exact Hsorted |].
      apply Forall_forall. intros y Hy.
      rewrite Forall_forall in Hx. apply Hx.
      rewrite <- (firstn_skipn n rest). apply in_or_app. left. exact Hy.
Qed.

Lemma firstn_Forall (P : SearchHit -> Prop) n l : Forall P l -> Forall P (firstn n l).
Proof.
  intros H. apply Forall_forall. intros y Hy.
  rewrite Forall_forall in H. apply H.
  rewrite <- (firstn_skipn n l). apply in_or_app. left. exact Hy.
Qed.

Lemma up_to_nonneg limit l :
  num_le (Fin 0) limit = true ->
  at_most limit (up_to limit l).
Proof.
  unfold at_most.
  destruct limit as [| | | q]; cbn [num_le up_to]; try discriminate; try reflexivity.
  intros Hq. apply Qle_bool_iff in Hq. apply Qle_bool_iff.
  apply Qle_trans with (inject_Z (Qfloor q)); [| apply Qfloor_le].
  rewrite <- Zle_Qle.
  assert (H0 : (0 <= Qfloor q)%Z).
  { change 0%Z with (Qfloor 0). apply Qfloor_resp_le. exact Hq. }
  pose proof (firstn_le_length (Z.to_nat (Qfloor q)) l). lia.
Qed.

(** The store's query, as the specification words it, honours the
    contract for every non-negative limit. *)
Lemma store_query_honors_contract points queryEmbedding limit scoreThreshold :
  num_le (Fin 0) limit = true ->
  honors_contract limit scoreThreshold
                  (store_query similarity points queryEmbedding limit scoreThreshold).
Proof.
  intros Hlimit. unfold honors_contract, store_query.
  set (kept := filter (fun h => num_le scoreThreshold (Fin (score h)))
                      (map (hit_of similarity queryEmbedding) points)).
  assert (Hkept : Forall (fun h => num_lt (Fin (score h)) scoreThreshold = false)
                         (rank kept)).
  { apply rank_Forall. apply Forall_forall. intros h Hh.
    subst kept. apply filter_In in Hh. apply num_le_not_lt. apply Hh. }
  split; [| split].
  - unfold ranked. destruct limit; cbn [up_to];
      try constructor; [apply rank_sorted | apply firstn_sorted, rank_sorted].
  - unfold above_threshold. destruct limit; cbn [up_to];
      try constructor; [exact Hkept | apply firstn_Forall; exact Hkept].
  - apply up_to_nonneg. exact Hlimit.
Qed.
End StoreFacts.

(** C8. For every search that completes successfully, the result list is
    the list the vector store answered to the query with the given limit
    and threshold, unmodified; so, when the store honours the delegated
    contract on that query, the results are sorted by non-increasing score,
    none scores below [scoreThreshold], and there are at most [limit] of
    them. *)
Theorem search_results_ranked_and_bounded :
  forall (World : Type) (C : Collaborators World)
         (queryText : string) (limit scoreThreshold : number),
    (forall queryEmbedding w r w',
        qdrant_searchSimilarImages C queryEmbedding limit scoreThreshold w
        = (Returned r, w') ->
        honors_contract limit scoreThreshold r) ->
    forall (s : St World) (d : SearchData),
      result (searchImages C queryText (Some limit) (Some scoreThreshold) s)
      = Returned d ->
      (exists queryEmbedding w w',
          qdrant_searchSimilarImages C queryEmbedding limit scoreThreshold w
          = (Returned (sd_results d), w'))
      /\ StronglySorted (fun a b => (score b <= score a)%Q) (sd_results d)
      /\ Forall (fun h => num_lt (Fin (score h)) scoreThreshold = false) (sd_results d)
      /\ num_le (Fin (inject_Z (Z.of_nat (List.length (sd_results d))))) limit = true
      /\ sd_totalFound d = List.length (sd_results d).
Proof.
  intros World C queryText limit scoreThreshold Hstore s d Hd.
  destruct (searchImages_Returned C queryText limit scoreThreshold s Hd)
    as [[v [w [w' Hq]]] Hshape].
  destruct (Hstore v w (sd_results d) w' Hq) as (Hranked & Habove & Hmost).
  split; [exists v, w, w'; exact Hq |].
  split; [exact Hranked |].
  split; [exact Habove |].
  split; [exact Hmost |].
  rewrite Hshape. reflexivity.
Qed.

(* ================================================================== *)
(** ** Search suggestions *)
(* ================================================================== *)

Module SuggestionFacts.
Import QueryService SuggestionSpec.

Lemma keep_first_ext l :
  forall seen seen',
    (forall x, In x seen <-> In x seen') ->
    keep_first seen l = keep_first seen' l.
Proof.
  induction l as [| x rest IH]; intros seen seen' Hsame; cbn [keep_first].
  - reflexivity.
  - destruct (in_dec jsstring_eq_dec x seen) as [Hin | Hout],
             (in_dec jsstring_eq_dec x seen') as [Hin' | Hout'].
    + apply IH. exact Hsame.
    + exfalso. apply Hout'. apply Hsame. exact Hin.
    + exfalso. apply Hout. apply Hsame. exact Hin'.
    + f_equal. apply IH. intros y. cbn [In]. rewrite (Hsame y). reflexivity.
Qed.

(** A [Set] built by successive [add]s keeps the first occurrences. *)
Lemma fold_Set_add l :
  forall set, fold_left Set_add l set = set ++ keep_first set l.
Proof.
  induction l as [| x rest IH]; intros set; cbn [fold_left keep_first].
  - rewrite app_nil_r. reflexivity.
  - unfold Set_add at 2.
    destruct (in_dec jsstring_eq_dec x set) as [Hin | Hout].
    + apply IH.
    + rewrite IH. unfold push. rewrite <- app_assoc. cbn [app].
      do 2 f_equal. apply keep_first_ext.
      intros y. rewrite in_app_iff. cbn [In]. tauto.
Qed.

Lemma new_Set_keep_first l : new_Set l = keep_first [] l.
Proof. unfold new_Set. rewrite fold_Set_add. reflexivity. Qed.

Lemma keep_first_fresh l :
  forall seen x, In x (keep_first seen l) -> ~ In x seen.
Proof.
  induction l as [| y rest IH]; intros seen x; cbn [keep_first].
  - intros [].
  - destruct (in_dec jsstring_eq_dec y seen) as [Hin | Hout].
    + apply IH.
    + intros [-> | Hx]; [exact Hout |].
      intros Hseen. apply (IH _ _ Hx). right. exact Hseen.
Qed.

Lemma keep_first_NoDup l : forall seen, NoDup (keep_first seen l).
Proof.
  induction l as [| y rest IH]; intros seen; cbn [keep_first].
  - constructor.
  - destruct (in_dec jsstring_eq_dec y seen) as [Hin | Hout].
    + apply IH.
    + constructor; [| apply IH].
      intros Hy. apply (keep_first_fresh _ _ _ Hy). left. reflexivity.
Qed.

Lemma firstn_NoDup {A} n (l : list A) : NoDup l -> NoDup (firstn n l).
Proof.
  intros H. rewrite <- (firstn_skipn n l) in H.
  apply NoDup_app_remove_r in H. exact H.
Qed.

(** The loop pushing the long words appends the filtered words. *)
Lemma forEach_push_long words :
  forall suggestions : list jsstring,
    fold_left (fun suggestions word =>
                 if (3 <? List.length word)%nat then push suggestions word
                 else suggestions)
              words suggestions
    = suggestions ++ filter (fun word => (3 <? List.length word)%nat) words.
Proof.
  induction words as [| word rest IH]; intros suggestions; cbn [fold_left filter].
  - rewrite app_nil_r. reflexivity.
  - rewrite IH. destruct (3 <? List.length word)%nat.
    + unfold push. rewrite <- app_assoc. reflexivity.
    + reflexivity.
Qed.

Section WithEnv.
Context {World : Type}.
Variable E : Env World.

Lemma generateSearchSuggestions_formula query :
  generateSearchSuggestions E query = suggestions_formula (toLowerCase E) query.
Proof.
  unfold generateSearchSuggestions, suggestions_formula, slice0.
  rewrite forEach_push_long, new_Set_keep_first. reflexivity.
Qed.

Lemma generateSearchSuggestions_fixed query :
  generateSearchSuggestions E query
  = [lit "landscape"; lit "people"; lit "nature"; lit "city"; lit "sunset"].
Proof.
  rewrite generateSearchSuggestions_formula.
  unfold suggestions_formula.
  generalize (filter (fun word => (3 <? List.length word)%nat)
                     (split 32 (toLowerCase E query))).
  intros words. reflexivity.
Qed.

Lemma post_run url body w :
  post E url body w
  = {| result := Returned (fst (axios_post E url body w));
       final := snd (axios_post E url body w);
       emitted := [Call (axios_post_call url)] |}.
Proof. unfold post. destruct (axios_post E url body w); reflexivity. Qed.

(** [searchImages] always answers. *)
Lemma searchImages_answers query options w :
  exists r, result (searchImages E query options w) = Returned r.
Proof.
  unfold searchImages. run_known.
  rewrite result_bind, post_run. cbn [result final].
  match goal with
  | |- context [fst ?p] => destruct (fst p) as [error | data]
  end.
  - run_known. destruct (ae_response error); run_known; eexists; reflexivity.
  - run_known. eexists; reflexivity.
Qed.

(** [searchWithSuggestions] is [searchImages] followed by a pure step. *)
Lemma searchWithSuggestions_run query options w :
  let base := searchImages E query options w in
  forall r, result base = Returned r ->
            searchWithSuggestions E query options w
            = {| result := Returned
                             {| response := r;
                                suggestions :=
                                  if attaches r
                                  then Some (generateSearchSuggestions E query)
                                  else None |};
                 final := final base;
                 emitted := emitted base |}.
Proof.
  cbv zeta. intros r Hr. unfold searchWithSuggestions.
  remember (searchImages E query options) as basem.
  apply Run_ext.
  - rewrite result_bind, Hr. fold (attaches r).
    destruct (attaches r); reflexivity.
  - rewrite final_bind, Hr. fold (attaches r).
    destruct (attaches r); reflexivity.
  - rewrite emitted_bind, Hr. fold (attaches r).
    destruct (attaches r); cbn [emitted ret]; apply app_nil_r.
Qed.
End WithEnv.
End SuggestionFacts.

Lemma searchImages_one_call {World} (E : QueryService.Env World) query options w :
  count is_call (emitted (QueryService.searchImages E query options w)) = 1%nat.
Proof.
  unfold QueryService.searchImages. run_known.
  rewrite emitted_bind, SuggestionFacts.post_run. cbn [result final emitted].
  match goal with
  | |- context [fst ?p] => destruct (fst p) as [error | data]
  end.
  - run_known. destruct (QueryService.ae_response error); run_known; reflexivity.
  - run_known. reflexivity.
Qed.

Lemma is_zero_length (n : nat) :
  QueryService.is_zero (Fin (inject_Z (Z.of_nat n))) = true -> n = 0%nat.
Proof.
  cbn [QueryService.is_zero]. intros H. apply Qeq_bool_iff in H.
  unfold Qeq in H. cbn in H. lia.
Qed.

(** C7. A search through [searchWithSuggestions] issues the single request
    of [searchImages] and nothing more. Suggestions are attached exactly
    when the search succeeded with [totalFound] equal to 0 -- so, the
    backend reporting the length of the result list as [totalFound], only
    when the result list is empty --, and the attached list is then the
    broad terms followed by every word of the lower-cased query longer
    than 3 characters, deduplicated keeping first occurrences and cut to
    5 entries: it has no duplicates and at most 5 entries. *)
Theorem suggestions_attached_on_empty_results :
  forall (World : Type) (E : QueryService.Env World)
         (query : jsstring) (options : QueryService.QueryOptions) (w : World),
    let run := QueryService.searchWithSuggestions E query options w in
    let base := QueryService.searchImages E query options w in
    exists r sr,
      result base = Returned r
      /\ result run = Returned sr
      /\ QueryService.response sr = r
      /\ final run = final base
      /\ emitted run = emitted base
      /\ count is_call (emitted run) = 1%nat
      /\ (forall d,
             QueryService.qr_success r = true ->
             QueryService.qr_data r = Some d ->
             QueryService.is_zero (QueryService.qd_totalFound d) = true ->
             QueryService.suggestions sr
             = Some (SuggestionSpec.suggestions_formula (QueryService.toLowerCase E) query))
      /\ (forall l,
             QueryService.suggestions sr = Some l ->
             QueryService.qr_success r = true
             /\ (exists d,
                    QueryService.qr_data r = Some d
                    /\ QueryService.is_zero (QueryService.qd_totalFound d) = true
                    /\ (QueryService.qd_totalFound d
                        = Fin (inject_Z (Z.of_nat (List.length (QueryService.qd_results d)))) ->
                        QueryService.qd_results d = []))
             /\ l = SuggestionSpec.suggestions_formula (QueryService.toLowerCase E) query
             /\ NoDup l
             /\ (List.length l <= 5)%nat).
Proof.
  intros World E query options w run base.
  destruct (SuggestionFacts.searchImages_answers E query options w) as [r Hr].
  pose proof (@SuggestionFacts.searchWithSuggestions_run World E query options w r Hr) as Hrun.
  fold run in Hrun. fold base in Hrun.
  exists r. eexists. split; [exact Hr |].
  split; [rewrite Hrun; reflexivity |].
  split; [reflexivity |].
  split; [rewrite Hrun; reflexivity |].
  split; [rewrite Hrun; reflexivity |].
  split; [rewrite Hrun; apply searchImages_one_call |].
  cbn [QueryService.suggestions].
  rewrite SuggestionFacts.generateSearchSuggestions_formula.
  unfold SuggestionSpec.attaches.
  split.
  - intros d Hok Hd Hzero. rewrite Hok, Hd, Hzero. reflexivity.
  - intros l Hl.
    destruct (QueryService.qr_success r); [| discriminate].
    destruct (QueryService.qr_data r) as [d |]; [| discriminate].
    destruct (QueryService.is_zero (QueryService.qd_totalFound d)) eqn:Hzero;
      [| discriminate].
    cbn [andb] in Hl. inversion Hl as [Hl']. clear Hl.
    split; [reflexivity |].
    split.
    { exists d. split; [reflexivity |]. split; [exact Hzero |].
      intros Htotal. rewrite Htotal in Hzero. apply is_zero_length in Hzero.
      destruct (QueryService.qd_results d); [reflexivity | discriminate]. }
    split; [reflexivity |].
    unfold SuggestionSpec.suggestions_formula. split.
    + apply SuggestionFacts.firstn_NoDup, SuggestionFacts.keep_first_NoDup.
    + apply firstn_le_length.
Qed.

(** C10. For every query string, [generateSearchSuggestions] returns the
    same five-element list [landscape, people, nature, city, sunset]: the
    six distinct fixed terms come first and the list is cut to 5, so the
    result is the same for any two queries, whatever lower-casing does,
    and every suggestion is one of these fixed terms: no entry is ever
    taken from the query. *)
Theorem suggestions_ignore_the_query :
  forall (World : Type) (E : QueryService.Env World),
    (forall query : jsstring,
        QueryService.generateSearchSuggestions E query
        = [lit "landscape"; lit "people"; lit "nature"; lit "city"; lit "sunset"])
    /\ (forall q1 q2 : jsstring,
           QueryService.generateSearchSuggestions E q1
           = QueryService.generateSearchSuggestions E q2)
    /\ (forall query : jsstring,
           Forall (fun suggestion =>
                     In suggestion (firstn 5 SuggestionSpec.broad_terms))
                  (QueryService.generateSearchSuggestions E query))
    /\ NoDup SuggestionSpec.broad_terms
    /\ List.length SuggestionSpec.broad_terms = 6%nat.
Proof.
  intros World E.
  split; [apply SuggestionFacts.generateSearchSuggestions_fixed |].
  split.
  { intros q1 q2. rewrite !SuggestionFacts.generateSearchSuggestions_fixed. reflexivity. }
  split.
  { intros query. rewrite SuggestionFacts.generateSearchSuggestions_fixed.
    apply Forall_forall. intros x Hx. exact Hx. }
  split; [| reflexivity].
  change SuggestionSpec.broad_terms
    with (SuggestionSpec.keep_first [] SuggestionSpec.broad_terms).
  apply SuggestionFacts.keep_first_NoDup.
Qed.

(* ================================================================== *)
(** ** The theorems at work on the sample world *)
(* ================================================================== *)

(** A batch of two files of which the second cannot be read. *)
Lemma batch_never_raises_witness :
  exists b,
    result (processMultipleImages sample_builtins sample_collaborators
                                  [sample_file "a.png"; sample_file "b.png"]
                                  (sample_state ["a.png"] true true))
    = Returned b
    /\ In {| failed_filename := "b.png";
             failed_error := "ENOENT: no such file or directory" |} (failed b).
Proof.
  apply (proj2 (batch_never_raises sample_builtins sample_collaborators)
               [sample_file "a.png"] [] (sample_file "b.png")
               (sample_state ["a.png"] true true) unreadable_image).
  vm_compute. reflexivity.
Defined.

(** The vector store is unreachable for the whole batch, and so is -- in
    the second run -- the OpenAI configuration: [processMultipleImages]
    does not raise; it returns, with the fault recorded once per file in
    the failure list. *)
Lemma store_outage_recorded_per_item :
  (forall w data,
      store_up w = false ->
      fst (qdrant_initializeCollection sample_collaborators w) = Thrown store_unreachable
      /\ fst (qdrant_storeImageEmbedding sample_collaborators data w)
         = Thrown store_unreachable)
  /\ result (processMultipleImages sample_builtins sample_collaborators
                                   [sample_file "a.png"; sample_file "b.png"]
                                   (sample_state ["a.png"; "b.png"] false true))
     = Returned {| successful := [];
                   failed := [{| failed_filename := "a.png";
                                 failed_error := message store_unreachable |};
                              {| failed_filename := "b.png";
                                 failed_error := message store_unreachable |}];
                   totalProcessed := 0;
                   totalFailed := 2 |}
  /\ result (processMultipleImages sample_builtins sample_collaborators
                                   [sample_file "a.png"; sample_file "b.png"]
                                   (sample_state ["a.png"; "b.png"] true false))
     = Returned {| successful := [];
                   failed := [{| failed_filename := "a.png";
                                 failed_error := message invalid_api_key |};
                              {| failed_filename := "b.png";
                                 failed_error := message invalid_api_key |}];
                   totalProcessed := 0;
                   totalFailed := 2 |}
  /\ ~ (exists e,
           result (processMultipleImages sample_builtins sample_collaborators
                                         [sample_file "a.png"; sample_file "b.png"]
                                         (sample_state ["a.png"; "b.png"] false true))
           = Thrown e).
Proof.
  split.
  { intros w data Hdown. cbn. rewrite Hdown. split; reflexivity. }
  split; [vm_compute; reflexivity |].
  split; [vm_compute; reflexivity |].
  intros [e He]. vm_compute in He. discriminate.
Qed.

(** One upload on a file system whose every operation fails. *)
Lemma cleanup_exactly_once_and_swallowed_witness :
  let C := with_fs sample_collaborators broken_pathExists broken_unlink in
  let run := processUploadedImage sample_builtins C "uploads/a.png" "a.png"
                                  (sample_state ["a.png"] true true) in
  In (Console_error [LStr "Error cleaning up file uploads/a.png:";
                     LErr broken_fs_error])
     (emitted run)
  /\ count (is_pathExists "uploads/a.png") (emitted run) = 1%nat
  /\ result run
     = result (processUploadedImage sample_builtins sample_collaborators
                                    "uploads/a.png" "a.png"
                                    (sample_state ["a.png"] true true)).
Proof.
  intros C run.
  destruct (cleanup_exactly_once_and_swallowed
              sample_builtins C "uploads/a.png" "a.png"
              (sample_state ["a.png"] true true))
    as (_ & _ & Hcount & _ & _ & _ & _ & Hlog & _ & _).
  split.
  { apply (Hlog broken_fs_error
                (world (final (processAndStore sample_builtins C "uploads/a.png" "a.png"
                                               (sample_state ["a.png"] true true))))).
    left. reflexivity. }
  split; [exact Hcount |].
  symmetry.
  apply (cleanup_exactly_once_and_swallowed
           sample_builtins sample_collaborators "uploads/a.png" "a.png"
           (sample_state ["a.png"] true true)).
Defined.

(** A query asking for 100 results and no threshold. *)
Lemma query_parameters_clamped_witness :
  let body := {| body_query := VStr "sunset over mountains";
                 body_limit := VNum (Fin 100);
                 body_scoreThreshold := VUndefined |} in
  parseInt sample_builtins (VNum (Fin 10)) = Fin 10
  /\ parseFloat sample_builtins (VNum (Fin (7 # 10))) = Fin (7 # 10)
  /\ (exists q,
         searchLimit sample_builtins (with_default (body_limit body) (VNum (Fin 10)))
         = Fin q /\ (1 <= q <= 50)%Q)
  /\ threshold sample_builtins
               (with_default (body_scoreThreshold body) (VNum (Fin (7 # 10))))
     = Fin (7 # 10).
Proof.
  intros body.
  split; [reflexivity |]. split; [reflexivity |].
  destruct (query_parameters_clamped
              sample_builtins eq_refl eq_refl sample_collaborators body
              (sample_state [] true true))
    as (Hlimit & _ & _ & Hdefault & _).
  split; [exact Hlimit |].
  apply Hdefault. reflexivity.
Defined.

(** A search the sample server answers with no result. *)
Lemma suggestions_attached_on_empty_results_witness :
  exists sr,
    result (QueryService.searchWithSuggestions
              SuggestionSpec.sample_env (lit "Sunset over mountains")
              {| QueryService.opt_limit := Some (Fin 5);
                 QueryService.opt_scoreThreshold := None |} tt)
    = Returned sr
    /\ QueryService.suggestions sr
       = Some (SuggestionSpec.suggestions_formula
                 (fun s => s) (lit "Sunset over mountains"))
    /\ (forall l, QueryService.suggestions sr = Some l ->
                  NoDup l /\ (List.length l <= 5)%nat).
Proof.
  destruct (suggestions_attached_on_empty_results
              SuggestionSpec.sample_env (lit "Sunset over mountains")
              {| QueryService.opt_limit := Some (Fin 5);
                 QueryService.opt_scoreThreshold := None |} tt)
    as (r & sr & Hr & Hrun & _ & _ & _ & _ & Hattach & Hprops).
  exists sr. split; [exact Hrun |].
  vm_compute in Hr. inversion Hr as [Hr']. subst r.
  split.
  { eapply Hattach; reflexivity. }
  intros l Hl. destruct (Hprops l Hl) as (_ & _ & _ & Hnodup & Hlen).
  split; assumption.
Defined.

Lemma sample_store_honors_contract limit scoreThreshold :
  num_le (Fin 0) limit = true ->
  forall queryEmbedding w r w',
    qdrant_searchSimilarImages sample_collaborators queryEmbedding limit scoreThreshold w
    = (Returned r, w') ->
    honors_contract limit scoreThreshold r.
Proof.
  intros Hlimit queryEmbedding w r w' H. cbn in H.
  destruct (store_up w); inversion H.
  apply store_query_honors_contract. exact Hlimit.
Qed.

Lemma search_results_ranked_and_bounded_witness :
  exists d,
    result (searchImages sample_collaborators "sunset over mountains"
                         (Some (Fin 5)) (Some (Fin (7 # 10))) scenario_state)
    = Returned d
    /\ map hit_id (sd_results d) = ["point-0"]
    /\ StronglySorted (fun a b => (score b <= score a)%Q) (sd_results d)
    /\ Forall (fun h => num_lt (Fin (score h)) (Fin (7 # 10)) = false) (sd_results d)
    /\ num_le (Fin (inject_Z (Z.of_nat (List.length (sd_results d))))) (Fin 5) = true.
Proof.
  eexists. split; [vm_compute; reflexivity |].
  split; [reflexivity |].
  match goal with
  | |- StronglySorted _ (sd_results ?d) /\ _ =>
      assert (Hd : result (searchImages sample_collaborators "sunset over mountains"
                                        (Some (Fin 5)) (Some (Fin (7 # 10))) scenario_state)
                   = Returned d) by (vm_compute; reflexivity);
      destruct (@search_results_ranked_and_bounded
                  SampleWorld sample_collaborators "sunset over mountains"
                  (Fin 5) (Fin (7 # 10))
                  (@sample_store_honors_contract (Fin 5) (Fin (7 # 10)) eq_refl)
                  scenario_state d Hd)
        as (_ & Hranked & Habove & Hmost & _)
  end.
  split; [exact Hranked |]. split; [exact Habove | exact Hmost].
Defined.

(** One valid PNG, uploaded alone. *)
Lemma single_upload_agrees_with_batch_of_one_witness :
  let file := sample_file "a.png" in
  let s := sample_state ["a.png"] true true in
  validateUploadedFile (Some file) = Returned true
  /\ exists item,
       result (processUploadedImage sample_builtins sample_collaborators
                                    (path file) (originalname file) s)
       = Returned item
       /\ result (uploadImages sample_builtins sample_collaborators
                               {| req_files := Some [file]; req_file := None |} s)
          = Returned (Json 200 true "Image uploaded and processed successfully" None
                           (Some (SingleData item)))
       /\ exists b,
            result (processMultipleImages sample_builtins sample_collaborators [file] s)
            = Returned b
            /\ successful b = [item].
Proof.
  intros file s.
  split; [reflexivity |].
  eexists. split; [vm_compute; reflexivity |].
  match goal with
  | |- _ = Returned (Json _ _ _ _ (Some (SingleData ?item))) /\ _ =>
      assert (Hitem : result (processUploadedImage sample_builtins sample_collaborators
                                                   (path file) (originalname file) s)
                      = Returned item) by (vm_compute; reflexivity);
      destruct (@single_upload_agrees_with_batch_of_one
                  SampleWorld sample_builtins sample_collaborators
                  {| req_files := Some [file]; req_file := None |} file s
                  (or_introl eq_refl) eq_refl item Hitem)
        as (Hsingle & (b & Hb & Hsucc & _) & _)
  end.
  split; [exact Hsingle |]. exists b. split; assumption.
Defined.

(* ================================================================== *)
(** ** The lazy initialisation *)
(* ================================================================== *)

Lemma stays_ret {World A} (a : A) : stays_initialized (@ret (St World) A a).
Proof. intros s H. split; [exact H | constructor]. Qed.

Lemma stays_throw {World A} e : stays_initialized (@throw (St World) A e).
Proof. intros s H. split; [exact H | constructor]. Qed.

Lemma stays_emit {World} ev :
  is_init_call ev = false -> stays_initialized (@emit (St World) ev).
Proof. intros Hev s H. split; [exact H |]. constructor; [exact Hev | constructor]. Qed.

Lemma stays_bind {World A A'} (m : M (St World) A) (k : A -> M (St World) A') :
  stays_initialized m -> (forall a, stays_initialized (k a)) ->
  stays_initialized (bind m k).
Proof.
  intros Hm Hk s H. destruct (Hm s H) as [Hm1 Hm2]. unfold bind.
  destruct (result (m s)) as [a | e]; cbn [final emitted].
  - destruct (Hk a (final (m s)) Hm1) as [Hk1 Hk2].
    split; [exact Hk1 | apply Forall_app; split; assumption].
  - split; assumption.
Qed.

Lemma stays_try_catch {World A} (body : M (St World) A) handler :
  stays_initialized body -> (forall e, stays_initialized (handler e)) ->
  stays_initialized (try_catch body handler).
Proof.
  intros Hb Hh s H. destruct (Hb s H) as [Hb1 Hb2]. unfold try_catch.
  destruct (result (body s)) as [a | e]; cbn [final emitted].
  - split; assumption.
  - destruct (Hh e (final (body s)) Hb1) as [Hh1 Hh2].
    split; [exact Hh1 | apply Forall_app; split; assumption].
Qed.

Lemma stays_external {World A} c (f : World -> outcome A * World) :
  is_init_call (Call c) = false -> stays_initialized (external c f).
Proof.
  intros Hc s H. unfold external. destruct (f (world s)) as [o w].
  cbn [final emitted isInitialized].
  split; [exact H |]. constructor; [exact Hc | constructor].
Qed.

(** On an initialised service the guard [if (!this.isInitialized)] skips
    the initialisation. *)
Lemma stays_guard {World A} (C : Collaborators World) (k : unit -> M (St World) A) :
  stays_initialized (k tt) ->
  stays_initialized
    (bind get_isInitialized
          (fun initialized =>
             bind (if (initialized : bool) then ret tt else initialize C) k)).
Proof.
  intros Hk s H. destruct (Hk s H) as [Hk1 Hk2].
  unfold bind, get_isInitialized. cbn [result final emitted].
  rewrite H. cbn [result final emitted ret app].
  split; assumption.
Qed.

(** Runs that begin with a call whose outcome is known, or with an
    assignment to [isInitialized]. *)
Section ExternalRuns.
Context {World A A' : Type}.
Variable c : call.
Variable f : World -> outcome A' * World.
Variable k : A' -> M (St World) A.

Lemma external_Returned s a w :
  f (world s) = (Returned a, w) ->
  bind (external c f) k s
  = {| result := result (k a (after_call s w));
       final := final (k a (after_call s w));
       emitted := Call c :: emitted (k a (after_call s w)) |}.
Proof. intros H. unfold bind, external. rewrite H. reflexivity. Qed.

Lemma external_Thrown s e w :
  f (world s) = (Thrown e, w) ->
  bind (external c f) k s
  = {| result := Thrown e; final := after_call s w; emitted := [Call c] |}.
Proof. intros H. unfold bind, external. rewrite H. reflexivity. Qed.
End ExternalRuns.

Lemma result_record {S A} (o : outcome A) (s : S) evs :
  result {| result := o; final := s; emitted := evs |} = o.
Proof. reflexivity. Qed.

Lemma final_record {S A} (o : outcome A) (s : S) evs :
  final {| result := o; final := s; emitted := evs |} = s.
Proof. reflexivity. Qed.

Lemma emitted_record {S A} (o : outcome A) (s : S) evs :
  emitted {| result := o; final := s; emitted := evs |} = evs.
Proof. reflexivity. Qed.

Lemma result_bind_set {World A} b (k : unit -> M (St World) A) s :
  result (bind (set_isInitialized b) k s)
  = result (k tt {| world := world s; isInitialized := b |}).
Proof. reflexivity. Qed.

Lemma final_bind_set {World A} b (k : unit -> M (St World) A) s :
  final (bind (set_isInitialized b) k s)
  = final (k tt {| world := world s; isInitialized := b |}).
Proof. reflexivity. Qed.

Lemma emitted_bind_set {World A} b (k : unit -> M (St World) A) s :
  emitted (bind (set_isInitialized b) k s)
  = emitted (k tt {| world := world s; isInitialized := b |}).
Proof. reflexivity. Qed.

Lemma result_emit {S} ev (s : S) : result (emit ev s) = Returned tt.
Proof. reflexivity. Qed.

Lemma final_emit {S} ev (s : S) : final (emit ev s) = s.
Proof. reflexivity. Qed.

Lemma emitted_emit {S} ev (s : S) : emitted (emit ev s) = [ev].
Proof. reflexivity. Qed.

#[export] Hint Rewrite
  @result_record @final_record @emitted_record
  @result_bind_set @final_bind_set @emitted_bind_set
  @result_emit @final_emit @emitted_emit : run.

Section InitialisedFacts.
Context {World : Type}.
Variable B : Builtins.
Variable C : Collaborators World.

Lemma stays_cleanupTemporaryFile filePath :
  stays_initialized (cleanupTemporaryFile C filePath).
Proof.
  unfold cleanupTemporaryFile.
  apply stays_try_catch.
  - apply stays_bind; [apply stays_external; reflexivity | intros [|]].
    + apply stays_bind; [apply stays_external; reflexivity | intros _].
      apply stays_emit. reflexivity.
    + apply stays_ret.
  - intros e. apply stays_emit. reflexivity.
Qed.

Lemma stays_processImage imagePath :
  stays_initialized (processImage B C imagePath).
Proof.
  unfold processImage, generateImageDescription, generateTextEmbedding, toISOString.
  apply stays_try_catch.
  - apply stays_bind; [apply stays_external; reflexivity | intros d].
    apply stays_bind; [apply stays_external; reflexivity | intros v].
    apply stays_bind; [apply stays_external; reflexivity | intros t].
    apply stays_ret.
  - intros e. apply stays_bind; [apply stays_emit; reflexivity | intros _].
    apply stays_throw.
Qed.

Lemma stays_processUploadedImage imagePath originalFilename :
  stays_initialized (processUploadedImage B C imagePath originalFilename).
Proof.
  unfold processUploadedImage, processAndStore.
  apply stays_try_catch.
  - apply stays_bind.
    + apply stays_bind; [apply stays_emit; reflexivity | intros _].
      apply stays_guard.
      apply stays_bind; [apply stays_processImage | intros pd].
      apply stays_bind; [apply stays_external; reflexivity | intros id].
      apply stays_ret.
    + intros [id pd].
      apply stays_bind; [apply stays_cleanupTemporaryFile | intros _].
      apply stays_bind; [apply stays_emit; reflexivity | intros _].
      apply stays_ret.
  - intros e.
    apply stays_bind; [apply stays_emit; reflexivity | intros _].
    apply stays_bind; [apply stays_cleanupTemporaryFile | intros _].
    apply stays_throw.
Qed.

Lemma stays_batch_loop imageFiles :
  forall acc, stays_initialized (batch_loop B C imageFiles acc).
Proof.
  induction imageFiles as [| file rest IH]; intros acc; cbn [batch_loop].
  - apply stays_ret.
  - apply stays_bind; [| intros acc'; apply IH].
    unfold batch_iteration. destruct acc as [results errors].
    apply stays_try_catch.
    + apply stays_bind; [apply stays_processUploadedImage | intros item].
      apply stays_ret.
    + intros e. apply stays_bind; [apply stays_emit; reflexivity | intros _].
      apply stays_ret.
Qed.

Lemma stays_processMultipleImages imageFiles :
  stays_initialized (processMultipleImages B C imageFiles).
Proof.
  unfold processMultipleImages.
  apply stays_try_catch.
  - apply stays_bind; [apply stays_emit; reflexivity | intros _].
    apply stays_bind; [apply stays_batch_loop | intros [results errors]].
    apply stays_bind; [apply stays_emit; reflexivity | intros _].
    apply stays_ret.
  - intros e. apply stays_bind; [apply stays_emit; reflexivity | intros _].
    apply stays_throw.
Qed.

Lemma stays_searchImages queryText limit scoreThreshold :
  stays_initialized (searchImages C queryText limit scoreThreshold).
Proof.
  unfold searchImages, processSearchQuery, generateTextEmbedding.
  apply stays_try_catch.
  - apply stays_bind; [apply stays_emit; reflexivity | intros _].
    apply stays_guard.
    apply stays_bind.
    { apply stays_try_catch.
      - apply stays_bind; [apply stays_emit; reflexivity | intros _].
        apply stays_external. reflexivity.
      - intros e. apply stays_bind; [apply stays_emit; reflexivity | intros _].
        apply stays_throw. }
    intros v.
    apply stays_bind; [apply stays_external; reflexivity | intros r].
    apply stays_bind; [apply stays_emit; reflexivity | intros _].
    apply stays_ret.
  - intros e. apply stays_bind; [apply stays_emit; reflexivity | intros _].
    apply stays_throw.
Qed.

(** What [initialize] does, by the outcome of its two calls. *)
Lemma initialize_run s :
  let r := initialize C s in
  match openai_validateApiKey C (world s) with
  | (Thrown e, w) =>
      result r = Thrown e
      /\ final r = {| world := w; isInitialized := isInitialized s |}
  | (Returned _, w) =>
      match qdrant_initializeCollection C w with
      | (Thrown e, w') =>
          result r = Thrown e
          /\ final r = {| world := w'; isInitialized := isInitialized s |}
      | (Returned _, w') =>
          result r = Returned tt
          /\ final r = {| world := w'; isInitialized := true |}
      end
  end.
Proof.
  cbv zeta. unfold initialize.
  destruct (openai_validateApiKey C (world s)) as [[[] | e] w] eqn:Hv.
  - destruct (qdrant_initializeCollection C w) as [[[] | e] w'] eqn:Hq.
    + split; run_known;
        (erewrite external_Returned by exact Hv); run_known;
        (erewrite external_Returned by exact Hq); run_known; reflexivity.
    + split; run_known;
        (erewrite external_Returned by exact Hv); run_known;
        (erewrite external_Thrown by exact Hq); run_known; reflexivity.
  - split; run_known;
      (erewrite external_Thrown by exact Hv); run_known; reflexivity.
Qed.
End InitialisedFacts.


Lemma final_bind_get {World A} (k : bool -> M (St World) A) s :
  final (bind get_isInitialized k s) = final (k (isInitialized s) s).
Proof. reflexivity. Qed.

Lemma emitted_bind_get {World A} (k : bool -> M (St World) A) s :
  emitted (bind get_isInitialized k s) = emitted (k (isInitialized s) s).
Proof. reflexivity. Qed.

#[export] Hint Rewrite @result_bind_get @final_bind_get @emitted_bind_get : run.

Lemma count_cons p ev l :
  count p (ev :: l) = ((if p ev then 1 else 0) + count p l)%nat.
Proof. unfold count. cbn [filter]. destruct (p ev); reflexivity. Qed.

Section InitialisationFacts.
Context {World : Type}.
Variable B : Builtins.
Variable C : Collaborators World.

Lemma initialize_Returned s :
  result (initialize C s) = Returned tt ->
  isInitialized (final (initialize C s)) = true.
Proof.
  pose proof (initialize_run C s) as H. cbv zeta in H.
  destruct (openai_validateApiKey C (world s)) as [[[] | e] w].
  - destruct (qdrant_initializeCollection C w) as [[[] | e] w'];
      destruct H as [Hr Hf]; rewrite Hr, Hf; [reflexivity | discriminate].
  - destruct H as [Hr Hf]. rewrite Hr. discriminate.
Qed.

Lemma initialize_Thrown s e :
  result (initialize C s) = Thrown e ->
  isInitialized (final (initialize C s)) = isInitialized s
  /\ ((exists w, openai_validateApiKey C (world s) = (Thrown e, w))
      \/ (exists w w',
             openai_validateApiKey C (world s) = (Returned tt, w)
             /\ qdrant_initializeCollection C w = (Thrown e, w'))).
Proof.
  pose proof (initialize_run C s) as H. cbv zeta in H.
  destruct (openai_validateApiKey C (world s)) as [[[] | e0] w] eqn:Hv.
  - destruct (qdrant_initializeCollection C w) as [[[] | e1] w'] eqn:Hq;
      destruct H as [Hr Hf]; rewrite Hr, Hf; [discriminate |].
    intros He. inversion He. subst e1. split; [reflexivity |].
    right. exists w, w'. split; [reflexivity | exact Hq].
  - destruct H as [Hr Hf]. rewrite Hr, Hf.
    intros He. inversion He. subst e0. split; [reflexivity |].
    left. exists w. reflexivity.
Qed.

Lemma initializeServices_run s :
  result (initializeServices C s) = Returned tt
  /\ final (initializeServices C s) = final (initialize C s).
Proof.
  unfold initializeServices. remember (initialize C) as initm.
  split; run; destruct (result (initm s)); run_known; reflexivity.
Qed.

Lemma initialize_no_processing :
  emits (fun ev => is_processing_call ev = false) (initialize C).
Proof.
  unfold initialize.
  repeat first
    [ apply emits_try_catch | apply emits_bind | intros ?
    | apply emits_external | apply emits_emit | apply emits_throw
    | apply emits_set_isInitialized | reflexivity ].
Qed.

Lemma cleanupTemporaryFile_no_processing filePath :
  emits (fun ev => is_processing_call ev = false) (cleanupTemporaryFile C filePath).
Proof.
  unfold cleanupTemporaryFile.
  apply emits_try_catch.
  - apply emits_bind; [apply emits_external; reflexivity | intros [|]].
    + apply emits_bind; [apply emits_external; reflexivity | intros _].
      apply emits_emit. reflexivity.
    + apply emits_ret.
  - intros e. apply emits_emit. reflexivity.
Qed.

Lemma cleanupTemporaryFile_keeps_flag filePath s :
  isInitialized (final (cleanupTemporaryFile C filePath s)) = isInitialized s.
Proof.
  unfold cleanupTemporaryFile, try_catch, bind, external, console_log,
    console_error, emit, ret.
  destruct (fs_pathExists C filePath (world s)) as [[[|] | e] w]; simpl;
    try reflexivity.
  destruct (fs_unlink C filePath w) as [[[] | e] w']; reflexivity.
Qed.

(** The work of an upload on an uninitialised service whose
    initialisation fails. *)
Lemma processAndStore_initialize_fails imagePath originalFilename s e :
  isInitialized s = false ->
  result (initialize C s) = Thrown e ->
  processAndStore B C imagePath originalFilename s
  = {| result := Thrown e;
       final := final (initialize C s);
       emitted := Console_log [LStr ("Processing uploaded image: "
                                     ++ originalFilename)%string]
                  :: emitted (initialize C s) |}.
Proof.
  intros Hflag Hinit. unfold processAndStore.
  remember (initialize C) as initm. remember (processImage B C imagePath) as imagem.
  apply Run_ext; run_known; rewrite Hflag; run; rewrite Hinit; reflexivity.
Qed.
End InitialisationFacts.

(** X1. Once the service is initialised it stays so and is not
    initialised again: from a state with [isInitialized] set, an upload,
    a batch and a search each end with [isInitialized] set and call
    neither [validateApiKey] nor [initializeCollection]. *)
Theorem initialized_service_is_not_initialized_again :
  forall (World : Type) (B : Builtins) (C : Collaborators World) (s : St World),
    isInitialized s = true ->
    (forall imagePath originalFilename,
        let r := processUploadedImage B C imagePath originalFilename s in
        isInitialized (final r) = true /\ count is_init_call (emitted r) = 0%nat)
    /\ (forall imageFiles,
           let r := processMultipleImages B C imageFiles s in
           isInitialized (final r) = true /\ count is_init_call (emitted r) = 0%nat)
    /\ (forall queryText limit scoreThreshold,
           let r := searchImages C queryText limit scoreThreshold s in
           isInitialized (final r) = true /\ count is_init_call (emitted r) = 0%nat).
Proof.
  intros World B C s Hs.
  split; [| split]; intros; cbv zeta.
  - destruct (stays_processUploadedImage B C imagePath originalFilename s Hs) as [H1 H2].
    split; [exact H1 | apply count_none; exact H2].
  - destruct (stays_processMultipleImages B C imageFiles s Hs) as [H1 H2].
    split; [exact H1 | apply count_none; exact H2].
  - destruct (stays_searchImages C queryText limit scoreThreshold s Hs) as [H1 H2].
    split; [exact H1 | apply count_none; exact H2].
Qed.


(** X3. An upload that finds the service uninitialised and whose
    initialisation fails throws the initialisation's error; it asks the
    provider and the store for nothing, still runs the clean-up of the
    temporary file once, and leaves the service uninitialised, so that
    the next request initialises again. *)
Theorem failed_initialization_fails_the_upload :
  forall (World : Type) (B : Builtins) (C : Collaborators World)
         (imagePath originalFilename : string) (s : St World) (e : JsError),
    isInitialized s = false ->
    result (initialize C s) = Thrown e ->
    let r := processUploadedImage B C imagePath originalFilename s in
    result r = Thrown e
    /\ isInitialized (final r) = false
    /\ count is_processing_call (emitted r) = 0%nat
    /\ count (is_pathExists imagePath) (emitted r) = 1%nat.
Proof.
  intros World B C imagePath originalFilename s e Hflag Hinit r.
  pose proof (processAndStore_initialize_fails B C imagePath originalFilename s Hflag Hinit)
    as Hwork.
  pose proof (processUploadedImage_run B C imagePath originalFilename s) as Hrun.
  cbv zeta in Hrun. rewrite Hwork in Hrun. cbn [result final emitted] in Hrun.
  subst r. rewrite Hrun. cbn [result final emitted].
  split; [reflexivity |].
  split.
  { rewrite cleanupTemporaryFile_keeps_flag.
    destruct (initialize_Thrown C s Hinit) as [Hkeep _]. congruence. }
  split.
  - apply count_none. constructor; [reflexivity |].
    apply Forall_app. split; [apply initialize_no_processing |].
    constructor; [reflexivity | apply cleanupTemporaryFile_no_processing].
  - rewrite count_app, !count_cons.
    rewrite cleanupTemporaryFile_pathExists_once.
    rewrite count_none; [reflexivity |].
    eapply Forall_impl; [| apply (initialize_not_fs C s)].
    intros ev Hev. unfold not_fs in Hev.
    destruct ev as [| | [ ]]; cbn in *; congruence.
Qed.


(* ================================================================== *)
(** ** What an upload stores *)
(* ================================================================== *)

Lemma filter_none_In p (x : event) l :
  Forall (fun ev => p ev = false) l -> p x = true -> ~ In x l.
Proof.
  intros H Hx Hin. rewrite Forall_forall in H. apply H in Hin. congruence.
Qed.

Section StoreFacts2.
Context {World : Type}.
Variable B : Builtins.
Variable C : Collaborators World.

Lemma initialize_no_store : emits not_store (initialize C).
Proof.
  unfold initialize.
  repeat first
    [ apply emits_try_catch | apply emits_bind | intros ?
    | apply emits_external | apply emits_emit | apply emits_throw
    | apply emits_set_isInitialized | reflexivity ].
Qed.

Lemma processImage_no_store imagePath : emits not_store (processImage B C imagePath).
Proof.
  unfold processImage, generateImageDescription, generateTextEmbedding, toISOString.
  repeat first
    [ apply emits_try_catch | apply emits_bind | intros ?
    | apply emits_external | apply emits_emit | apply emits_throw
    | apply emits_ret | reflexivity ].
Qed.

Lemma cleanupTemporaryFile_no_store filePath :
  emits not_store (cleanupTemporaryFile C filePath).
Proof.
  unfold cleanupTemporaryFile.
  apply emits_try_catch.
  - apply emits_bind; [apply emits_external; reflexivity | intros [|]].
    + apply emits_bind; [apply emits_external; reflexivity | intros _].
      apply emits_emit. reflexivity.
    + apply emits_ret.
  - intros e. apply emits_emit. reflexivity.
Qed.

(** What [processImage] returns comes from the provider: the description
    of the image, and the embedding of that description. *)
Lemma processImage_Returned imagePath s data :
  result (processImage B C imagePath s) = Returned data ->
  (exists w w',
      openai_generateImageDescription C imagePath w
      = (Returned (pd_description data), w'))
  /\ (exists w w',
         openai_generateTextEmbedding C (pd_description data) w
         = (Returned (pd_embedding data), w'))
  /\ pd_filename data = path_basename B imagePath.
Proof.
  unfold processImage, generateImageDescription, generateTextEmbedding, toISOString.
  rewrite result_try_catch.
  destruct (openai_generateImageDescription C imagePath (world s))
    as [[d | e] w1] eqn:Hd.
  2: { (erewrite external_Thrown by exact Hd). run_known. discriminate. }
  (erewrite external_Returned by exact Hd). run_known.
  destruct (openai_generateTextEmbedding C d w1) as [[v | e] w2] eqn:He.
  2: { (erewrite external_Thrown by exact He). run_known. discriminate. }
  (erewrite external_Returned by exact He). run_known.
  destruct (Date_toISOString C w2) as [t w3] eqn:Ht.
  erewrite external_Returned
    by (cbn [world after_call]; rewrite Ht; reflexivity).
  run_known. intros H. inversion H. cbn [pd_description pd_embedding pd_filename].
  split; [exists (world s), w1; exact Hd |].
  split; [exists w1, w2; exact He | reflexivity].
Qed.

(** The work of an upload either asks the store for nothing and throws,
    or ends with the one request to store what [processImage] returned,
    under the original file name. *)
Lemma processAndStore_store imagePath originalFilename s :
  let work := processAndStore B C imagePath originalFilename s in
  (Forall not_store (emitted work) /\ exists e, result work = Thrown e)
  \/ (exists s1 data0 pre,
         result (processImage B C imagePath s1) = Returned data0
         /\ emitted work
            = pre ++ [Call (storeImageEmbedding_call
                              (with_filename data0 originalFilename))]
         /\ Forall not_store pre
         /\ forall stored,
             result work = Returned stored ->
             snd stored = with_filename data0 originalFilename
             /\ exists w w',
                 qdrant_storeImageEmbedding C (with_filename data0 originalFilename) w
                 = (Returned (fst stored), w')).
Proof.
  cbv zeta. unfold processAndStore.
  pose proof (initialize_no_store s) as Hinit_events.
  remember (initialize C) as initm.
  pose proof (processImage_no_store imagePath) as Himage_events.
  assert (Himage : forall s1 data0,
             result (processImage B C imagePath s1) = Returned data0 ->
             result (processImage B C imagePath s1) = Returned data0) by (intros; assumption).
  remember (processImage B C imagePath) as imagem.
  set (header := Console_log [LStr ("Processing uploaded image: "
                                    ++ originalFilename)%string]).
  assert (Hguard : exists guard : M (St World) unit,
             guard = (if isInitialized s then ret tt else initm)
             /\ Forall not_store (emitted (guard s))).
  { eexists. split; [reflexivity |].
    destruct (isInitialized s); [constructor | exact Hinit_events]. }
  destruct Hguard as [guard [Hguard Hguard_events]].
  run_known. rewrite <- Hguard.
  destruct (result (guard s)) as [[] | e] eqn:Hg.
  2: { left. rewrite result_bind, emitted_bind, Hg. split.
       - constructor; [reflexivity | exact Hguard_events].
       - exists e. reflexivity. }
  destruct (result (imagem (final (guard s)))) as [data0 | e] eqn:Hi.
  2: { left. rewrite result_bind, emitted_bind, Hg.
       rewrite result_bind, emitted_bind, Hi. split.
       - constructor; [reflexivity |].
         apply Forall_app. split; [exact Hguard_events | apply Himage_events].
       - exists e. reflexivity. }
  right. exists (final (guard s)), data0,
    (header :: emitted (guard s) ++ emitted (imagem (final (guard s)))).
  split; [exact Hi |].
  rewrite result_bind, emitted_bind, Hg.
  rewrite result_bind, emitted_bind, Hi.
  fold (with_filename data0 originalFilename).
  destruct (qdrant_storeImageEmbedding C (with_filename data0 originalFilename)
              (world (final (imagem (final (guard s))))))
    as [[id | e] w] eqn:Hs.
  - (erewrite external_Returned by exact Hs). run_known.
    split.
    { cbn [app]. rewrite <- app_assoc. reflexivity. }
    split.
    { constructor; [reflexivity |].
      apply Forall_app. split; [exact Hguard_events | apply Himage_events]. }
    intros stored H. inversion H. cbn [fst snd].
    split; [reflexivity |]. eexists. eexists. exact Hs.
  - (erewrite external_Thrown by exact Hs). run_known.
    split.
    { cbn [app]. rewrite <- app_assoc. reflexivity. }
    split.
    { constructor; [reflexivity |].
      apply Forall_app. split; [exact Hguard_events | apply Himage_events]. }
    intros stored H. discriminate.
Qed.
End StoreFacts2.

(** X4. An upload asks the store at most once, and only for a complete
    record: the data handed to [storeImageEmbedding] carries the
    provider's description of the image, the provider's embedding of
    that very description, and the original file name. A successful
    upload made that request, and its result carries the id the store
    answered with and the record's description, time stamp and name. *)
Theorem upload_stores_only_complete_records :
  forall (World : Type) (B : Builtins) (C : Collaborators World)
         (imagePath originalFilename : string) (s : St World),
    let r := processUploadedImage B C imagePath originalFilename s in
    (count is_store_call (emitted r) <= 1)%nat
    /\ (forall data,
           In (Call (storeImageEmbedding_call data)) (emitted r) ->
           pd_filename data = originalFilename
           /\ (exists w w',
                  openai_generateImageDescription C imagePath w
                  = (Returned (pd_description data), w'))
           /\ (exists w w',
                  openai_generateTextEmbedding C (pd_description data) w
                  = (Returned (pd_embedding data), w')))
    /\ (forall item,
           result r = Returned item ->
           exists data w w',
             In (Call (storeImageEmbedding_call data)) (emitted r)
             /\ qdrant_storeImageEmbedding C data w = (Returned (pointId item), w')
             /\ description item = pd_description data
             /\ timestamp item = pd_timestamp data
             /\ filename item = pd_filename data).
Proof.
  intros World B C imagePath originalFilename s r.
  pose proof (processUploadedImage_run B C imagePath originalFilename s) as Hrun.
  cbv zeta in Hrun.
  pose proof (cleanupTemporaryFile_no_store C imagePath
                (final (processAndStore B C imagePath originalFilename s))) as Hclean.
  pose proof (processAndStore_store B C imagePath originalFilename s) as Hstore.
  cbv zeta in Hstore.
  set (work := processAndStore B C imagePath originalFilename s) in *.
  set (clean := cleanupTemporaryFile C imagePath (final work)) in *.
  assert (Hrest : exists rest,
             emitted r = emitted work ++ rest
             /\ Forall (fun ev => is_store_call ev = false) rest).
  { subst r. rewrite Hrun. destruct (result work) as [stored | e]; cbn [emitted].
    - eexists. split; [reflexivity |].
      apply Forall_app. split; [exact Hclean |].
      constructor; [reflexivity | constructor].
    - eexists. split; [reflexivity |].
      constructor; [reflexivity | exact Hclean]. }
  destruct Hrest as [rest [Hemitted Hrest]].
  destruct Hstore
    as [[Hnone [e He]] | (s1 & data0 & pre & Himage & Hwork & Hpre & Hstored)].
  - (* the store was not asked *)
    assert (Hall : Forall (fun ev => is_store_call ev = false) (emitted r)).
    { rewrite Hemitted. apply Forall_app. split; assumption. }
    split; [rewrite (count_none _ Hall); lia |].
    split.
    + intros data Hin. exfalso.
      apply (filter_none_In _ (Call (storeImageEmbedding_call data)) Hall);
        [reflexivity | exact Hin].
    + intros item Hitem. exfalso.
      subst r. rewrite Hrun, He in Hitem. discriminate.
  - (* the store was asked once, for [data0] under the original name *)
    destruct (processImage_Returned B C imagePath s1 Himage) as (Hdesc & Hemb & _).
    split.
    { rewrite Hemitted, Hwork, !count_app, count_cons.
      rewrite (count_none _ Hpre), (count_none _ Hrest). cbn. lia. }
    split.
    + intros data Hin. rewrite Hemitted, Hwork in Hin.
      apply in_app_or in Hin. destruct Hin as [Hin | Hin].
      * apply in_app_or in Hin. destruct Hin as [Hin | [Heq | []]].
        -- exfalso.
           apply (filter_none_In _ (Call (storeImageEmbedding_call data)) Hpre);
             [reflexivity | exact Hin].
        -- inversion Heq. cbn [with_filename pd_filename pd_description pd_embedding].
           split; [reflexivity |]. split; assumption.
      * exfalso.
        apply (filter_none_In _ (Call (storeImageEmbedding_call data)) Hrest);
          [reflexivity | exact Hin].
    + intros item Hitem.
      subst r. rewrite Hrun in Hitem.
      destruct (result work) as [stored | e] eqn:Hres; cbn [result] in Hitem;
        [| discriminate].
      inversion Hitem as [Hitem']. clear Hitem.
      destruct (Hstored stored eq_refl) as [Hsnd (w & w' & Hcall)].
      exists (with_filename data0 originalFilename), w, w'.
      split.
      { rewrite Hrun. cbn [emitted]. apply in_or_app. left.
        rewrite Hwork. apply in_app_middle. }
      unfold item_of. cbn [pointId description timestamp filename].
      rewrite Hsnd.
      cbn [with_filename pd_filename pd_description pd_timestamp].
      repeat split. exact Hcall.
Qed.


(* ================================================================== *)
(** ** What a search asks and what it throws *)
(* ================================================================== *)

Lemma external_run {World A} c (f : World -> outcome A * World) (s : St World) :
  external c f s
  = {| result := fst (f (world s));
       final := after_call s (snd (f (world s)));
       emitted := [Call c] |}.
Proof. unfold external. destruct (f (world s)); reflexivity. Qed.

(** A [catch] block that logs and rethrows does not change the result. *)
Lemma rethrow_result {S A} (body : M S A) (handler : JsError -> M S A) s :
  (forall e s', result (handler e s') = Thrown e) ->
  result (try_catch body handler s) = result (body s).
Proof.
  intros H. rewrite result_try_catch.
  destruct (result (body s)); [reflexivity | apply H].
Qed.

Section SearchFacts2.
Context {World : Type}.
Variable C : Collaborators World.

Lemma processSearchQuery_run queryText s :
  result (processSearchQuery C queryText s)
  = fst (openai_generateTextEmbedding C queryText (world s))
  /\ final (processSearchQuery C queryText s)
     = after_call s (snd (openai_generateTextEmbedding C queryText (world s))).
Proof.
  unfold processSearchQuery, generateTextEmbedding. split.
  - rewrite rethrow_result by (intros; reflexivity).
    run_known. rewrite external_run. reflexivity.
  - run_known. rewrite external_run. run_known.
    destruct (fst (openai_generateTextEmbedding C queryText (world s)));
      run_known; reflexivity.
Qed.

(** The result of a search is that of the initialisation guard followed
    by [embedAndSearch]. *)
Lemma searchImages_result queryText limit scoreThreshold s :
  result (searchImages C queryText (Some limit) (Some scoreThreshold) s)
  = if isInitialized s
    then result (embedAndSearch C queryText limit scoreThreshold s)
    else match result (initialize C s) with
         | Returned _ =>
             result (embedAndSearch C queryText limit scoreThreshold
                                    (final (initialize C s)))
         | Thrown e => Thrown e
         end.
Proof.
  unfold searchImages. rewrite rethrow_result by (intros; reflexivity).
  fold (embedAndSearch C queryText limit scoreThreshold).
  remember (embedAndSearch C queryText limit scoreThreshold) as searchm.
  remember (initialize C) as initm.
  run_known. destruct (isInitialized s).
  - run_known. reflexivity.
  - rewrite result_bind. destruct (result (initm s)); reflexivity.
Qed.

Lemma embedAndSearch_result queryText limit scoreThreshold s :
  let r := embedAndSearch C queryText limit scoreThreshold s in
  (forall d,
      result r = Returned d ->
      sd_query d = queryText
      /\ exists queryEmbedding,
          (exists w w',
              openai_generateTextEmbedding C queryText w
              = (Returned queryEmbedding, w'))
          /\ (exists w w',
                 qdrant_searchSimilarImages C queryEmbedding limit scoreThreshold w
                 = (Returned (sd_results d), w')))
  /\ (forall e,
         result r = Thrown e ->
         (exists w w', openai_generateTextEmbedding C queryText w = (Thrown e, w'))
         \/ (exists queryEmbedding w w',
                qdrant_searchSimilarImages C queryEmbedding limit scoreThreshold w
                = (Thrown e, w'))).
Proof.
  cbv zeta. unfold embedAndSearch.
  destruct (processSearchQuery_run queryText s) as [Hres Hfin].
  remember (processSearchQuery C queryText) as psqm.
  rewrite result_bind, Hres, Hfin.
  destruct (openai_generateTextEmbedding C queryText (world s))
    as [[v | e0] w1] eqn:He; cbn [fst snd].
  - destruct (qdrant_searchSimilarImages C v limit scoreThreshold w1)
      as [[hits | e1] w2] eqn:Hs.
    + (erewrite external_Returned by exact Hs). run_known. split.
      * intros d H. inversion H. cbn [sd_query sd_results].
        split; [reflexivity |]. exists v.
        split; [exists (world s), w1; exact He | exists w1, w2; exact Hs].
      * intros e H. discriminate.
    + (erewrite external_Thrown by exact Hs). run_known. split.
      * intros d H. discriminate.
      * intros e H. inversion H. subst e1. right. exists v, w1, w2. exact Hs.
  - split.
    + intros d H. discriminate.
    + intros e H. inversion H. subst e0. left. exists (world s), w1. exact He.
Qed.
End SearchFacts2.

(** X5. A search asks the store with the provider's embedding of the
    query text and echoes that text; and it raises no error of its own:
    an error it throws is the one thrown by the configuration check, the
    collection set-up, the embedding request or the store's query. *)
Theorem search_embeds_the_query_and_rethrows :
  forall (World : Type) (C : Collaborators World)
         (queryText : string) (limit scoreThreshold : number) (s : St World),
    let r := searchImages C queryText (Some limit) (Some scoreThreshold) s in
    (forall d,
        result r = Returned d ->
        sd_query d = queryText
        /\ exists queryEmbedding,
            (exists w w',
                openai_generateTextEmbedding C queryText w
                = (Returned queryEmbedding, w'))
            /\ (exists w w',
                   qdrant_searchSimilarImages C queryEmbedding limit scoreThreshold w
                   = (Returned (sd_results d), w')))
    /\ (forall e,
           result r = Thrown e ->
           (exists w w', openai_validateApiKey C w = (Thrown e, w'))
           \/ (exists w w', qdrant_initializeCollection C w = (Thrown e, w'))
           \/ (exists w w', openai_generateTextEmbedding C queryText w = (Thrown e, w'))
           \/ (exists queryEmbedding w w',
                  qdrant_searchSimilarImages C queryEmbedding limit scoreThreshold w
                  = (Thrown e, w'))).
Proof.
  intros World C queryText limit scoreThreshold s r. subst r.
  rewrite searchImages_result.
  assert (Hnext : forall s1,
             (forall d,
                 result (embedAndSearch C queryText limit scoreThreshold s1) = Returned d ->
                 sd_query d = queryText
                 /\ exists queryEmbedding,
                     (exists w w',
                         openai_generateTextEmbedding C queryText w
                         = (Returned queryEmbedding, w'))
                     /\ (exists w w',
                            qdrant_searchSimilarImages C queryEmbedding limit
                                                       scoreThreshold w
                            = (Returned (sd_results d), w')))
             /\ (forall e,
                    result (embedAndSearch C queryText limit scoreThreshold s1) = Thrown e ->
                    (exists w w', openai_validateApiKey C w = (Thrown e, w'))
                    \/ (exists w w', qdrant_initializeCollection C w = (Thrown e, w'))
                    \/ (exists w w',
                           openai_generateTextEmbedding C queryText w = (Thrown e, w'))
                    \/ (exists queryEmbedding w w',
                           qdrant_searchSimilarImages C queryEmbedding limit
                                                      scoreThreshold w
                           = (Thrown e, w')))).
  { intros s1.
    destruct (embedAndSearch_result C queryText limit scoreThreshold s1) as [Hok Hko].
    split; [exact Hok |].
    intros e He. right. right. destruct (Hko e He) as [H | H]; [left | right]; exact H. }
  destruct (isInitialized s); [apply Hnext |].
  destruct (result (initialize C s)) as [[] | e0] eqn:Hinit; [apply Hnext |].
  split; [intros d H; discriminate |].
  intros e H. inversion H. subst e0.
  destruct (initialize_Thrown C s Hinit) as [_ [[w Hv] | (w & w' & _ & Hq)]].
  - left. exists (world s), w. exact Hv.
  - right. left. exists w, w'. exact Hq.
Qed.


(* ================================================================== *)
(** ** The controllers *)
(* ================================================================== *)

Section ValidationLoop.
Context {S : Type}.

(** The validation loop of [uploadImages] on files that all pass. *)
Lemma validation_passes files (s : S) :
  Forall (fun g => validateUploadedFile (Some g) = Returned true) files ->
  for_of files (fun file =>
                  bind (lift_outcome (validateUploadedFile (Some file)))
                       (fun _ => ret tt)) s
  = {| result := Returned tt; final := s; emitted := [] |}.
Proof.
  induction 1 as [| g rest Hg _ IH]; [reflexivity |].
  cbn [for_of]. rewrite Hg.
  apply Run_ext; run_known; rewrite IH; reflexivity.
Qed.

(** The loop stops at the first file that does not pass, with its error. *)
Lemma validation_stops pre f post e (s : S) :
  Forall (fun g => validateUploadedFile (Some g) = Returned true) pre ->
  validateUploadedFile (Some f) = Thrown e ->
  for_of (pre ++ f :: post)
         (fun file =>
            bind (lift_outcome (validateUploadedFile (Some file)))
                 (fun _ => ret tt)) s
  = {| result := Thrown e; final := s; emitted := [] |}.
Proof.
  intros Hpre Hf. induction Hpre as [| g rest Hg _ IH].
  - cbn [app for_of]. rewrite Hf. reflexivity.
  - cbn [app for_of]. rewrite Hg.
    apply Run_ext; run_known; rewrite IH; reflexivity.
Qed.
End ValidationLoop.

Section ControllerFacts2.
Context {World : Type}.
Variable B : Builtins.
Variable C : Collaborators World.

(** The controller reads its request through [files_of] only. *)
Lemma uploadImages_files req :
  uploadImages B C req
  = uploadImages B C {| req_files := Some (files_of req); req_file := None |}.
Proof. destruct req as [[fs |] [f |]]; reflexivity. Qed.

Lemma try_catch_answers {A} (body : M (St World) A) handler s :
  (forall e s', exists a, result (handler e s') = Returned a) ->
  exists a, result (try_catch body handler s) = Returned a.
Proof.
  intros H. rewrite result_try_catch.
  destruct (result (body s)) as [a | e]; [exists a; reflexivity | apply H].
Qed.
End ControllerFacts2.

(** X6. A request that carries no file -- neither [req.files] nor
    [req.file], or an empty [req.files] -- is answered 400 with the code
    NO_FILES; nothing is logged, no service is called and the state is
    left as it was. *)
Theorem upload_without_files_is_refused :
  forall (World : Type) (B : Builtins) (C : Collaborators World)
         (req : UploadRequest) (s : St World),
    files_of req = [] ->
    uploadImages B C req s
    = {| result := Returned (Json 400 false
                                  "No files uploaded. Please upload at least one image."
                                  (Some "NO_FILES"%string) None);
         final := s;
         emitted := [] |}.
Proof.
  intros World B C req s Hfiles.
  rewrite uploadImages_files, Hfiles. reflexivity.
Qed.

(** X7. Validation comes before any processing: when a file of the
    request does not pass [validateUploadedFile], the error of the first
    such file is handed to [next]; no file of the request is processed,
    not even those that precede it and pass: no collaborator is called
    and the state is left as it was. *)
Theorem invalid_file_stops_the_whole_upload :
  forall (World : Type) (B : Builtins) (C : Collaborators World)
         (req : UploadRequest) (s : St World)
         (pre post : list File) (f : File) (e : JsError),
    files_of req = pre ++ f :: post ->
    Forall (fun g => validateUploadedFile (Some g) = Returned true) pre ->
    validateUploadedFile (Some f) = Thrown e ->
    uploadImages B C req s
    = {| result := Returned (Next e);
         final := s;
         emitted :=
           [Console_log [LStr ("Received "
                               ++ string_of_nat (List.length (files_of req))
                               ++ " file(s) for processing")%string];
            Console_error [LStr "Error in uploadImages controller:"; LErr e]] |}.
Proof.
  intros World B C req s pre post f e Hfiles Hpre Hf.
  rewrite uploadImages_files. unfold uploadImages. cbn [req_files]. cbv zeta.
  pose proof (@validation_stops (St World) pre f post e s Hpre Hf) as Hloop.
  rewrite <- Hfiles in Hloop.
  destruct (files_of req) as [| f0 rest] eqn:Hlist.
  { destruct pre; discriminate. }
  remember (f0 :: rest) as files.
  remember (for_of files
                   (fun file =>
                      bind (lift_outcome (validateUploadedFile (Some file)))
                           (fun _ => ret tt))) as loopm.
  apply Run_ext; run; rewrite Hloop; run_known; reflexivity.
Qed.

(** X8. A request of two or more files that all pass validation is
    always answered with [success: true] and the batch result, whatever
    happens to the files: the status is 207 as soon as one file failed
    and 200 exactly when every file was ingested. A batch in which every
    file failed is still answered 207, never with an error status. *)
Theorem batch_upload_answers_200_or_207 :
  forall (World : Type) (B : Builtins) (C : Collaborators World)
         (req : UploadRequest) (s : St World),
    (2 <= List.length (files_of req))%nat ->
    Forall (fun g => validateUploadedFile (Some g) = Returned true) (files_of req) ->
    let r := processMultipleImages B C (files_of req) s in
    exists b,
      result r = Returned b
      /\ result (uploadImages B C req s)
         = Returned (Json (if (0 <? totalFailed b)%nat then 207%Z else 200%Z) true
                          ("Batch upload completed: "
                           ++ string_of_nat (totalProcessed b) ++ " successful, "
                           ++ string_of_nat (totalFailed b) ++ " failed")%string
                          None (Some (BatchData b)))
      /\ final (uploadImages B C req s) = final r
      /\ ((0 <? totalFailed b)%nat = false
          <-> totalProcessed b = List.length (files_of req)).
Proof.
  intros World B C req s Hlen Hvalid r. subst r.
  pose proof (processMultipleImages_fold B C (files_of req) s) as Hbatch.
  cbv zeta in Hbatch.
  pose proof (ingest_fold_lengths B C (files_of req) s) as Hsum.
  exists (batch_of (ingest_fold B C (files_of req) s)).
  split; [rewrite Hbatch; reflexivity |].
  rewrite uploadImages_files. unfold uploadImages. cbn [req_files]. cbv zeta.
  pose proof (@validation_passes (St World) (files_of req) s Hvalid) as Hloop.
  destruct (files_of req) as [| f0 [| f1 rest]] eqn:Hlist;
    [cbn in Hlen; lia | cbn in Hlen; lia |].
  remember (f0 :: f1 :: rest) as files.
  remember (processMultipleImages B C files) as batchm.
  remember (for_of files
                   (fun file =>
                      bind (lift_outcome (validateUploadedFile (Some file)))
                           (fun _ => ret tt))) as loopm.
  split; [| split].
  - run. rewrite Hloop. cbv beta iota. cbn [result final].
    run. rewrite Hbatch. run_known. reflexivity.
  - run. rewrite Hloop. cbv beta iota. cbn [result final].
    run. rewrite Hbatch. run_known. reflexivity.
  - cbn [batch_of totalFailed totalProcessed]. rewrite Nat.ltb_ge. lia.
Qed.

(** X9. The query controller answers 400 INVALID_QUERY, without logging
    or calling any service, when [query] is not a string, is empty or is
    blank after trimming. Otherwise it searches for the trimmed text
    with the clamped parameters: a returned result is answered 200 with
    that result as data, a thrown error is handed to [next]. In no case
    does the controller itself throw. *)
Theorem query_is_checked_then_searched_trimmed :
  forall (World : Type) (B : Builtins) (C : Collaborators World)
         (body : QueryBody) (s : St World),
    ((forall q, body_query body = VStr q ->
                q = EmptyString \/ String.length (String_trim B q) = 0%nat) ->
     queryImages B C body s
     = {| result := Returned (Json 400 false
                                   "Query text is required and must be a non-empty string"
                                   (Some "INVALID_QUERY"%string) None);
          final := s;
          emitted := [] |})
    /\ (forall q,
           body_query body = VStr q ->
           q <> EmptyString ->
           String.length (String_trim B q) <> 0%nat ->
           let r := searchImages C (String_trim B q)
                      (Some (searchLimit B (with_default (body_limit body)
                                                         (VNum (Fin 10)))))
                      (Some (threshold B (with_default (body_scoreThreshold body)
                                                       (VNum (Fin (7 # 10))))))
                      s in
           result (queryImages B C body s)
           = match result r with
             | Returned d =>
                 Returned (Json 200 true
                                ("Found " ++ string_of_nat (sd_totalFound d)
                                 ++ " matching images")%string
                                None (Some d))
             | Thrown e => Returned (Next e)
             end
           /\ final (queryImages B C body s) = final r)
    /\ exists reply, result (queryImages B C body s) = Returned reply.
Proof.
  intros World B C body s. split; [| split].
  - intros Hbad. unfold queryImages.
    destruct (body_query body) as [| | b | n | q |]; try reflexivity.
    destruct (Hbad q eq_refl) as [-> | Hblank]; [reflexivity |].
    rewrite Hblank. rewrite Bool.orb_true_r. reflexivity.
  - intros q Hq Hne Hlen r. subst r. unfold queryImages. rewrite Hq.
    apply String.eqb_neq in Hne. apply Nat.eqb_neq in Hlen.
    rewrite Hne, Hlen. cbn [orb].
    remember (searchImages C (String_trim B q)
                (Some (searchLimit B (with_default (body_limit body) (VNum (Fin 10)))))
                (Some (threshold B (with_default (body_scoreThreshold body)
                                                 (VNum (Fin (7 # 10))))))) as searchm.
    split; run; destruct (result (searchm s)); run_known; reflexivity.
  - unfold queryImages. apply try_catch_answers.
    intros e s'. eexists. run_known. reflexivity.
Qed.


(* ================================================================== *)
(** ** The error and upload middlewares *)
(* ================================================================== *)

Lemma str_truthy_false msg : str_truthy msg = false -> msg = EmptyString.
Proof.
  unfold str_truthy. intros H. apply Bool.negb_false_iff in H.
  apply String.eqb_eq. exact H.
Qed.

(** The rows of the classification of [errorHandler], on the code, the
    message and the status code it derives from [err.message]. *)
Lemma error_rows msg :
  let code := fst (error_code_and_message msg) in
  let message := snd (error_code_and_message msg) in
  let statusCode := error_statusCode code in
  let has needle := str_includes needle msg in
  (has "API key" = true ->
   statusCode = 400%Z /\ code = "CONFIG_ERROR" /\ message = msg)
  /\ (has "API key" = false ->
      (has "file" || has "upload")%bool = true ->
      statusCode = 400%Z /\ code = "FILE_ERROR" /\ message = msg)
  /\ (has "API key" = false ->
      (has "file" || has "upload")%bool = false ->
      has "Qdrant" = true ->
      statusCode = 503%Z /\ code = "DATABASE_ERROR"
      /\ message = "Database connection error. Please ensure Qdrant is running.")
  /\ (has "API key" = false ->
      (has "file" || has "upload")%bool = false ->
      has "Qdrant" = false ->
      has "OpenAI" = true ->
      statusCode = 502%Z /\ code = "OPENAI_ERROR" /\ message = msg)
  /\ (has "API key" = false ->
      (has "file" || has "upload")%bool = false ->
      has "Qdrant" = false ->
      has "OpenAI" = false ->
      statusCode = 500%Z /\ code = "INTERNAL_ERROR"
      /\ message = if str_truthy msg then msg else "Internal server error").
Proof.
  cbv zeta. unfold error_code_and_message.
  destruct (str_truthy msg) eqn:Htruthy.
  - destruct (str_includes "API key" msg), (str_includes "file" msg),
      (str_includes "upload" msg), (str_includes "Qdrant" msg),
      (str_includes "OpenAI" msg);
      cbn [andb orb fst snd];
      repeat split; intros; try discriminate; reflexivity.
  - apply str_truthy_false in Htruthy. subst msg.
    repeat split; intros; try discriminate; reflexivity.
Qed.

Section ErrorMiddlewareFacts.
Context {World : Type}.
Variable C : Collaborators World.

Lemma toISOString_run (s : St World) :
  toISOString C s
  = {| result := Returned (fst (Date_toISOString C (world s)));
       final := after_call s (snd (Date_toISOString C (world s)));
       emitted := [Call toISOString_call] |}.
Proof.
  unfold toISOString. rewrite external_run.
  destruct (Date_toISOString C (world s)); reflexivity.
Qed.

Lemma errorHandler_result err req_path req_method s :
  result (errorHandler C err req_path req_method s)
  = Returned (error_statusCode (fst (error_code_and_message (message err))),
              {| eb_success := false;
                 eb_message := snd (error_code_and_message (message err));
                 eb_code := fst (error_code_and_message (message err));
                 eb_timestamp := fst (Date_toISOString C (world s));
                 eb_path := req_path;
                 eb_method := req_method |}).
Proof.
  unfold errorHandler. run. rewrite toISOString_run. cbn [result final].
  destruct (error_code_and_message (message err)). reflexivity.
Qed.
End ErrorMiddlewareFacts.

(** X10. [errorHandler] always answers, with [success: false] and the
    request's path and method, and classifies by the text of the error
    message with this precedence: a message containing [API key] is a
    CONFIG_ERROR (400); otherwise one containing [file] or [upload] is a
    FILE_ERROR (400); otherwise one containing [Qdrant] is a
    DATABASE_ERROR (503); otherwise one containing [OpenAI] is an
    OPENAI_ERROR (502); any other is an INTERNAL_ERROR (500). The
    client receives the original message in every case but the database
    one, whose message is replaced, and the empty one. *)
Theorem error_handler_classifies_by_message :
  forall (World : Type) (C : Collaborators World) (err : JsError)
         (req_path req_method : string) (s : St World),
    exists statusCode body,
      result (errorHandler C err req_path req_method s) = Returned (statusCode, body)
      /\ eb_success body = false
      /\ eb_path body = req_path
      /\ eb_method body = req_method
      /\ let msg := message err in
         let has needle := str_includes needle msg in
         (has "API key" = true ->
          statusCode = 400%Z /\ eb_code body = "CONFIG_ERROR" /\ eb_message body = msg)
         /\ (has "API key" = false ->
             (has "file" || has "upload")%bool = true ->
             statusCode = 400%Z /\ eb_code body = "FILE_ERROR" /\ eb_message body = msg)
         /\ (has "API key" = false ->
             (has "file" || has "upload")%bool = false ->
             has "Qdrant" = true ->
             statusCode = 503%Z /\ eb_code body = "DATABASE_ERROR"
             /\ eb_message body
                = "Database connection error. Please ensure Qdrant is running.")
         /\ (has "API key" = false ->
             (has "file" || has "upload")%bool = false ->
             has "Qdrant" = false ->
             has "OpenAI" = true ->
             statusCode = 502%Z /\ eb_code body = "OPENAI_ERROR" /\ eb_message body = msg)
         /\ (has "API key" = false ->
             (has "file" || has "upload")%bool = false ->
             has "Qdrant" = false ->
             has "OpenAI" = false ->
             statusCode = 500%Z /\ eb_code body = "INTERNAL_ERROR"
             /\ eb_message body
                = if str_truthy msg then msg else "Internal server error").
Proof.
  intros World C err req_path req_method s.
  eexists. eexists.
  split; [apply errorHandler_result |].
  cbn [eb_success eb_path eb_method eb_code eb_message].
  split; [reflexivity |]. split; [reflexivity |]. split; [reflexivity |].
  apply error_rows.
Qed.

(** X11. What the client receives for a file the controller's
    validation rejects: a missing file and a file of a type outside the
    list are answered 400 FILE_ERROR, while a file over 10 MiB is
    answered 500 INTERNAL_ERROR, since its message contains neither
    [file] nor [upload] in that spelling. The message thrown by
    [validateUploadedFile] reaches the client unchanged. *)
Theorem rejected_file_as_answered_by_error_handler :
  forall (World : Type) (C : Collaborators World) (file : option File) (e : JsError)
         (req_path req_method : string) (s : St World),
    validateUploadedFile file = Thrown e ->
    exists statusCode body,
      result (errorHandler C e req_path req_method s) = Returned (statusCode, body)
      /\ eb_message body = message e
      /\ ((exists f, file = Some f /\ (maxSize < size f)%Z) ->
          statusCode = 500%Z /\ eb_code body = "INTERNAL_ERROR")
      /\ (~ (exists f, file = Some f /\ (maxSize < size f)%Z) ->
          statusCode = 400%Z /\ eb_code body = "FILE_ERROR").
Proof.
  intros World C file e req_path req_method s Hreject.
  eexists. eexists.
  split; [apply errorHandler_result |].
  cbn [eb_code eb_message].
  unfold validateUploadedFile in Hreject.
  destruct file as [f |].
  - destruct (size f >? maxSize)%Z eqn:Hsize.
    + inversion Hreject. subst e.
      split; [reflexivity |]. split; [intros _; split; reflexivity |].
      intros Hnot. exfalso. apply Hnot. exists f. split; [reflexivity |].
      rewrite Z.gtb_ltb in Hsize. apply Z.ltb_lt. exact Hsize.
    + destruct (includes allowedTypes (mimetype f)); [discriminate |].
      inversion Hreject. subst e.
      split; [reflexivity |]. split; [| intros _; split; reflexivity].
      intros (f' & Hf' & Hlarge). inversion Hf'. subst f'.
      rewrite Z.gtb_ltb in Hsize. apply Z.ltb_ge in Hsize. lia.
  - inversion Hreject. subst e.
    split; [reflexivity |]. split; [| intros _; split; reflexivity].
    intros (f' & Hf' & _). discriminate.
Qed.


Lemma str_includes_truthy needle msg :
  needle <> EmptyString -> str_includes needle msg = true -> str_truthy msg = true.
Proof.
  intros Hneedle H. destruct msg; [| reflexivity].
  destruct needle; [contradiction | discriminate].
Qed.

Lemma has_status_eq error n :
  OpenAIService.has_status error n = true <-> status error = Some n.
Proof.
  unfold OpenAIService.has_status. destruct (status error) as [k |].
  - rewrite Z.eqb_eq. split; congruence.
  - split; discriminate.
Qed.

(** X12. The OpenAI wrapper replaces an SDK error by status: 401, 429,
    400 (image requests only) and 404 become fresh errors with fixed
    messages, any other error is rethrown unchanged. Composed with
    [errorHandler], a rejected key (401) is answered 400 CONFIG_ERROR, a
    rate limit (429) 502 OPENAI_ERROR, and a bad request (400, image
    requests) or a missing deployment (404) 400 FILE_ERROR, since their
    messages contain the word [file]. *)
Theorem provider_errors_by_status :
  forall (World : Type) (C : Collaborators World) (error : JsError)
         (req_path req_method : string) (s : St World),
    let answered e :=
      fst (error_code_and_message (message e)) in
    let statusCode e := error_statusCode (answered e) in
    (forall e,
        exists body,
          result (errorHandler C e req_path req_method s)
          = Returned (statusCode e, body)
          /\ eb_code body = answered e)
    /\ (status error = Some 401%Z ->
        answered (OpenAIService.description_error error) = "CONFIG_ERROR"
        /\ statusCode (OpenAIService.description_error error) = 400%Z
        /\ OpenAIService.embedding_error error = OpenAIService.description_error error)
    /\ (status error = Some 429%Z ->
        answered (OpenAIService.description_error error) = "OPENAI_ERROR"
        /\ statusCode (OpenAIService.description_error error) = 502%Z
        /\ OpenAIService.embedding_error error = OpenAIService.description_error error)
    /\ (status error = Some 400%Z ->
        answered (OpenAIService.description_error error) = "FILE_ERROR"
        /\ statusCode (OpenAIService.description_error error) = 400%Z
        /\ OpenAIService.embedding_error error = error)
    /\ (status error = Some 404%Z ->
        answered (OpenAIService.description_error error) = "FILE_ERROR"
        /\ statusCode (OpenAIService.description_error error) = 400%Z
        /\ answered (OpenAIService.embedding_error error) = "FILE_ERROR"
        /\ statusCode (OpenAIService.embedding_error error) = 400%Z)
    /\ (status error <> Some 401%Z -> status error <> Some 429%Z ->
        status error <> Some 400%Z -> status error <> Some 404%Z ->
        OpenAIService.description_error error = error
        /\ OpenAIService.embedding_error error = error).
Proof.
  intros World C error req_path req_method s answered statusCode.
  subst answered statusCode. cbv beta.
  split.
  { intros e. eexists. split; [apply errorHandler_result | reflexivity]. }
  unfold OpenAIService.description_error, OpenAIService.embedding_error,
    OpenAIService.has_status.
  split; [intros H; rewrite H; repeat split; reflexivity |].
  split; [intros H; rewrite H; repeat split; reflexivity |].
  split; [intros H; rewrite H; repeat split; reflexivity |].
  split; [intros H; rewrite H; repeat split; reflexivity |].
  intros H1 H2 H3 H4. destruct (status error) as [k |]; [| split; reflexivity].
  destruct (Z.eqb_spec k 401); [congruence |].
  destruct (Z.eqb_spec k 429); [congruence |].
  destruct (Z.eqb_spec k 400); [congruence |].
  destruct (Z.eqb_spec k 404); [congruence | split; reflexivity].
Qed.

Section OpenAIWrapperFacts.
Context {S : Type}.
Variable vision_request : string -> M S string.
Variable embedding_request : string -> M S Vector.

Lemma generateImageDescription_run imagePath s :
  let r := vision_request imagePath s in
  OpenAIService.generateImageDescription vision_request imagePath s
  = match result r with
    | Returned d => {| result := Returned d; final := final r; emitted := emitted r |}
    | Thrown error =>
        {| result := Thrown (OpenAIService.description_error error);
           final := final r;
           emitted := emitted r
                      ++ [Console_error
                            [LStr "Error generating image description with Azure OpenAI:";
                             LErr error]] |}
    end.
Proof.
  cbv zeta. unfold OpenAIService.generateImageDescription.
  remember (vision_request imagePath) as requestm.
  apply Run_ext; run; destruct (result (requestm s)); run_known; reflexivity.
Qed.

Lemma generateTextEmbedding_run text s :
  let r := embedding_request text s in
  OpenAIService.generateTextEmbedding embedding_request text s
  = match result r with
    | Returned v => {| result := Returned v; final := final r; emitted := emitted r |}
    | Thrown error =>
        {| result := Thrown (OpenAIService.embedding_error error);
           final := final r;
           emitted := emitted r
                      ++ [Console_error
                            [LStr "Error generating text embedding with Azure OpenAI:";
                             LErr error]] |}
    end.
Proof.
  cbv zeta. unfold OpenAIService.generateTextEmbedding.
  remember (embedding_request text) as requestm.
  apply Run_ext; run; destruct (result (requestm s)); run_known; reflexivity.
Qed.
End OpenAIWrapperFacts.


(* ================================================================== *)
(** ** The two type checks, and the upload middleware *)
(* ================================================================== *)

Lemma includes_allowedTypes m :
  includes allowedTypes m = true ->
  includes fileFilter_allowedTypes m = true.
Proof.
  rewrite !includes_In. unfold allowedTypes, fileFilter_allowedTypes.
  cbn [In]. tauto.
Qed.

Lemma includes_fileFilter_allowedTypes m :
  includes fileFilter_allowedTypes m = true ->
  includes allowedTypes m = true \/ m = "image/bmp".
Proof.
  rewrite !includes_In. unfold allowedTypes, fileFilter_allowedTypes.
  cbn [In]. intros [H | [H | [H | [H | [H | [H | []]]]]]];
    [left; auto 8 .. | right; symmetry; exact H].
Qed.

(** X14. The controller's validation is at least as strict as the
    filter of the upload middleware: a file it accepts the filter
    accepts, and a file the filter rejects it rejects. The files the
    filter lets through and the validation then rejects are exactly the
    BMP images and the files over 10 MiB. *)
Theorem validation_is_stricter_than_the_filter :
  forall (f : File),
    (validateUploadedFile (Some f) = Returned true -> fileFilter f = Returned true)
    /\ (forall e, fileFilter f = Thrown e ->
                  exists e', validateUploadedFile (Some f) = Thrown e')
    /\ (fileFilter f = Returned true ->
        (exists e, validateUploadedFile (Some f) = Thrown e)
        <-> (mimetype f = "image/bmp" \/ (maxSize < size f)%Z)).
Proof.
  intros f. unfold validateUploadedFile, fileFilter.
  destruct (size f >? maxSize)%Z eqn:Hsize.
  - rewrite Z.gtb_ltb in Hsize. apply Z.ltb_lt in Hsize.
    split; [discriminate |]. split; [intros e _; eexists; reflexivity |].
    intros _. split; [intros _; right; exact Hsize | intros _; eexists; reflexivity].
  - rewrite Z.gtb_ltb in Hsize. apply Z.ltb_ge in Hsize.
    destruct (includes allowedTypes (mimetype f)) eqn:Hallowed; cbn [negb].
    + rewrite (includes_allowedTypes _ Hallowed).
      split; [reflexivity |]. split; [discriminate |].
      intros _. split; [intros [e He]; discriminate |].
      intros [Hbmp | Hlarge]; [| lia].
      rewrite Hbmp in Hallowed. discriminate.
    + split; [discriminate |]. split; [intros e _; eexists; reflexivity |].
      destruct (includes fileFilter_allowedTypes (mimetype f)) eqn:Hfilter;
        [| discriminate].
      intros _. split; [| intros _; eexists; reflexivity].
      intros _. left.
      destruct (includes_fileFilter_allowedTypes _ Hfilter) as [H | H];
        [congruence | exact H].
Qed.

(** X15. The upload middleware calls [next] only for a request whose
    content type contains [multipart/form-data] and on which multer
    reports no error; every other request is answered 400, with one of
    six codes. A multer error is answered by its code, any other error
    -- such as the one of [fileFilter] -- with its own message and the
    code INVALID_FILE. *)
Theorem upload_middleware_passes_clean_multipart_only :
  forall (contentType : option string) (uploadMultiple : unit -> option UploadError),
    (adaptiveUpload contentType uploadMultiple = CalledNext
     <-> (exists ct, contentType = Some ct
                     /\ str_includes "multipart/form-data" ct = true)
         /\ uploadMultiple tt = None)
    /\ (forall statusCode error code,
           adaptiveUpload contentType uploadMultiple = Answered statusCode error code ->
           statusCode = 400%Z
           /\ In code ["INVALID_CONTENT_TYPE"; "FILE_TOO_LARGE"; "TOO_MANY_FILES";
                       "UNEXPECTED_FIELD"; "UPLOAD_ERROR"; "INVALID_FILE"]%string)
    /\ (forall ct msg,
           contentType = Some ct ->
           str_includes "multipart/form-data" ct = true ->
           uploadMultiple tt = Some (OtherError msg) ->
           adaptiveUpload contentType uploadMultiple = Answered 400 msg "INVALID_FILE").
Proof.
  intros contentType uploadMultiple. unfold adaptiveUpload.
  assert (Hhandle : forall error,
             (handleUploadError error = CalledNext <-> error = None)
             /\ (forall statusCode msg code,
                    handleUploadError error = Answered statusCode msg code ->
                    statusCode = 400%Z
                    /\ In code ["INVALID_CONTENT_TYPE"; "FILE_TOO_LARGE";
                                "TOO_MANY_FILES"; "UNEXPECTED_FIELD"; "UPLOAD_ERROR";
                                "INVALID_FILE"]%string)).
  { intros [[code msg | msg] |]; unfold handleUploadError.
    - destruct (String.eqb code "LIMIT_FILE_SIZE");
        [| destruct (String.eqb code "LIMIT_FILE_COUNT");
           [| destruct (String.eqb code "LIMIT_UNEXPECTED_FILE")]];
        (split; [split; discriminate |]);
        intros statusCode msg' code' H; inversion H;
          (split; [reflexivity | cbn [In]; auto 8]).
    - split; [split; discriminate |].
      intros statusCode msg' code' H; inversion H.
      split; [reflexivity | cbn [In]; auto 8].
    - split; [split; reflexivity | discriminate]. }
  destruct contentType as [ct |].
  - destruct (str_includes "multipart/form-data" ct) eqn:Hct.
    + rewrite (str_includes_truthy (needle := "multipart/form-data") ct) by
        (discriminate || exact Hct).
      cbn [andb].
      destruct (Hhandle (uploadMultiple tt)) as [Hnext Hanswer].
      split; [| split].
      * rewrite Hnext. split; [intros H; split; [exists ct; auto | exact H] | tauto].
      * exact Hanswer.
      * intros ct' msg Hct' _ Hup. rewrite Hup. reflexivity.
    + rewrite Bool.andb_false_r.
      split; [| split].
      * split; [discriminate |]. intros [(ct' & Heq & Hinc) _].
        inversion Heq. subst ct'. congruence.
      * intros statusCode msg code H. inversion H.
        split; [reflexivity | cbn [In]; auto 8].
      * intros ct' msg Heq Hinc _. inversion Heq. subst ct'. congruence.
  - split; [| split].
    + split; [discriminate |]. intros [(ct' & Heq & _) _]. discriminate.
    + intros statusCode msg code H. inversion H.
      split; [reflexivity | cbn [In]; auto 8].
    + intros ct msg Heq. discriminate.
Qed.


(* ================================================================== *)
(** ** The configuration check *)
(* ================================================================== *)

Lemma missing_or_placeholder_false process_env varName :
  OpenAIService.missing_or_placeholder process_env varName = false
  <-> exists v, process_env varName = Some v
                /\ v <> EmptyString /\ v <> "your_openai_api_key".
Proof.
  unfold OpenAIService.missing_or_placeholder, str_truthy.
  destruct (process_env varName) as [v |].
  - rewrite Bool.negb_involutive, Bool.orb_false_iff, !String.eqb_neq.
    split.
    + intros [H1 H2]. exists v. auto.
    + intros (v' & Hv & H1 & H2). inversion Hv. subst v'. auto.
  - split; [discriminate | intros (v & Hv & _); discriminate].
Qed.

Lemma filter_nil_iff {A} (p : A -> bool) l :
  filter p l = [] <-> forall x, In x l -> p x = false.
Proof.
  induction l as [| a l IH]; cbn [filter In].
  - split; [intros _ x [] | reflexivity].
  - destruct (p a) eqn:Ha.
    + split; [discriminate |]. intros H. rewrite (H a) in Ha; [discriminate | auto].
    + rewrite IH. split.
      * intros H x [<- | Hx]; auto.
      * intros H x Hx. apply H. auto.
Qed.

(** The message of the configuration check as [errorHandler] reads it. *)
Lemma validateApiKey_message_class process_env :
  let missingVars :=
    filter (OpenAIService.missing_or_placeholder process_env)
           OpenAIService.requiredEnvVars in
  let msg := ("Azure OpenAI configuration incomplete. Missing or invalid: "
              ++ join ", " missingVars
              ++ ". Please configure these in your .env file.")%string in
  missingVars <> [] ->
  error_code_and_message msg = ("FILE_ERROR", msg).
Proof.
  cbv zeta. unfold OpenAIService.requiredEnvVars. cbn [filter].
  destruct (OpenAIService.missing_or_placeholder process_env "OPENAI_API_KEY"),
    (OpenAIService.missing_or_placeholder process_env "OPENAI_BASE_URL"),
    (OpenAIService.missing_or_placeholder process_env "OPENAI_API_VERSION"),
    (OpenAIService.missing_or_placeholder process_env "OPENAI_DEPLOYMENT_NAME");
    intros H; try contradiction; vm_compute; reflexivity.
Qed.

(** X16. The configuration check returns exactly when each of the four
    required variables is set to a non-empty value other than the
    placeholder [your_openai_api_key]; it changes no state. Otherwise it
    throws, before logging anything, an error whose message lists the
    offending variables in the order of the required list; that message
    names no [API key], so [errorHandler] files it under FILE_ERROR (for
    its [.env file]) and answers 400. *)
Theorem configuration_check_lists_missing_variables :
  forall (S : Type) (process_env : string -> option string) (s : S),
    let r := OpenAIService.validateApiKey process_env s in
    let missingVars :=
      filter (OpenAIService.missing_or_placeholder process_env)
             OpenAIService.requiredEnvVars in
    final r = s
    /\ (result r = Returned tt
        <-> forall varName,
            In varName OpenAIService.requiredEnvVars ->
            exists v, process_env varName = Some v
                      /\ v <> EmptyString /\ v <> "your_openai_api_key")
    /\ (forall e,
           result r = Thrown e ->
           emitted r = []
           /\ missingVars <> []
           /\ message e
              = ("Azure OpenAI configuration incomplete. Missing or invalid: "
                 ++ join ", " missingVars
                 ++ ". Please configure these in your .env file.")%string
           /\ error_code_and_message (message e) = ("FILE_ERROR", message e)
           /\ error_statusCode "FILE_ERROR" = 400%Z).
Proof.
  intros S process_env s r missingVars.
  pose proof (validateApiKey_message_class process_env) as Hclass.
  cbv zeta in Hclass. fold missingVars in Hclass.
  assert (Hall : missingVars = []
                 <-> forall varName,
                     In varName OpenAIService.requiredEnvVars ->
                     exists v, process_env varName = Some v
                               /\ v <> EmptyString /\ v <> "your_openai_api_key").
  { unfold missingVars. rewrite filter_nil_iff.
    split; intros H x Hx; apply missing_or_placeholder_false; auto. }
  subst r. unfold OpenAIService.validateApiKey. fold missingVars.
  destruct missingVars as [| v0 rest] eqn:Hmissing.
  - cbn [List.length Nat.ltb Nat.leb].
    split; [reflexivity |].
    split; [split; [intros _; apply Hall; reflexivity | reflexivity] |].
    intros e H. discriminate.
  - cbn [List.length Nat.ltb Nat.leb].
    split; [reflexivity |].
    split.
    { split; [discriminate |]. intros H. apply Hall in H. discriminate. }
    intros e H. inversion H. cbn [message Error].
    split; [reflexivity |]. split; [discriminate |]. split; [reflexivity |].
    split; [apply Hclass; discriminate | reflexivity].
Qed.


(* ================================================================== *)
(** ** The frontend services *)
(* ================================================================== *)

Lemma str_or_nonempty s d : d <> EmptyString -> QueryService.str_or s d <> EmptyString.
Proof.
  intros Hd. unfold QueryService.str_or.
  destruct (String.eqb_spec s EmptyString); assumption.
Qed.


(** X18. [getAllImages] is a search for the fixed text
    [image photo picture] with threshold 0.1 and the given limit, 50
    when absent: it logs one line and then does exactly what that search
    does. As the search always returns, its [catch] block is never
    entered. *)
Theorem getAllImages_is_a_broad_search :
  forall (World : Type) (E : QueryService.Env World) (limit_arg : option number)
         (w : World),
    let limit := match limit_arg with Some l => l | None => Fin 50 end in
    let base :=
      QueryService.searchImages E (lit "image photo picture")
        {| QueryService.opt_limit := Some limit;
           QueryService.opt_scoreThreshold := Some (Fin (1 # 10)) |} w in
    let r := QueryValidation.getAllImages E limit_arg w in
    result r = result base
    /\ final r = final base
    /\ emitted r
       = Console_log [LStr "Fetching all images (limit:"; LNum limit] :: emitted base
    /\ exists resp, result r = Returned resp.
Proof.
  intros World E limit_arg w limit base r.
  destruct (SuggestionFacts.searchImages_answers
              E (lit "image photo picture")
              {| QueryService.opt_limit := Some limit;
                 QueryService.opt_scoreThreshold := Some (Fin (1 # 10)) |} w)
    as [resp Hresp].
  fold base in Hresp.
  subst r. unfold QueryValidation.getAllImages. fold limit.
  remember (QueryService.searchImages E (lit "image photo picture")
              {| QueryService.opt_limit := Some limit;
                 QueryService.opt_scoreThreshold := Some (Fin (1 # 10)) |}) as searchm.
  subst base.
  split; [| split; [| split]].
  - run_known. rewrite Hresp. reflexivity.
  - run_known. rewrite Hresp. reflexivity.
  - run_known. rewrite Hresp. reflexivity.
  - exists resp. run_known. rewrite Hresp. reflexivity.
Qed.

(** X19. [validateQuery] accepts exactly the non-empty queries whose
    trimmed text has at least 2 code units and whose untrimmed text has
    at most 500. It gives a message exactly when it rejects, and the
    emptiness check comes first, then the minimum, then the maximum. *)
Theorem validateQuery_accepts_2_to_500 :
  forall (World : Type) (E : QueryService.Env World) (query : jsstring),
    let v := QueryValidation.validateQuery E query in
    let trimmed := List.length (QueryService.trim E query) in
    (QueryValidation.valid v = true
     <-> query <> [] /\ (2 <= trimmed)%nat /\ (List.length query <= 500)%nat)
    /\ (QueryValidation.valid v = true <-> QueryValidation.validity_message v = None)
    /\ (query = [] \/ trimmed = 0%nat ->
        QueryValidation.validity_message v = Some "Search query cannot be empty")
    /\ (query <> [] -> trimmed = 1%nat ->
        QueryValidation.validity_message v
        = Some "Search query must be at least 2 characters long")
    /\ (query <> [] -> (2 <= trimmed)%nat -> (500 < List.length query)%nat ->
        QueryValidation.validity_message v
        = Some "Search query is too long (maximum 500 characters)").
Proof.
  intros World E query v trimmed. subst v trimmed.
  unfold QueryValidation.validateQuery.
  destruct query as [| c rest].
  - cbn [orb QueryValidation.valid QueryValidation.validity_message].
    repeat split; intros; solve [intuition (discriminate || lia || congruence)].
  - cbn [orb].
    remember (c :: rest) as query.
    assert (Hne : query <> []) by (subst query; discriminate).
    destruct (Nat.eqb_spec (List.length (QueryService.trim E query)) 0) as [H0 | H0];
      [| destruct (Nat.ltb_spec (List.length (QueryService.trim E query)) 2)
           as [H2 | H2];
         [| destruct (Nat.ltb_spec 500 (List.length query)) as [H5 | H5]]];
      cbn [QueryValidation.valid QueryValidation.validity_message];
      repeat split; intros;
        solve [intuition (discriminate || lia || congruence)].
Qed.


(* ================================================================== *)
(** ** The gallery store and the search hook *)
(* ================================================================== *)

Lemma result_try_finally {S A} (body : M S A) cleanup s :
  result (try_finally body cleanup s)
  = match result (cleanup (final (body s))) with
    | Returned _ => result (body s)
    | Thrown e => Thrown e
    end.
Proof. reflexivity. Qed.

Lemma final_try_finally {S A} (body : M S A) cleanup s :
  final (try_finally body cleanup s) = final (cleanup (final (body s))).
Proof. reflexivity. Qed.

Lemma emitted_try_finally {S A} (body : M S A) cleanup s :
  emitted (try_finally body cleanup s)
  = emitted (body s) ++ emitted (cleanup (final (body s))).
Proof. reflexivity. Qed.

Section HookFacts.
Context {World : Type}.
Variable E : QueryService.Env World.

Lemma result_bind_dispatch {A} action
      (k : unit -> M (UseImageSearch.HookState World) A) s :
  result (bind (UseImageSearch.dispatch action) k s)
  = result (k tt {| UseImageSearch.hook_world := UseImageSearch.hook_world s;
                    UseImageSearch.gallery :=
                      GalleryContext.galleryReducer (UseImageSearch.gallery s) action;
                    UseImageSearch.isSearching := UseImageSearch.isSearching s |}).
Proof. reflexivity. Qed.

Lemma final_bind_dispatch {A} action
      (k : unit -> M (UseImageSearch.HookState World) A) s :
  final (bind (UseImageSearch.dispatch action) k s)
  = final (k tt {| UseImageSearch.hook_world := UseImageSearch.hook_world s;
                   UseImageSearch.gallery :=
                     GalleryContext.galleryReducer (UseImageSearch.gallery s) action;
                   UseImageSearch.isSearching := UseImageSearch.isSearching s |}).
Proof. reflexivity. Qed.

Lemma emitted_bind_dispatch {A} action
      (k : unit -> M (UseImageSearch.HookState World) A) s :
  emitted (bind (UseImageSearch.dispatch action) k s)
  = emitted (k tt {| UseImageSearch.hook_world := UseImageSearch.hook_world s;
                     UseImageSearch.gallery :=
                       GalleryContext.galleryReducer (UseImageSearch.gallery s) action;
                     UseImageSearch.isSearching := UseImageSearch.isSearching s |}).
Proof. reflexivity. Qed.

Lemma result_bind_setIsSearching {A} b
      (k : unit -> M (UseImageSearch.HookState World) A) s :
  result (bind (UseImageSearch.setIsSearching b) k s)
  = result (k tt {| UseImageSearch.hook_world := UseImageSearch.hook_world s;
                    UseImageSearch.gallery := UseImageSearch.gallery s;
                    UseImageSearch.isSearching := b |}).
Proof. reflexivity. Qed.

Lemma final_bind_setIsSearching {A} b
      (k : unit -> M (UseImageSearch.HookState World) A) s :
  final (bind (UseImageSearch.setIsSearching b) k s)
  = final (k tt {| UseImageSearch.hook_world := UseImageSearch.hook_world s;
                   UseImageSearch.gallery := UseImageSearch.gallery s;
                   UseImageSearch.isSearching := b |}).
Proof. reflexivity. Qed.

Lemma emitted_bind_setIsSearching {A} b
      (k : unit -> M (UseImageSearch.HookState World) A) s :
  emitted (bind (UseImageSearch.setIsSearching b) k s)
  = emitted (k tt {| UseImageSearch.hook_world := UseImageSearch.hook_world s;
                     UseImageSearch.gallery := UseImageSearch.gallery s;
                     UseImageSearch.isSearching := b |}).
Proof. reflexivity. Qed.

Lemma bind_service {A A'} (m : M World A') a w ev
      (k : A' -> M (UseImageSearch.HookState World) A) s :
  m (UseImageSearch.hook_world s)
  = {| result := Returned a; final := w; emitted := ev |} ->
  bind (UseImageSearch.service m) k s
  = {| result :=
         result (k a {| UseImageSearch.hook_world := w;
                        UseImageSearch.gallery := UseImageSearch.gallery s;
                        UseImageSearch.isSearching := UseImageSearch.isSearching s |});
       final :=
         final (k a {| UseImageSearch.hook_world := w;
                       UseImageSearch.gallery := UseImageSearch.gallery s;
                       UseImageSearch.isSearching := UseImageSearch.isSearching s |});
       emitted :=
         ev ++ emitted (k a {| UseImageSearch.hook_world := w;
                               UseImageSearch.gallery := UseImageSearch.gallery s;
                               UseImageSearch.isSearching :=
                                 UseImageSearch.isSearching s |}) |}.
Proof.
  intros Hm. unfold bind, UseImageSearch.service.
  rewrite Hm. cbn [result final emitted]. reflexivity.
Qed.

(** The actions the hook dispatches for a response. *)
Lemma hook_outcome query (result0 : QueryService.SuggestedResponse)
      (s : UseImageSearch.HookState World) :
  let resp := QueryService.response result0 in
  let actions :=
    match QueryService.qr_success resp, QueryService.qr_data resp with
    | true, Some data =>
        GalleryContext.setSearchResults (QueryService.qd_results data)
        :: (if QueryService.is_zero (QueryService.qd_totalFound data)
            then [GalleryContext.setError (UseImageSearch.no_images_found query)]
            else [])
    | _, _ =>
        [GalleryContext.setError
           [GalleryContext.TStr
              (QueryService.str_or (QueryService.qr_message resp) "Search failed")]]
    end in
  let m :=
    match QueryService.qr_success resp, QueryService.qr_data resp with
    | true, Some data =>
        bind (UseImageSearch.dispatch
                (GalleryContext.setSearchResults (QueryService.qd_results data)))
             (fun _ =>
                if QueryService.is_zero (QueryService.qd_totalFound data)
                then UseImageSearch.dispatch
                       (GalleryContext.setError (UseImageSearch.no_images_found query))
                else ret tt)
    | _, _ =>
        UseImageSearch.dispatch
          (GalleryContext.setError
             [GalleryContext.TStr
                (QueryService.str_or (QueryService.qr_message resp) "Search failed")])
    end in
  m s = {| result := Returned tt;
           final := {| UseImageSearch.hook_world := UseImageSearch.hook_world s;
                       UseImageSearch.gallery :=
                         fold_left GalleryContext.galleryReducer actions
                                   (UseImageSearch.gallery s);
                       UseImageSearch.isSearching := UseImageSearch.isSearching s |};
           emitted := [] |}.
Proof.
  cbv zeta.
  destruct (QueryService.qr_success (QueryService.response result0));
    [destruct (QueryService.qr_data (QueryService.response result0)) as [data |];
     [destruct (QueryService.is_zero (QueryService.qd_totalFound data)) |] |];
    reflexivity.
Qed.

(** The run of the hook's [try] block, given the response of the search. *)
Lemma hook_body_run query s resp :
  let options := {| QueryService.opt_limit := Some (Fin 50);
                    QueryService.opt_scoreThreshold := Some (Fin (6 # 10)) |} in
  let base := QueryService.searchImages E query options (UseImageSearch.hook_world s) in
  result base = Returned resp ->
  let actions :=
    match QueryService.qr_success resp, QueryService.qr_data resp with
    | true, Some data =>
        GalleryContext.setSearchResults (QueryService.qd_results data)
        :: (if QueryService.is_zero (QueryService.qd_totalFound data)
            then [GalleryContext.setError (UseImageSearch.no_images_found query)]
            else [])
    | _, _ =>
        [GalleryContext.setError
           [GalleryContext.TStr
              (QueryService.str_or (QueryService.qr_message resp) "Search failed")]]
    end in
  (UseImageSearch.setIsSearching true ;;
   UseImageSearch.dispatch (GalleryContext.setLoading true) ;;
   UseImageSearch.dispatch (GalleryContext.setSearchQuery query) ;;
   console_log [LStr "Searching for:"; LJs query] ;;
   result0 <- UseImageSearch.service
                (QueryService.searchWithSuggestions E query options) ;;
   match QueryService.qr_success (QueryService.response result0),
         QueryService.qr_data (QueryService.response result0) with
   | true, Some data =>
       UseImageSearch.dispatch
         (GalleryContext.setSearchResults (QueryService.qd_results data)) ;;
       if QueryService.is_zero (QueryService.qd_totalFound data)
       then UseImageSearch.dispatch
              (GalleryContext.setError (UseImageSearch.no_images_found query))
       else ret tt
   | _, _ =>
       UseImageSearch.dispatch
         (GalleryContext.setError
            [GalleryContext.TStr
               (QueryService.str_or
                  (QueryService.qr_message (QueryService.response result0))
                  "Search failed")])
   end)%js s
  = {| result := Returned tt;
       final :=
         {| UseImageSearch.hook_world := final base;
            UseImageSearch.gallery :=
              fold_left GalleryContext.galleryReducer
                        ([GalleryContext.setLoading true;
                          GalleryContext.setSearchQuery query] ++ actions)
                        (UseImageSearch.gallery s);
            UseImageSearch.isSearching := true |};
       emitted := Console_log [LStr "Searching for:"; LJs query] :: emitted base |}.
Proof.
  cbv zeta. intros Hresp.
  pose proof (SuggestionFacts.searchWithSuggestions_run E query _ _ Hresp) as Hsws.
  remember (QueryService.searchWithSuggestions E query
              {| QueryService.opt_limit := Some (Fin 50);
                 QueryService.opt_scoreThreshold := Some (Fin (6 # 10)) |}) as swsm.
  remember (QueryService.searchImages E query
              {| QueryService.opt_limit := Some (Fin 50);
                 QueryService.opt_scoreThreshold := Some (Fin (6 # 10)) |}
              (UseImageSearch.hook_world s)) as base.
  apply Run_ext.
  - rewrite result_bind_setIsSearching, !result_bind_dispatch.
    unfold console_log. rewrite result_bind_emit.
    erewrite bind_service by (cbn [UseImageSearch.hook_world]; exact Hsws).
    cbn [result]. rewrite hook_outcome. reflexivity.
  - rewrite final_bind_setIsSearching, !final_bind_dispatch.
    unfold console_log. rewrite final_bind_emit.
    erewrite bind_service by (cbn [UseImageSearch.hook_world]; exact Hsws).
    cbn [final]. rewrite hook_outcome.
    cbn [final QueryService.response UseImageSearch.hook_world
               UseImageSearch.gallery UseImageSearch.isSearching fold_left app].
    reflexivity.
  - rewrite emitted_bind_setIsSearching, !emitted_bind_dispatch.
    unfold console_log. rewrite emitted_bind_emit.
    erewrite bind_service by (cbn [UseImageSearch.hook_world]; exact Hsws).
    cbn [emitted]. rewrite hook_outcome. cbn [emitted]. rewrite app_nil_r.
    reflexivity.
Qed.
End HookFacts.

(** X20. The search hook does nothing for a query that is blank after
    trimming. Otherwise it never throws, runs one search with limit 50
    and threshold 0.6, and dispatches, in this order: loading on, the
    query, then the results -- followed by a [No images found] error
    when [totalFound] is 0 -- or, for a failed search, an error with the
    response's message; and at last loading off. So it always ends with
    [isSearching] and [isLoading] off and the query stored, never
    touches the gallery's images, and leaves no error exactly when the
    search succeeded with a non-zero [totalFound]. *)
Theorem search_hook_dispatches_in_order :
  forall (World : Type) (E : QueryService.Env World) (query : jsstring)
         (s : UseImageSearch.HookState World),
    let options := {| QueryService.opt_limit := Some (Fin 50);
                      QueryService.opt_scoreThreshold := Some (Fin (6 # 10)) |} in
    let base := QueryService.searchImages E query options (UseImageSearch.hook_world s) in
    let r := UseImageSearch.searchImages E query s in
    (QueryService.trim E query = [] ->
     r = {| result := Returned tt; final := s; emitted := [] |})
    /\ (QueryService.trim E query <> [] ->
        exists resp,
          result base = Returned resp
          /\ let outcome :=
               match QueryService.qr_success resp, QueryService.qr_data resp with
               | true, Some data =>
                   GalleryContext.setSearchResults (QueryService.qd_results data)
                   :: (if QueryService.is_zero (QueryService.qd_totalFound data)
                       then [GalleryContext.setError
                               (UseImageSearch.no_images_found query)]
                       else [])
               | _, _ =>
                   [GalleryContext.setError
                      [GalleryContext.TStr
                         (QueryService.str_or (QueryService.qr_message resp)
                                              "Search failed")]]
               end in
             let after := UseImageSearch.gallery (final r) in
             result r = Returned tt
             /\ final r
                = {| UseImageSearch.hook_world := final base;
                     UseImageSearch.gallery :=
                       fold_left GalleryContext.galleryReducer
                                 ([GalleryContext.setLoading true;
                                   GalleryContext.setSearchQuery query]
                                    ++ outcome ++ [GalleryContext.setLoading false])
                                 (UseImageSearch.gallery s);
                     UseImageSearch.isSearching := false |}
             /\ emitted r
                = Console_log [LStr "Searching for:"; LJs query] :: emitted base
             /\ GalleryContext.isLoading after = false
             /\ GalleryContext.searchQuery after = query
             /\ GalleryContext.images after
                = GalleryContext.images (UseImageSearch.gallery s)
             /\ (GalleryContext.error after = None
                 <-> exists data,
                     QueryService.qr_success resp = true
                     /\ QueryService.qr_data resp = Some data
                     /\ QueryService.is_zero (QueryService.qd_totalFound data) = false)).
Proof.
  intros World E query s options base r. subst r.
  unfold UseImageSearch.searchImages. fold options.
  split.
  { intros Hblank. rewrite Hblank. reflexivity. }
  intros Hquery.
  destruct (QueryService.trim E query) as [| c rest]; [contradiction |].
  destruct (SuggestionFacts.searchImages_answers E query options
                                                 (UseImageSearch.hook_world s))
    as [resp Hresp].
  exists resp. split; [exact Hresp |].
  pose proof (@hook_body_run World E query s resp Hresp) as Hbody. cbv zeta in Hbody.
  fold options in Hbody. fold base in Hbody.
  cbv zeta.
  rewrite result_try_finally, !final_try_finally, emitted_try_finally.
  rewrite result_try_catch, !final_try_catch, emitted_try_catch.
  rewrite Hbody. cbn [result final emitted].
  rewrite result_bind_setIsSearching, !final_bind_setIsSearching,
    emitted_bind_setIsSearching.
  cbn [UseImageSearch.dispatch result final emitted UseImageSearch.hook_world
         UseImageSearch.gallery UseImageSearch.isSearching].
  rewrite app_nil_r.
  destruct (QueryService.qr_success resp);
    [destruct (QueryService.qr_data resp) as [data |];
     [destruct (QueryService.is_zero (QueryService.qd_totalFound data)) eqn:Hzero |] |];
    cbn [app fold_left];
    (split; [reflexivity |]); (split; [reflexivity |]); (split; [reflexivity |]);
    cbn;
    (split; [reflexivity |]); (split; [reflexivity |]); (split; [reflexivity |]);
    split; try discriminate; try (intros (d & H1 & H2 & H3); congruence).
  intros _. exists data. auto.
Qed.

(** X21. Every action of the gallery store but ADD_IMAGES is idempotent:
    dispatching it twice in a row leaves the state the first dispatch
    left. SET_CACHE_PROGRESS and SET_UPLOAD_PROGRESS write the same
    field. The images change under SET_IMAGES and ADD_IMAGES only; an
    error is never set by an action other than SET_ERROR, and SET_ERROR
    always switches loading and uploading off. *)
Theorem gallery_actions_are_idempotent :
  forall (state : GalleryContext.GalleryState) (action : GalleryContext.GalleryAction),
    let next := GalleryContext.galleryReducer state action in
    ((forall payload, action <> GalleryContext.ADD_IMAGES payload) ->
     GalleryContext.galleryReducer next action = next)
    /\ (forall payload,
           GalleryContext.galleryReducer state (GalleryContext.SET_CACHE_PROGRESS payload)
           = GalleryContext.galleryReducer state
                                           (GalleryContext.SET_UPLOAD_PROGRESS payload))
    /\ ((forall payload, action <> GalleryContext.SET_IMAGES payload) ->
        (forall payload, action <> GalleryContext.ADD_IMAGES payload) ->
        GalleryContext.images next = GalleryContext.images state)
    /\ ((forall payload, action <> GalleryContext.SET_ERROR payload) ->
        GalleryContext.error next = None
        \/ GalleryContext.error next = GalleryContext.error state)
    /\ (forall payload,
           action = GalleryContext.SET_ERROR payload ->
           GalleryContext.isLoading next = false
           /\ GalleryContext.isUploading next = false
           /\ GalleryContext.error next = payload).
Proof.
  intros state action next. subst next.
  split; [| split; [| split; [| split]]].
  - intros Hadd. destruct action; try reflexivity.
    exfalso. apply (Hadd payload). reflexivity.
  - reflexivity.
  - intros Hset Hadd. destruct action; try reflexivity.
    + exfalso. apply (Hset payload). reflexivity.
    + exfalso. apply (Hadd payload). reflexivity.
  - intros Herr. destruct action; cbn; auto.
    exfalso. apply (Herr payload). reflexivity.
  - intros payload ->. repeat split.
Qed.


(* ================================================================== *)
(** ** The frontend upload service *)
(* ================================================================== *)

Lemma bind_run {S A A'} (m : M S A') (k : A' -> M S A) s a s1 ev :
  m s = {| result := Returned a; final := s1; emitted := ev |} ->
  bind m k s
  = {| result := result (k a s1);
       final := final (k a s1);
       emitted := ev ++ emitted (k a s1) |}.
Proof. intros Hm. unfold bind. rewrite Hm. reflexivity. Qed.

Section UploadServiceFacts.
Context {World ServerData : Type}.
Variable BASE_URL : string.
Variable axios_post_form :
  string -> UploadService.LocalImage -> World
  -> (QueryService.AxiosError + ServerData) * World.

(** One upload: it always returns, after one request, and reports the
    request's rejection as a response. *)
Lemma uploadImage_run imageUri filename (s : UploadService.UploadState) :
  let answer :=
    axios_post_form (BASE_URL ++ "/upload")%string {| UploadService.uri := imageUri;
                           UploadService.image_filename := filename |} (fst s) in
  exists resp ev,
    UploadService.uploadImage BASE_URL axios_post_form imageUri filename s
    = {| result := Returned resp; final := (snd answer, snd s); emitted := ev |}
    /\ filter is_call ev = [Call (axios_post_call (BASE_URL ++ "/upload")%string)]
    /\ (UploadService.up_success resp = true <-> exists data, fst answer = inr data)
    /\ (UploadService.up_success resp = false ->
        UploadService.up_data resp = None
        /\ UploadService.up_message resp <> EmptyString).
Proof.
  cbv zeta.
  unfold UploadService.uploadImage, UploadService.post_form, bind, console_log,
    console_error, emit, ret.
  cbn [result final emitted].
  destruct (axios_post_form (BASE_URL ++ "/upload")%string
              {| UploadService.uri := imageUri;
                 UploadService.image_filename := filename |} (fst s))
    as [[error | data] w'].
  - cbn [result final emitted fst snd app]. eexists. eexists.
    split; [reflexivity |]. split; [reflexivity |].
    cbn [UploadService.up_success UploadService.up_data UploadService.up_message].
    split; [split; [discriminate | intros [data H]; discriminate] |].
    intros _. split; [reflexivity |]. apply str_or_nonempty. discriminate.
  - cbn [result final emitted fst snd app]. eexists. eexists.
    split; [reflexivity |]. split; [reflexivity |].
    cbn [UploadService.up_success].
    split; [split; [intros _; exists data; reflexivity | reflexivity] |].
    discriminate.
Qed.

Lemma upload_loop_run images :
  forall n i acc (s : UploadService.UploadState),
  exists acc' w ev,
    UploadService.upload_loop BASE_URL axios_post_form
                              (Some UploadService.record_progress) n i images acc s
    = {| result := Returned acc';
         final := (w, snd s ++ map (fun k => (k, n)) (seq (i + 1) (List.length images)));
         emitted := ev |}
    /\ filter is_call ev
       = repeat (Call (axios_post_call (BASE_URL ++ "/upload")%string))
                (List.length images)
    /\ (List.length (fst acc') + List.length (snd acc')
        = List.length (fst acc) + List.length (snd acc) + List.length images)%nat
    /\ (Forall (fun x => UploadService.up_success x = true) (fst acc) ->
        Forall (fun x => UploadService.up_success x = true) (fst acc'))
    /\ (Forall (fun x => UploadService.up_success x = false) (snd acc) ->
        Forall (fun x => UploadService.up_success x = false) (snd acc')).
Proof.
  induction images as [| image rest IH]; intros n i acc s.
  - exists acc, (fst s), []. cbn [List.length seq map repeat].
    rewrite app_nil_r, Nat.add_0_r.
    split; [destruct s; reflexivity |]. split; [reflexivity |]. auto.
  - cbn [UploadService.upload_loop].
    destruct (uploadImage_run (UploadService.uri image)
                              (UploadService.image_filename image) s)
      as (resp & ev & Hrun & Hcalls & Hok & _).
    erewrite bind_run by exact Hrun.
    cbv zeta.
    erewrite (@bind_run _ _ _ (UploadService.record_progress (i + 1) n))
      by reflexivity.
    cbn [fst snd app].
    match goal with
    | |- context [UploadService.upload_loop _ _ _ _ _ _ ?acc1 ?s1] =>
        destruct (IH n (i + 1)%nat acc1 s1) as (acc' & w & ev' & Hloop & Hcalls' & Hlen & Hoks & Hkos)
    end.
    rewrite Hloop. cbn [result final emitted snd].
    exists acc', w, (ev ++ ev').
    split.
    { cbn [List.length seq map]. rewrite <- app_assoc. cbn [app].
      rewrite (Nat.add_1_r (i + 1)). reflexivity. }
    split.
    { rewrite filter_app, Hcalls, Hcalls'. reflexivity. }
    destruct (UploadService.up_success resp) eqn:Hsuccess;
      cbn [fst snd] in Hlen, Hoks, Hkos.
    + split; [rewrite Hlen, length_app; cbn [List.length]; lia |].
      split; [| exact Hkos].
      intros H. apply Hoks. apply Forall_app. split; [exact H |].
      constructor; [exact Hsuccess | constructor].
    + split; [rewrite Hlen, length_app; cbn [List.length]; lia |].
      split; [exact Hoks |].
      intros H. apply Hkos. apply Forall_app. split; [exact H |].
      constructor; [exact Hsuccess | constructor].
Qed.
End UploadServiceFacts.



(* ================================================================== *)
(** ** Lazy initialisation *)
(* ================================================================== *)

Section LazyInitialisation.
Context {World : Type}.
Variable B : Builtins.
Variable C : Collaborators World.

(** Past the guard [if (!this.isInitialized) await this.initialize()]
    the service is initialised. *)
Lemma guarded_Returned {A} (K : M (St World) A) s a :
  stays_initialized K ->
  result (bind (if isInitialized s then ret tt else initialize C) (fun _ => K) s)
  = Returned a ->
  isInitialized
    (final (bind (if isInitialized s then ret tt else initialize C) (fun _ => K) s))
  = true.
Proof.
  intros HK. rewrite result_bind, final_bind.
  destruct (isInitialized s) eqn:Hflag.
  - run_known. intros _. apply HK. exact Hflag.
  - destruct (result (initialize C s)) as [[] | e] eqn:Hinit; [| discriminate].
    intros _. apply HK. apply initialize_Returned. exact Hinit.
Qed.

Lemma processAndStore_Returned_initialized imagePath originalFilename s stored :
  result (processAndStore B C imagePath originalFilename s) = Returned stored ->
  isInitialized (final (processAndStore B C imagePath originalFilename s)) = true.
Proof.
  unfold processAndStore. run_known.
  apply guarded_Returned.
  apply stays_bind; [apply stays_processImage | intros pd].
  apply stays_bind; [apply stays_external; reflexivity | intros id].
  apply stays_ret.
Qed.

Lemma processUploadedImage_Returned_initialized imagePath originalFilename s item :
  result (processUploadedImage B C imagePath originalFilename s) = Returned item ->
  isInitialized (final (processUploadedImage B C imagePath originalFilename s)) = true.
Proof.
  pose proof (processUploadedImage_run B C imagePath originalFilename s) as Hrun.
  cbv zeta in Hrun. rewrite Hrun.
  destruct (result (processAndStore B C imagePath originalFilename s))
    as [stored |] eqn:Hwork; cbn [result final]; [| discriminate].
  intros _. rewrite cleanupTemporaryFile_keeps_flag.
  apply (processAndStore_Returned_initialized _ _ _ Hwork).
Qed.

Lemma searchImages_Returned_initialized queryText limit scoreThreshold s d :
  result (searchImages C queryText limit scoreThreshold s) = Returned d ->
  isInitialized (final (searchImages C queryText limit scoreThreshold s)) = true.
Proof.
  unfold searchImages, processSearchQuery, generateTextEmbedding. cbv zeta.
  rewrite rethrow_result by (intros; reflexivity).
  intros Hbody. rewrite final_try_catch, Hbody. revert Hbody.
  run_known.
  apply guarded_Returned.
  apply stays_bind.
  { apply stays_try_catch.
    - apply stays_bind; [apply stays_emit; reflexivity | intros _].
      apply stays_external. reflexivity.
    - intros e. apply stays_bind; [apply stays_emit; reflexivity | intros _].
      apply stays_throw. }
  intros v.
  apply stays_bind; [apply stays_external; reflexivity | intros r].
  apply stays_bind; [apply stays_emit; reflexivity | intros _].
  apply stays_ret.
Qed.

(** In a batch, as soon as one file has succeeded the service is
    initialised. *)
Lemma ingest_fold_initialized files :
  forall a : Acc World,
    (acc_results a <> [] -> isInitialized (acc_state a) = true) ->
    acc_results (fold_left (ingest_step B C) files a) <> [] ->
    isInitialized (acc_state (fold_left (ingest_step B C) files a)) = true.
Proof.
  induction files as [| file rest IH]; intros a Ha; cbn [fold_left]; [exact Ha |].
  apply IH.
  destruct (result (processUploadedImage B C (path file) (originalname file)
                                         (acc_state a))) as [item | e] eqn:Hitem.
  - rewrite (ingest_step_Returned B C a file Hitem). cbn [acc_results acc_state].
    intros _. apply (processUploadedImage_Returned_initialized _ _ _ Hitem).
  - rewrite (ingest_step_Thrown B C a file Hitem). cbn [acc_results acc_state].
    intros Hsome. apply stays_processUploadedImage. apply Ha. exact Hsome.
Qed.
End LazyInitialisation.

(** X23. The service is initialised lazily by the first request that
    gets that far: an upload or a search that returns leaves
    [isInitialized] set, and so does a batch in which at least one file
    succeeded. *)
Theorem returned_request_leaves_service_initialized :
  forall (World : Type) (B : Builtins) (C : Collaborators World) (s : St World),
    (forall imagePath originalFilename item,
        result (processUploadedImage B C imagePath originalFilename s) = Returned item ->
        isInitialized (final (processUploadedImage B C imagePath originalFilename s))
        = true)
    /\ (forall queryText limit scoreThreshold d,
           result (searchImages C queryText limit scoreThreshold s) = Returned d ->
           isInitialized (final (searchImages C queryText limit scoreThreshold s))
           = true)
    /\ (forall imageFiles b,
           result (processMultipleImages B C imageFiles s) = Returned b ->
           successful b <> [] ->
           isInitialized (final (processMultipleImages B C imageFiles s)) = true).
Proof.
  intros World B C s.
  split; [intros; eapply processUploadedImage_Returned_initialized; eassumption |].
  split; [intros; eapply searchImages_Returned_initialized; eassumption |].
  intros imageFiles b.
  pose proof (processMultipleImages_fold B C imageFiles s) as Hbatch.
  cbv zeta in Hbatch. rewrite Hbatch. cbn [result final].
  intros Hb Hsome. inversion Hb. subst b. cbn [batch_of successful] in Hsome.
  unfold ingest_fold in *.
  apply ingest_fold_initialized; [| exact Hsome].
  cbn [acc_results]. intros H. contradiction.
Qed.


(* ================================================================== *)
(** ** Instances on the sample world *)
(* ================================================================== *)

Lemma initialized_service_is_not_initialized_again_witness :
  isInitialized scenario_state = true
  /\ count is_init_call
           (emitted (searchImages sample_collaborators "cat" (Some (Fin 5))
                                  (Some (Fin 0)) scenario_state))
     = 0%nat.
Proof.
  split; [reflexivity |].
  destruct (@initialized_service_is_not_initialized_again
              SampleWorld sample_builtins sample_collaborators scenario_state eq_refl)
    as (_ & _ & Hsearch).
  destruct (Hsearch "cat" (Some (Fin 5)) (Some (Fin 0))) as [_ Hcount].
  exact Hcount.
Defined.


Lemma failed_initialization_fails_the_upload_witness :
  let s := sample_state ["a.png"] false true in
  let r := processUploadedImage sample_builtins sample_collaborators
                                "uploads/a.png" "a.png" s in
  result r = Thrown store_unreachable
  /\ isInitialized (final r) = false
  /\ count is_processing_call (emitted r) = 0%nat
  /\ count (is_pathExists "uploads/a.png") (emitted r) = 1%nat.
Proof.
  intros s.
  apply (@failed_initialization_fails_the_upload
           SampleWorld sample_builtins sample_collaborators
           "uploads/a.png" "a.png" s store_unreachable);
    [reflexivity | vm_compute; reflexivity].
Defined.

Lemma upload_stores_only_complete_records_witness :
  let r := processUploadedImage sample_builtins sample_collaborators
                                "uploads/a.png" "a.png"
                                (sample_state ["a.png"] true true) in
  exists data,
    In (Call (storeImageEmbedding_call data)) (emitted r)
    /\ pd_filename data = "a.png".
Proof.
  intros r.
  destruct (@upload_stores_only_complete_records
              SampleWorld sample_builtins sample_collaborators
              "uploads/a.png" "a.png" (sample_state ["a.png"] true true))
    as (_ & Hdata & Hitem).
  assert (Hres : exists item, result r = Returned item)
    by (eexists; vm_compute; reflexivity).
  destruct Hres as [item Hres].
  destruct (Hitem item Hres) as (data & w & w' & Hin & _).
  exists data. split; [exact Hin |].
  destruct (Hdata data Hin) as [Hname _]. exact Hname.
Defined.

Lemma search_embeds_the_query_and_rethrows_witness :
  exists d,
    result (searchImages sample_collaborators "cat" (Some (Fin 5)) (Some (Fin 0))
                         scenario_state)
    = Returned d
    /\ sd_query d = "cat".
Proof.
  destruct (@search_embeds_the_query_and_rethrows
              SampleWorld sample_collaborators "cat" (Fin 5) (Fin 0) scenario_state)
    as [Hreturned _].
  assert (Hres : exists d,
             result (searchImages sample_collaborators "cat" (Some (Fin 5))
                                  (Some (Fin 0)) scenario_state)
             = Returned d)
    by (eexists; vm_compute; reflexivity).
  destruct Hres as [d Hres].
  exists d. split; [exact Hres |].
  destruct (Hreturned d Hres) as [Hquery _]. exact Hquery.
Defined.

Lemma upload_without_files_is_refused_witness :
  uploadImages sample_builtins sample_collaborators
               {| req_files := Some []; req_file := None |}
               (sample_state [] true true)
  = {| result := Returned (Json 400 false
                                "No files uploaded. Please upload at least one image."
                                (Some "NO_FILES"%string) None);
       final := sample_state [] true true;
       emitted := [] |}.
Proof.
  apply (@upload_without_files_is_refused
           SampleWorld sample_builtins sample_collaborators
           {| req_files := Some []; req_file := None |}
           (sample_state [] true true)).
  reflexivity.
Defined.

Lemma invalid_file_stops_the_whole_upload_witness :
  let req := {| req_files := Some [sample_file "a.png"; exe_upload];
                req_file := None |} in
  let s := sample_state ["a.png"] true true in
  result (uploadImages sample_builtins sample_collaborators req s)
  = Returned
      (Next (Error "Invalid file type. Only JPEG, PNG, GIF, and WebP images are allowed"))
  /\ final (uploadImages sample_builtins sample_collaborators req s) = s.
Proof.
  intros req s.
  assert (Hpre : Forall (fun g => validateUploadedFile (Some g) = Returned true)
                        [sample_file "a.png"])
    by (repeat constructor).
  rewrite (@invalid_file_stops_the_whole_upload
             SampleWorld sample_builtins sample_collaborators req s
             [sample_file "a.png"] [] exe_upload
             (Error "Invalid file type. Only JPEG, PNG, GIF, and WebP images are allowed")
             eq_refl Hpre eq_refl).
  split; reflexivity.
Defined.

Lemma batch_upload_answers_200_or_207_witness :
  let req := {| req_files := Some [sample_file "a.png"; sample_file "b.png"];
                req_file := None |} in
  let s := sample_state ["a.png"] true true in
  exists b,
    result (uploadImages sample_builtins sample_collaborators req s)
    = Returned (Json 207 true "Batch upload completed: 1 successful, 1 failed"
                     None (Some (BatchData b)))
    /\ totalFailed b = 1%nat.
Proof.
  intros req s.
  assert (Hlen : (2 <= List.length (files_of req))%nat) by (cbn; lia).
  assert (Hvalid : Forall (fun g => validateUploadedFile (Some g) = Returned true)
                          (files_of req))
    by (repeat constructor).
  destruct (@batch_upload_answers_200_or_207
              SampleWorld sample_builtins sample_collaborators req s Hlen Hvalid)
    as (b & Hb & Hanswer & _).
  assert (Hcounts : forall b',
             result (processMultipleImages sample_builtins sample_collaborators
                                           (files_of req) s)
             = Returned b' ->
             totalProcessed b' = 1%nat /\ totalFailed b' = 1%nat).
  { vm_compute. intros b' H. inversion H. split; reflexivity. }
  destruct (Hcounts b Hb) as [Hok Hko].
  exists b. rewrite Hanswer, Hok, Hko. split; reflexivity.
Defined.

Lemma query_is_checked_then_searched_trimmed_witness :
  queryImages sample_builtins sample_collaborators
              {| body_query := VNum (Fin 42);
                 body_limit := VUndefined;
                 body_scoreThreshold := VUndefined |}
              scenario_state
  = {| result := Returned (Json 400 false
                                "Query text is required and must be a non-empty string"
                                (Some "INVALID_QUERY"%string) None);
       final := scenario_state;
       emitted := [] |}.
Proof.
  apply (proj1 (@query_is_checked_then_searched_trimmed
                  SampleWorld sample_builtins sample_collaborators
                  {| body_query := VNum (Fin 42);
                     body_limit := VUndefined;
                     body_scoreThreshold := VUndefined |}
                  scenario_state)).
  intros q H. discriminate.
Defined.

Lemma rejected_file_as_answered_by_error_handler_witness :
  exists body,
    result (errorHandler sample_collaborators
                         (Error "File size too large. Maximum size is 10MB")
                         "/api/upload" "POST" scenario_state)
    = Returned (500%Z, body)
    /\ eb_code body = "INTERNAL_ERROR".
Proof.
  destruct (@rejected_file_as_answered_by_error_handler
              SampleWorld sample_collaborators (Some oversized_upload)
              (Error "File size too large. Maximum size is 10MB")
              "/api/upload" "POST" scenario_state eq_refl)
    as (statusCode & body & Hres & _ & Hlarge & _).
  destruct Hlarge as [Hstatus Hcode].
  { exists oversized_upload. split; reflexivity. }
  exists body. rewrite <- Hstatus. split; [exact Hres | exact Hcode].
Defined.

Lemma returned_request_leaves_service_initialized_witness :
  let s := sample_state ["a.png"] true true in
  isInitialized s = false
  /\ isInitialized
       (final (processUploadedImage sample_builtins sample_collaborators
                                    "uploads/a.png" "a.png" s))
     = true.
Proof.
  intros s. split; [reflexivity |].
  destruct (@returned_request_leaves_service_initialized
              SampleWorld sample_builtins sample_collaborators s)
    as [Hupload _].
  assert (Hres : exists item,
             result (processUploadedImage sample_builtins sample_collaborators
                                          "uploads/a.png" "a.png" s)
             = Returned item)
    by (eexists; vm_compute; reflexivity).
  destruct Hres as [item Hres].
  exact (Hupload "uploads/a.png" "a.png" item Hres).
Defined.
